(** * FrameCut: sequence timeline, playback synchronisation and timecodes

    A shallow embedding of the engine of the FrameCut editor
    ([src/utils.ts], [src/types.ts], [src/components/Player.tsx],
    [src/components/ClipItem.tsx] and the application component that owns
    the clip list), with the properties of its timecode formatter,
    sequence model, time mapping, playback state machine, trim operations
    and thumbnail worker.

    JavaScript numbers are idealised as exact rationals ([Q]): the
    arithmetic is the one the source writes, without rounding error and
    without [NaN] or the infinities.  Equality of computed times is
    therefore [Qeq] ([==]); times that the code only copies are related by
    Leibniz equality.  Two parts of the engine are embedded a second time
    where that idealisation would hide what the code does: the time
    mapping over binary64 numbers ([Doubles]), where rounding decides
    whether a local time stays inside the trim window, and the commit seek
    over requests that may be infinite or [NaN] ([Checked]), where an
    assignment to [currentTime] can raise. *)

From Stdlib Require Import QArith Qround Lqa ZArith Lia List Bool String Ascii
  DecimalString.
From Stdlib Require Import Zquot Permutation.
From Corelib Require PrimFloat.
Import ListNotations.

Open Scope Q_scope.

(* ================================================================== *)
(** * Part I: definitions *)
(* ================================================================== *)

(** ** Numbers: the fragment of [Math] and of the comparison operators
    the engine uses *)

Module Num.

(** [Math.max(a, b)] and [Math.min(a, b)] on finite numbers. *)
Definition Math_max (a b : Q) : Q := if Qle_bool a b then b else a.
Definition Math_min (a b : Q) : Q := if Qle_bool a b then a else b.

(** [Math.floor(x)] and [Math.round(x)]; the latter rounds halves
    towards plus infinity, which is [floor (x + 1/2)]. *)
Definition Math_floor (x : Q) : Z := Qfloor x.
Definition Math_round (x : Q) : Z := Qfloor (x + (1 # 2)).

(** Truncation towards zero and the remainder operator [x % y], whose
    result takes the sign of the dividend. *)
Definition trunc (x : Q) : Z := Z.quot (Qnum x) (Zpos (Qden x)).
Definition rem (x y : Q) : Q := x - y * inject_Z (trunc (x / y)).

(** [a >= b], [a < b], [a <= b] and [a > b] as the booleans the code
    branches on. *)
Definition geb (a b : Q) : bool := Qle_bool b a.
Definition ltb (a b : Q) : bool := negb (Qle_bool b a).
Definition leb (a b : Q) : bool := Qle_bool a b.
Definition gtb (a b : Q) : bool := negb (Qle_bool a b).

(** [Number.isFinite]: every number of the model is finite. *)
Definition Number_isFinite (_ : Q) : bool := true.

(** The [clamp] helper that [Player.tsx] and [ClipItem.tsx] both declare:
    [Math.min(max, Math.max(min, value))]. *)
Definition clamp (value min max : Q) : Q :=
  Math_min max (Math_max min value).

End Num.

(** ** [src/types.ts] *)

Module Types.

(** [interface Clip]; the [file] handle is opaque to the engine and is
    left out. *)
Record Clip : Type := mkClip {
  id : string;
  url : string;
  name : string;
  originalDuration : Q;
  start : Q;
  end_ : Q;
  fps : Q;
  isSelected : bool
}.

(** A [Partial<Clip>] as the trim operations build it: only [start] and
    [end] are ever present. *)
Record ClipUpdates : Type := mkUpdates {
  upd_start : option Q;
  upd_end : option Q
}.

(** The object spread [{ ...c, ...updates }]. *)
Definition spread (c : Clip) (updates : ClipUpdates) : Clip :=
  mkClip (id c) (url c) (name c) (originalDuration c)
    (match upd_start updates with Some s => s | None => start c end)
    (match upd_end updates with Some e => e | None => end_ c end)
    (fps c) (isSelected c).

End Types.

(** ** [src/utils.ts]: the timecode formatter *)

Module Utils.
Import Num.

Local Open Scope string_scope.

(** [n.toString()] for an integral number. *)
Definition toString (n : Z) : string := NilZero.string_of_int (Z.to_int n).

Fixpoint repeat_char (c : ascii) (n : nat) : string :=
  match n with
  | O => EmptyString
  | S k => String c (repeat_char c k)
  end.

(** [s.padStart(targetLength, pad)] for a one-character pad. *)
Definition padStart (targetLength : nat) (pad : ascii) (s : string) : string :=
  repeat_char pad (targetLength - String.length s) ++ s.

Definition formatTimecode (totalSeconds : Q) : string :=
  let seconds := Math_floor totalSeconds in
  let fractional := (totalSeconds - inject_Z seconds)%Q in
  let frames := Math_round (fractional * 60)%Q in
  let sStr := padStart 2 "0" (toString seconds) in
  let fStr := padStart 2 "0" (toString frames) in
  sStr ++ ":" ++ fStr.

Definition formatDurationDisplay (totalSeconds : Q) : string :=
  let minutes := Math_floor (totalSeconds / 60)%Q in
  let seconds := Math_floor (rem totalSeconds 60) in
  let fractional := (totalSeconds - inject_Z (Math_floor totalSeconds))%Q in
  let frames := Math_round (fractional * 60)%Q in
  let mStr := padStart 2 "0" (toString minutes) in
  let sStr := padStart 2 "0" (toString seconds) in
  let fStr := padStart 2 "0" (toString frames) in
  mStr ++ ":" ++ sStr ++ "." ++ fStr.

(** The frame field both formatters print. *)
Definition frames_of (totalSeconds : Q) : Z :=
  Math_round ((totalSeconds - inject_Z (Math_floor totalSeconds)) * 60)%Q.

(** A number below one hundred written with exactly two decimal digits. *)
Definition digit (d : Z) : ascii := ascii_of_nat (48 + Z.to_nat d).
Definition two_digits (n : Z) : string :=
  String (digit (n / 10)) (String (digit (n mod 10)) EmptyString).

End Utils.

(** ** The sequence model ([Player.tsx], "Sequence Calculation") *)

Module Sequence.
Import Num Types.

(** An element of [sequence]: the clip ([...clip]) with its place on the
    global timeline. *)
Record SequenceEntry : Type := mkEntry {
  clip : Clip;
  sequenceStart : Q;
  sequenceDuration : Q;
  sequenceEnd : Q
}.

(** [clips.map(clip => ...)] with the captured, mutable
    [accumulatedTime]: the accumulator is threaded through the map. *)
Fixpoint map_from (accumulatedTime : Q) (clips : list Clip)
  : list SequenceEntry :=
  match clips with
  | [] => []
  | clip :: rest =>
      let duration := end_ clip - start clip in
      let start := accumulatedTime in
      let accumulatedTime := accumulatedTime + duration in
      mkEntry clip start duration (start + duration)
        :: map_from accumulatedTime rest
  end.

Definition sequence (clips : list Clip) : list SequenceEntry :=
  map_from 0 clips.

(** [sequence[sequence.length - 1]], [undefined] on the empty array. *)
Definition lastEntry (sequence : list SequenceEntry) : option SequenceEntry :=
  nth_error sequence (List.length sequence - 1)%nat.

Definition totalDuration (sequence : list SequenceEntry) : Q :=
  match lastEntry sequence with
  | Some e => sequenceEnd e
  | None => 0
  end.

(** The target of a global time, as the commit seek, the hover preview
    and the thumbnail worker all write it:
    [sequence.find(c => t >= c.sequenceStart && t < c.sequenceEnd)
     || sequence[sequence.length - 1]]. *)
Definition targetClip (sequence : list SequenceEntry) (t : Q)
  : option SequenceEntry :=
  match find (fun c => geb t (sequenceStart c) && ltb t (sequenceEnd c))
             sequence with
  | Some c => Some c
  | None => lastEntry sequence
  end.

(** [Math.max(0, Math.min(time, totalDurationRef.current))]. *)
Definition seekTime (sequence : list SequenceEntry) (time : Q) : Q :=
  Math_max 0 (Math_min time (totalDuration sequence)).

(** The local time of the commit seek ([localSeekTime], not clamped) and
    of the preview and worker paths ([localTime], clamped to the trim
    window). *)
Definition localSeekTime (targetClip : SequenceEntry) (seekTime : Q) : Q :=
  start (clip targetClip) + (seekTime - sequenceStart targetClip).

Definition localTime (targetClip : SequenceEntry) (pendingTime : Q) : Q :=
  let unclampedLocalTime :=
    start (clip targetClip) + (pendingTime - sequenceStart targetClip) in
  Math_max (start (clip targetClip))
           (Math_min unclampedLocalTime (end_ (clip targetClip))).

(** [sequence.findIndex(c => c.id === activeClipId)], [None] for [-1]. *)
Fixpoint findIndex {A : Type} (p : A -> bool) (l : list A) : option nat :=
  match l with
  | [] => None
  | x :: rest =>
      if p x then Some O
      else match findIndex p rest with
           | Some i => Some (S i)
           | None => None
           end
  end.

Definition id_is (activeClipId : option string) (c : SequenceEntry) : bool :=
  match activeClipId with
  | Some i => String.eqb (id (clip c)) i
  | None => false
  end.

Definition activeClipIndex (sequence : list SequenceEntry)
    (activeClipId : option string) : option nat :=
  findIndex (id_is activeClipId) sequence.

Definition activeClip (sequence : list SequenceEntry)
    (activeClipId : option string) : option SequenceEntry :=
  match activeClipIndex sequence activeClipId with
  | Some i => nth_error sequence i
  | None => None
  end.

(** The half-open window of an entry holds the time [t]. *)
Definition in_window (t : Q) (e : SequenceEntry) : Prop :=
  sequenceStart e <= t /\ t < sequenceEnd e.

(** The sum of the trimmed lengths, the closed form of the total. *)
Fixpoint sum_durations (clips : list Clip) : Q :=
  match clips with
  | [] => 0
  | c :: rest => (end_ c - start c) + sum_durations rest
  end.

(** The reference scenario: three untrimmed clips of 10, 5 and 8
    seconds. *)
Definition untrimmed (i : string) (duration : Q) : Clip :=
  mkClip i (String.append "blob:" i) i duration 0 duration 60 false.

Definition clip1 : Clip := untrimmed "c1" 10.
Definition clip2 : Clip := untrimmed "c2" 5.
Definition clip3 : Clip := untrimmed "c3" 8.
Definition threeClips : list Clip := [clip1; clip2; clip3].

End Sequence.

(** ** The clip list owner: batch trim, clip updates and the list's own
    copy of the sequence positions *)

Module App.
Import Num Types.

(** [setClips(prev => prev.map(c => c.id === id ? { ...c, ...updates } : c))]. *)
Definition handleUpdateClip (id0 : string) (updates : ClipUpdates)
    (clips : list Clip) : list Clip :=
  map (fun c => if String.eqb (id c) id0 then spread c updates else c) clips.

(** One clip of [handleBatchTrim]: [trimAmount = 18 / 60],
    [newEnd = Math.max(c.start + 0.1, c.end - trimAmount)]. *)
Definition batchTrimClip (c : Clip) : Clip :=
  let trimAmount := 18 / 60 in
  let newEnd := Math_max (start c + (1 # 10)) (end_ c - trimAmount) in
  spread c (mkUpdates None (Some newEnd)).

Definition handleBatchTrim (clips : list Clip) : list Clip :=
  map batchTrimClip clips.

(** An element of [clipsWithSelection]. *)
Record ListedClip : Type := mkListed {
  listed : Clip;
  sequenceStart : Q;
  sequenceEnd : Q
}.

Fixpoint listed_from (selectedClipId : option string) (accumulatedTime : Q)
    (clips : list Clip) : list ListedClip :=
  match clips with
  | [] => []
  | c :: rest =>
      let duration := end_ c - start c in
      let sequenceStart := accumulatedTime in
      let accumulatedTime := accumulatedTime + duration in
      let selected :=
        match selectedClipId with
        | Some i => String.eqb (id c) i
        | None => false
        end in
      mkListed
        (mkClip (id c) (url c) (name c) (originalDuration c) (start c)
                (end_ c) (fps c) selected)
        sequenceStart accumulatedTime
        :: listed_from selectedClipId accumulatedTime rest
  end.

Definition clipsWithSelection (selectedClipId : option string)
    (clips : list Clip) : list ListedClip :=
  listed_from selectedClipId 0 clips.

End App.

(** ** [ClipItem.tsx]: trim operations and the local-to-global mapping *)

Module ClipItem.
Import Num Types.

Definition fps_of (clip : Clip) : Q :=
  if Number_isFinite (fps clip) && gtb (fps clip) 0 then fps clip else 60.

Definition minDuration (clip : Clip) : Q :=
  Math_max (1 # 10) (1 / fps_of clip).

(** The update [handleTrimEnd] sends to [onUpdateClip]; [trimFrames] is
    the value of the frame-count field. *)
Definition handleTrimEnd (trimFrames : Q) (clip : Clip) : ClipUpdates :=
  let frames := Math_max 1 (inject_Z (Math_round trimFrames)) in
  let trimAmount := frames / fps_of clip in
  let newEnd :=
    Math_max (start clip + minDuration clip) (end_ clip - trimAmount) in
  mkUpdates None (Some newEnd).

(** [getBoundingClientRect()] of the track, as far as it is read. *)
Record Rect : Type := mkRect { left : Q; width : Q }.

(** [getTimeFromClientX]; [trackRef.current] may be [null], and
    [durationRef.current || 0] is the clip's original duration. *)
Definition getTimeFromClientX (trackRef : option Rect) (duration : Q)
    (clientX : Q) : Q :=
  match trackRef with
  | None => 0
  | Some rect =>
      let pct :=
        if gtb (width rect) 0
        then clamp ((clientX - left rect) / width rect) 0 1
        else 0 in
      pct * duration
  end.

Inductive Edge : Type := EdgeStart | EdgeEnd.

(** The [onMove] listener of [beginTrim edge]: the update it schedules,
    or [None] when it returns early.  [startRef], [endRef] and
    [durationRef] mirror the clip's fields. *)
Definition onMove (edge : Edge) (trackRef : option Rect) (clip : Clip)
    (clientX : Q) : option ClipUpdates :=
  let t := getTimeFromClientX trackRef (originalDuration clip) clientX in
  let curStart := start clip in
  let curEnd := end_ clip in
  let dur := originalDuration clip in
  if leb dur 0 then None
  else
    match edge with
    | EdgeStart =>
        let nextStart := clamp t 0 (curEnd - minDuration clip) in
        Some (mkUpdates (Some nextStart) None)
    | EdgeEnd =>
        let nextEnd := clamp t (curStart + minDuration clip) dur in
        Some (mkUpdates None (Some nextEnd))
    end.

(** The clip after the scheduled update went through [onUpdateClip]. *)
Definition trimDrag (edge : Edge) (trackRef : option Rect) (clientX : Q)
    (clip : Clip) : Clip :=
  match onMove edge trackRef clip clientX with
  | Some updates => spread clip updates
  | None => clip
  end.

Definition trimEnd (trimFrames : Q) (clip : Clip) : Clip :=
  spread clip (handleTrimEnd trimFrames clip).

(** [toGlobalTimeFromLocal], with the [sequenceStart] prop. *)
Definition toGlobalTimeFromLocal (clip : Clip) (sequenceStart : Q)
    (localTime : Q) : Q :=
  let clampedLocal := clamp localTime (start clip) (end_ clip) in
  sequenceStart + (clampedLocal - start clip).

(** One frame at the clip's own rate, the trim window the data model
    asks for, and the window the trim operations maintain. *)
Definition oneFrame (clip : Clip) : Q := 1 / fps_of clip.

Definition validWindow (c : Clip) : Prop :=
  0 <= start c /\ start c < end_ c /\ end_ c <= originalDuration c.

Definition trimmable (c : Clip) : Prop :=
  0 <= start c /\ end_ c <= originalDuration c
  /\ minDuration c <= end_ c - start c.

(** A clip of a twentieth of a second, at 60 frames per second. *)
Definition shortClip : Clip :=
  mkClip "short" "blob:short" "short" (1 # 20) 0 (1 # 20) 60 false.

(** A one-second clip, and a track 100 pixels wide. *)
Definition oneSecondClip : Clip :=
  mkClip "one" "blob:one" "one" 1 0 1 60 false.

Definition track100 : Rect := mkRect 0 100.

End ClipItem.

(** ** [Player.tsx]: the playback state machine *)

Module Player.
Import Num Types Sequence.

(** The visible [<video>] element, as far as the engine reads and writes
    it.  [loadedmetadata] holds the seeks that one-shot listeners of that
    event will apply, oldest first.  [fastSeek(t)] and
    [currentTime = t] are both the request to move to [t]. *)
Record Video : Type := mkVideo {
  src : option string;
  currentTime : Q;
  readyState : nat;
  paused : bool;
  loadedmetadata : list Q
}.

(** [vid.src = s]: the element starts loading [s] from scratch. *)
Definition set_src (s : string) (v : Video) : Video :=
  mkVideo (Some s) 0 0 true (loadedmetadata v).

Definition set_currentTime (t : Q) (v : Video) : Video :=
  mkVideo (src v) t (readyState v) (paused v) (loadedmetadata v).

Definition video_play (v : Video) : Video :=
  mkVideo (src v) (currentTime v) (readyState v) false (loadedmetadata v).

Definition addLoadedListener (t : Q) (v : Video) : Video :=
  mkVideo (src v) (currentTime v) (readyState v) (paused v)
          (loadedmetadata v ++ [t]).

(** The element reports its metadata: every pending listener runs, in
    registration order, and removes itself.  The event is raised once
    per load, so nothing happens on an element that is already ready. *)
Definition fire_loadedmetadata (v : Video) : Video :=
  if (readyState v <? 1)%nat
  then mkVideo (src v)
               (fold_left (fun _ t => t) (loadedmetadata v) (currentTime v))
               1 (paused v) []
  else v.

(** [currentSrc !== s] negated: the [src] attribute is the string [s]. *)
Definition src_is (currentSrc : option string) (s : string) : bool :=
  match currentSrc with
  | Some c => String.eqb c s
  | None => false
  end.

(** [previewRestoreRef.current]. *)
Record Restore : Type := mkRestore {
  restore_src : option string;
  restore_localTime : Q;
  restore_globalTime : Q
}.

(** Props, state and refs of the component.  [activeClipIdRef],
    [sequenceRef] and [totalDurationRef] mirror the values they are
    synchronised with after every render and are not kept apart.
    [timeouts] are the seeks deferred with [setTimeout(..., 0)];
    [reportedTime] is the last value passed to [onTimeUpdate]. *)
Record State : Type := mkState {
  clips : list Clip;
  activeClipId : option string;
  videoRef : option Video;
  isPlaying : bool;
  isScrubbing : bool;
  globalTimeDisplay : Q;
  isPreviewingRef : bool;
  previewRestoreRef : option Restore;
  previewRafRef : bool;
  previewPendingTimeRef : option Q;
  timeouts : list Q;
  reportedTime : Q
}.

Definition with_activeClipId (x : option string) (s : State) : State :=
  mkState (clips s) x (videoRef s) (isPlaying s) (isScrubbing s)
    (globalTimeDisplay s) (isPreviewingRef s) (previewRestoreRef s)
    (previewRafRef s) (previewPendingTimeRef s) (timeouts s) (reportedTime s).

Definition with_videoRef (x : option Video) (s : State) : State :=
  mkState (clips s) (activeClipId s) x (isPlaying s) (isScrubbing s)
    (globalTimeDisplay s) (isPreviewingRef s) (previewRestoreRef s)
    (previewRafRef s) (previewPendingTimeRef s) (timeouts s) (reportedTime s).

Definition with_isPlaying (x : bool) (s : State) : State :=
  mkState (clips s) (activeClipId s) (videoRef s) x (isScrubbing s)
    (globalTimeDisplay s) (isPreviewingRef s) (previewRestoreRef s)
    (previewRafRef s) (previewPendingTimeRef s) (timeouts s) (reportedTime s).

Definition setGlobalTimeDisplay (x : Q) (s : State) : State :=
  mkState (clips s) (activeClipId s) (videoRef s) (isPlaying s)
    (isScrubbing s) x (isPreviewingRef s) (previewRestoreRef s)
    (previewRafRef s) (previewPendingTimeRef s) (timeouts s) (reportedTime s).

Definition with_isPreviewingRef (x : bool) (s : State) : State :=
  mkState (clips s) (activeClipId s) (videoRef s) (isPlaying s)
    (isScrubbing s) (globalTimeDisplay s) x (previewRestoreRef s)
    (previewRafRef s) (previewPendingTimeRef s) (timeouts s) (reportedTime s).

Definition with_previewRestoreRef (x : option Restore) (s : State) : State :=
  mkState (clips s) (activeClipId s) (videoRef s) (isPlaying s)
    (isScrubbing s) (globalTimeDisplay s) (isPreviewingRef s) x
    (previewRafRef s) (previewPendingTimeRef s) (timeouts s) (reportedTime s).

Definition with_previewRafRef (x : bool) (s : State) : State :=
  mkState (clips s) (activeClipId s) (videoRef s) (isPlaying s)
    (isScrubbing s) (globalTimeDisplay s) (isPreviewingRef s)
    (previewRestoreRef s) x (previewPendingTimeRef s) (timeouts s)
    (reportedTime s).

Definition with_previewPendingTimeRef (x : option Q) (s : State) : State :=
  mkState (clips s) (activeClipId s) (videoRef s) (isPlaying s)
    (isScrubbing s) (globalTimeDisplay s) (isPreviewingRef s)
    (previewRestoreRef s) (previewRafRef s) x (timeouts s) (reportedTime s).

Definition with_timeouts (x : list Q) (s : State) : State :=
  mkState (clips s) (activeClipId s) (videoRef s) (isPlaying s)
    (isScrubbing s) (globalTimeDisplay s) (isPreviewingRef s)
    (previewRestoreRef s) (previewRafRef s) (previewPendingTimeRef s) x
    (reportedTime s).

(** [onTimeUpdate(t)] and [onActiveClipChange(id)]: the owner stores the
    time and makes [id] the active clip. *)
Definition onTimeUpdate (x : Q) (s : State) : State :=
  mkState (clips s) (activeClipId s) (videoRef s) (isPlaying s)
    (isScrubbing s) (globalTimeDisplay s) (isPreviewingRef s)
    (previewRestoreRef s) (previewRafRef s) (previewPendingTimeRef s)
    (timeouts s) x.

Definition onActiveClipChange (i : string) (s : State) : State :=
  with_activeClipId (Some i) s.

Definition sequenceOf (s : State) : list SequenceEntry := sequence (clips s).

Definition hasClips (s : State) : bool :=
  negb (Nat.eqb (List.length (clips s)) 0)
  && match activeClip (sequenceOf s) (activeClipId s) with
     | Some _ => true
     | None => false
     end.

(** *** Natural playback: [handleTimeUpdate] *)

Definition handleTimeUpdate (s : State) : State :=
  if isPreviewingRef s then s
  else
    match videoRef s, activeClip (sequenceOf s) (activeClipId s),
          activeClipIndex (sequenceOf s) (activeClipId s) with
    | Some vid, Some activeClip, Some activeClipIndex =>
        let currentLocalTime := currentTime vid in
        let currentGlobalTime :=
          sequenceStart activeClip
          + (currentLocalTime - start (clip activeClip)) in
        let s1 :=
          if negb (isScrubbing s)
          then setGlobalTimeDisplay currentGlobalTime s else s in
        let s2 := onTimeUpdate currentLocalTime s1 in
        if geb currentLocalTime (end_ (clip activeClip))
           && negb (isScrubbing s)
        then
          let nextIndex :=
            ((activeClipIndex + 1) mod List.length (sequenceOf s))%nat in
          match nth_error (sequenceOf s) nextIndex with
          | Some nextClip =>
              let s3 := onActiveClipChange (id (clip nextClip)) s2 in
              let vid1 := set_src (url (clip nextClip)) vid in
              let vid2 := set_currentTime (start (clip nextClip)) vid1 in
              (* [vid.play()], and the [onPlay] handler it triggers *)
              with_isPlaying true (with_videoRef (Some (video_play vid2)) s3)
          | None => s2
          end
        else s2
    | _, _, _ => s
    end.

(** Playback runs the visible surface up to the active clip's trimmed
    end (an action of the media element, not of the component). *)
Definition reachTrimmedEnd (s : State) : State :=
  match videoRef s, activeClip (sequenceOf s) (activeClipId s) with
  | Some vid, Some activeClip =>
      with_videoRef (Some (set_currentTime (end_ (clip activeClip)) vid)) s
  | _, _ => s
  end.

(** *** Commit seek: [seekToGlobalTime] *)

(** [if (videoRef.current) { videoRef.current.currentTime = t;
    onTimeUpdate(t); }]. *)
Definition seekVideo (localSeekTime : Q) (s : State) : State :=
  match videoRef s with
  | Some vid =>
      onTimeUpdate localSeekTime
        (with_videoRef (Some (set_currentTime localSeekTime vid)) s)
  | None => s
  end.

Definition seekToGlobalTime (time : Q) (s : State) : State :=
  let seekTime := Sequence.seekTime (sequenceOf s) time in
  let s1 := setGlobalTimeDisplay seekTime s in
  match targetClip (sequenceOf s) seekTime with
  | Some targetClip =>
      let localSeekTime := Sequence.localSeekTime targetClip seekTime in
      if negb (id_is (activeClipId s) targetClip)
      then
        let s2 := onActiveClipChange (id (clip targetClip)) s1 in
        with_timeouts (timeouts s2 ++ [localSeekTime]) s2
      else seekVideo localSeekTime s1
  | None => s1
  end.

(** The oldest deferred seek runs. *)
Definition runTimeout (s : State) : State :=
  match timeouts s with
  | [] => s
  | localSeekTime :: rest => seekVideo localSeekTime (with_timeouts rest s)
  end.

(** The effect "Sync Active Clip ID from Props". *)
Definition syncActiveClip (s : State) : State :=
  if isPreviewingRef s then s
  else
    match activeClip (sequenceOf s) (activeClipId s), videoRef s with
    | Some activeClip, Some vid =>
        if negb (src_is (src vid) (url (clip activeClip)))
        then
          let vid1 := set_src (url (clip activeClip)) vid in
          let vid2 := set_currentTime (start (clip activeClip)) vid1 in
          if isPlaying s
          then with_videoRef (Some (video_play vid2)) s
          else with_videoRef (Some vid2) s
        else s
    | _, _ => s
    end.

(** *** Hover preview: [previewAtGlobalTime], its frame callback and
    [endPreview] *)

Definition setVideoSrcAndTime (src0 : string) (time : Q) (s : State) : State :=
  match videoRef s with
  | None => s
  | Some vid =>
      let vid1 := if negb (src_is (src vid) src0) then set_src src0 vid else vid in
      if (1 <=? readyState vid1)%nat
      then with_videoRef (Some (set_currentTime time vid1)) s
      else with_videoRef (Some (addLoadedListener time vid1)) s
  end.

Definition endPreview (s : State) : State :=
  if negb (isPreviewingRef s) then s
  else
    let s1 := with_isPreviewingRef false s in
    let s2 := with_previewRafRef false s1 in
    let s3 := with_previewPendingTimeRef None s2 in
    let restore := previewRestoreRef s3 in
    let s4 := with_previewRestoreRef None s3 in
    match restore with
    | None => s4
    | Some restore =>
        match videoRef s4 with
        | None => s4
        | Some _ =>
            let committed :=
              find (id_is (activeClipId s4)) (sequenceOf s4) in
            let src0 :=
              match committed with
              | Some c => Some (url (clip c))
              | None => restore_src restore
              end in
            let s5 :=
              match src0 with
              | Some u =>
                  if String.eqb u EmptyString then s4
                  else setVideoSrcAndTime u (restore_localTime restore) s4
              | None => s4
              end in
            setGlobalTimeDisplay (restore_globalTime restore) s5
        end
    end.

Definition previewAtGlobalTime (time : Q) (s : State) : State :=
  if negb (hasClips s) then s
  else if isPlaying s then s
  else
    match videoRef s with
    | None => s
    | Some vid =>
        let seekTime := Sequence.seekTime (sequenceOf s) time in
        let s1 := with_previewPendingTimeRef (Some seekTime) s in
        let s2 :=
          if negb (isPreviewingRef s1)
          then
            with_previewRestoreRef
              (Some (mkRestore (src vid) (currentTime vid)
                               (globalTimeDisplay s1)))
              (with_isPreviewingRef true s1)
          else s1 in
        let s3 := setGlobalTimeDisplay seekTime s2 in
        if negb (previewRafRef s3) then with_previewRafRef true s3 else s3
    end.

(** The animation-frame callback that [previewAtGlobalTime] schedules:
    it applies the latest pending time. *)
Definition previewFrame (s : State) : State :=
  if negb (previewRafRef s) then s
  else
    let s1 := with_previewRafRef false s in
    match previewPendingTimeRef s1 with
    | None => s1
    | Some pendingTime =>
        match targetClip (sequenceOf s1) pendingTime with
        | None => s1
        | Some targetClip =>
            let localTime := Sequence.localTime targetClip pendingTime in
            match videoRef s1 with
            | None => s1
            | Some vid =>
                let vid1 :=
                  if negb (src_is (src vid) (url (clip targetClip)))
                  then set_src (url (clip targetClip)) vid else vid in
                if (1 <=? readyState vid1)%nat
                then with_videoRef (Some (set_currentTime localTime vid1)) s1
                else with_videoRef (Some (addLoadedListener localTime vid1)) s1
            end
        end
    end.

Definition commitSeekToGlobalTime (time : Q) (s : State) : State :=
  seekToGlobalTime time (endPreview s).

(** The visible surface reports its metadata. *)
Definition loadedMetadata (s : State) : State :=
  match videoRef s with
  | Some vid => with_videoRef (Some (fire_loadedmetadata vid)) s
  | None => s
  end.

(** What can happen between entering the preview and leaving it. *)
Inductive PreviewEvent : Type :=
| PreviewAt (time : Q)
| AnimationFrame
| LoadedMetadata.

Definition previewStep (s : State) (e : PreviewEvent) : State :=
  match e with
  | PreviewAt time => previewAtGlobalTime time s
  | AnimationFrame => previewFrame s
  | LoadedMetadata => loadedMetadata s
  end.

Definition previewRun (events : list PreviewEvent) (s : State) : State :=
  fold_left previewStep events s.

(** The committed triplet the preview must give back. *)
Definition committedTriplet (s : State) : option (option string * Q * Q) :=
  match videoRef s with
  | Some vid => Some (src vid, currentTime vid, globalTimeDisplay s)
  | None => None
  end.

(** One natural end of clip: playback reaches the trimmed end and the
    [timeupdate] handler runs. *)
Definition advance (s : State) : State :=
  handleTimeUpdate (reachTrimmedEnd s).

(** The committed, playing-or-paused situation in which the active clip
    is the entry of index [i]. *)
Definition committed_at (s : State) (i : nat) (e : SequenceEntry) : Prop :=
  nth_error (sequenceOf s) i = Some e
  /\ activeClipId s = Some (id (clip e))
  /\ isPreviewingRef s = false
  /\ isScrubbing s = false
  /\ exists vid, videoRef s = Some vid.

(** The preview is on, over the committed state [s0] and with the
    snapshot [r]. *)
Definition previewing (r : Restore) (s0 s : State) : Prop :=
  isPreviewingRef s = true
  /\ previewRestoreRef s = Some r
  /\ clips s = clips s0
  /\ activeClipId s = activeClipId s0
  /\ isPlaying s = false
  /\ exists vid, videoRef s = Some vid.

(** The three-clip scenario with the surface at the trimmed end of the
    first clip, playing. *)
Definition scenarioAtEnd : State :=
  mkState threeClips (Some "c1"%string)
    (Some (mkVideo (Some "blob:c1"%string) 10 1 false []))
    true false 10 false None false None [] 10.

(** Two states that differ at most in the representation of the number
    shown as the global position. *)
Definition same_playback (a b : State) : Prop :=
  a = setGlobalTimeDisplay (globalTimeDisplay a) b
  /\ globalTimeDisplay a == globalTimeDisplay b.

(** A player without clips, and one left without clips after showing
    position 7. *)
Definition emptyState : State :=
  mkState [] None None false false 0 false None false None [] 0.

(** The surface is loading, and its newest metadata listener will seek
    to [t]. *)
Definition awaiting (old : list Q) (t : Q) (s : State) : Prop :=
  exists v, videoRef s = Some v /\ readyState v = O
            /\ loadedmetadata v = old ++ [t].

(** The three-clip scenario, paused at the start of its first clip. *)
Definition scenarioState : State :=
  mkState threeClips (Some "c1"%string)
    (Some (mkVideo (Some "blob:c1"%string) 0 1 true []))
    false false 0 false None false None [] 0.

End Player.

(** ** [Player.tsx]: the timeline thumbnail worker *)

Module TimelinePreview.
Import Num Types Sequence.

(** The suspended [async] loop: its captured token, its local
    [idleFrames], and, when it waits inside an iteration that picked a
    target up, the source and local time that iteration will draw.  The
    waits of one iteration (metadata, seek, decoded frame) are one
    suspension: the token only grows, so the check after the last wait
    subsumes the earlier ones. *)
Record Worker : Type := mkWorker {
  workerToken : nat;
  idleFrames : nat;
  inFlight : option (string * Q)
}.

(** Refs and state the thumbnail path touches.  [mounted] says that the
    hidden video and the canvas refs are set; [previewSrc] is the hidden
    video's [src] attribute; [drawn] lists the frames composited on the
    canvas, oldest first. *)
Record State : Type := mkState {
  sequenceRef : list SequenceEntry;
  hasClips : bool;
  areControlsVisible : bool;
  timelineRef : option ClipItem.Rect;
  mounted : bool;
  timelinePreviewPendingRef : option (Q * Q);
  timelinePreviewCaptureTimeRef : option Q;
  timelinePreviewWorkerRunningRef : bool;
  timelinePreviewTokenRef : nat;
  worker : option Worker;
  previewSrc : option string;
  drawn : list (string * Q);
  timelinePreview : bool * Q * Q
}.

Definition with_pending (x : option (Q * Q)) (s : State) : State :=
  mkState (sequenceRef s) (hasClips s) (areControlsVisible s) (timelineRef s)
    (mounted s) x (timelinePreviewCaptureTimeRef s)
    (timelinePreviewWorkerRunningRef s) (timelinePreviewTokenRef s)
    (worker s) (previewSrc s) (drawn s) (timelinePreview s).

Definition with_captureTime (x : option Q) (s : State) : State :=
  mkState (sequenceRef s) (hasClips s) (areControlsVisible s) (timelineRef s)
    (mounted s) (timelinePreviewPendingRef s) x
    (timelinePreviewWorkerRunningRef s) (timelinePreviewTokenRef s)
    (worker s) (previewSrc s) (drawn s) (timelinePreview s).

Definition with_running (x : bool) (s : State) : State :=
  mkState (sequenceRef s) (hasClips s) (areControlsVisible s) (timelineRef s)
    (mounted s) (timelinePreviewPendingRef s)
    (timelinePreviewCaptureTimeRef s) x (timelinePreviewTokenRef s)
    (worker s) (previewSrc s) (drawn s) (timelinePreview s).

Definition with_token (x : nat) (s : State) : State :=
  mkState (sequenceRef s) (hasClips s) (areControlsVisible s) (timelineRef s)
    (mounted s) (timelinePreviewPendingRef s)
    (timelinePreviewCaptureTimeRef s) (timelinePreviewWorkerRunningRef s) x
    (worker s) (previewSrc s) (drawn s) (timelinePreview s).

Definition with_worker (x : option Worker) (s : State) : State :=
  mkState (sequenceRef s) (hasClips s) (areControlsVisible s) (timelineRef s)
    (mounted s) (timelinePreviewPendingRef s)
    (timelinePreviewCaptureTimeRef s) (timelinePreviewWorkerRunningRef s)
    (timelinePreviewTokenRef s) x (previewSrc s) (drawn s)
    (timelinePreview s).

Definition with_previewSrc (x : option string) (s : State) : State :=
  mkState (sequenceRef s) (hasClips s) (areControlsVisible s) (timelineRef s)
    (mounted s) (timelinePreviewPendingRef s)
    (timelinePreviewCaptureTimeRef s) (timelinePreviewWorkerRunningRef s)
    (timelinePreviewTokenRef s) (worker s) x (drawn s) (timelinePreview s).

Definition with_drawn (x : list (string * Q)) (s : State) : State :=
  mkState (sequenceRef s) (hasClips s) (areControlsVisible s) (timelineRef s)
    (mounted s) (timelinePreviewPendingRef s)
    (timelinePreviewCaptureTimeRef s) (timelinePreviewWorkerRunningRef s)
    (timelinePreviewTokenRef s) (worker s) (previewSrc s) x
    (timelinePreview s).

Definition setTimelinePreview (x : bool * Q * Q) (s : State) : State :=
  mkState (sequenceRef s) (hasClips s) (areControlsVisible s) (timelineRef s)
    (mounted s) (timelinePreviewPendingRef s)
    (timelinePreviewCaptureTimeRef s) (timelinePreviewWorkerRunningRef s)
    (timelinePreviewTokenRef s) (worker s) (previewSrc s) (drawn s) x.

(** The [finally] block: the loop is gone. *)
Definition finish (s : State) : State :=
  with_worker None (with_running false s).

(** The idle branch of the loop body, entered with [idleFrames] idle
    iterations behind it: give up after thirty, else sleep. *)
Definition idleBranch (token idleFrames : nat) (s : State) : State :=
  let idleFrames := S idleFrames in
  if (30 <? idleFrames)%nat then finish s
  else with_worker (Some (mkWorker token idleFrames None)) s.

(** The time mapping of the worker: the source and the clamped local
    time of a requested time. *)
Definition workerTarget (seq : list SequenceEntry) (requestedTime : Q)
  : option (string * Q) :=
  let clippedTime := Math_max 0 (Math_min requestedTime (totalDuration seq)) in
  if Nat.eqb (List.length seq) 0 then None
  else
    match targetClip seq clippedTime with
    | None => None
    | Some targetClip =>
        Some (url (clip targetClip), localTime targetClip clippedTime)
    end.

(** From the [while] condition to the next [await].  A [continue] taken
    after the cell was emptied re-enters the loop at once, with the same
    token and an empty cell, that is, in the idle branch. *)
Definition loopFrom (w : Worker) (s : State) : State :=
  if negb (Nat.eqb (workerToken w) (timelinePreviewTokenRef s)) then finish s
  else
    match timelinePreviewCaptureTimeRef s with
    | None => idleBranch (workerToken w) (idleFrames w) s
    | Some requestedTime =>
        if negb (mounted s)
        then with_worker (Some (mkWorker (workerToken w) 0 None)) s
        else
          let s1 := with_captureTime None s in
          match workerTarget (sequenceRef s1) requestedTime with
          | None => idleBranch (workerToken w) 0 s1
          | Some (src0, localTime) =>
              let s2 :=
                if negb (Player.src_is (previewSrc s1) src0)
                then with_previewSrc (Some src0) s1 else s1 in
              with_worker
                (Some (mkWorker (workerToken w) 0 (Some (src0, localTime)))) s2
          end
    end.

(** The suspended loop wakes up.  [ready] tells whether the hidden
    surface reached [readyState >= 1] for the iteration in flight. *)
Definition resume (ready : bool) (s : State) : State :=
  match worker s with
  | None => s
  | Some w =>
      match inFlight w with
      | None => loopFrom w s
      | Some frame =>
          if negb (Nat.eqb (workerToken w) (timelinePreviewTokenRef s))
          then finish s
          else if negb ready
          then loopFrom (mkWorker (workerToken w) 0 None) s
          else loopFrom (mkWorker (workerToken w) 0 None)
                        (with_drawn (drawn s ++ [frame]) s)
      end
  end.

(** [updateTimelinePreviewFromClientX]; the thumbnail's size, which the
    pick-up does not read, is left out. *)
Definition updateTimelinePreviewFromClientX (clientX : Q) (s : State) : State :=
  if negb (hasClips s) then s
  else if negb (areControlsVisible s) then s
  else
    match timelineRef s with
    | None => s
    | Some rect =>
        if leb (ClipItem.width rect) 0 then s
        else
          let x := clamp (clientX - ClipItem.left rect) 0 (ClipItem.width rect) in
          let seekTime :=
            if gtb (ClipItem.width rect) 0
            then (x / ClipItem.width rect) * totalDuration (sequenceRef s)
            else 0 in
          let leftPx := x in
          let s1 := with_pending (Some (seekTime, leftPx)) s in
          let s2 := with_captureTime (Some seekTime) s1 in
          let s3 := setTimelinePreview (true, leftPx, seekTime) s2 in
          if timelinePreviewWorkerRunningRef s3 then s3
          else
            let s4 := with_running true s3 in
            let workerToken := timelinePreviewTokenRef s4 in
            loopFrom (mkWorker workerToken 0 None) s4
    end.

Definition hideTimelinePreview (s : State) : State :=
  let s1 := with_pending None s in
  let s2 := with_captureTime None s1 in
  let s3 := with_token (timelinePreviewTokenRef s2 + 1)%nat s2 in
  match timelinePreview s3 with
  | (true, leftPx, time) => setTimelinePreview (false, leftPx, time) s3
  | _ => s3
  end.

(** The time a pointer position asks for. *)
Definition requestedTimeOf (s : State) (clientX : Q) : option Q :=
  match timelineRef s with
  | Some rect =>
      Some (clamp (clientX - ClipItem.left rect) 0 (ClipItem.width rect)
            / ClipItem.width rect * totalDuration (sequenceRef s))
  | None => None
  end.


Fixpoint wake (n : nat) (s : State) : State :=
  match n with
  | O => s
  | S k => wake k (resume true s)
  end.

(** What a pointer position leaves alone while a loop is alive. *)
Definition untouched (s : State) :=
  (sequenceRef s, hasClips s, areControlsVisible s, timelineRef s, mounted s,
   timelinePreviewWorkerRunningRef s, timelinePreviewTokenRef s, worker s,
   previewSrc s, drawn s).



(** The three-clip scenario over a timeline 230 pixels wide: the loop
    sleeps in its idle branch; and the same with no loop alive. *)
Definition warmState : State :=
  mkState (sequence threeClips) true true (Some (ClipItem.mkRect 0 230)) true
    None None true 0 (Some (mkWorker 0 1 None)) None [] (true, 0, 0).


End TimelinePreview.

(** ** Layout: the player frame, the thumbnail and the drawn frame
    ([Player.tsx]) *)

Module Layout.
Import Num.

(** [a || b] on numbers: [b] when [a] is zero. *)
Definition orElse (a b : Q) : Q := if Qeq_bool a 0 then b else a.

(** The value of [wrapperStyle]: the two ['100%'] strings, or a size in
    pixels. *)
Inductive Style : Type :=
| Percent100
| Pixels (width height : Q).

(** [wrapperStyle]; [rW] and [rH] are the two numbers of the
    aspect-ratio string. *)
Definition wrapperStyle (containerWidth containerHeight titleBarHeight
    rW rH : Q) : Style :=
  if Qeq_bool containerWidth 0 || Qeq_bool containerHeight 0 then Percent100
  else
    let targetRatio := rW / rH in
    let reservedHeight :=
      if gtb titleBarHeight 0 then titleBarHeight + 8 else 0 in
    let availableHeight := Math_max 0 (containerHeight - reservedHeight) in
    let width := containerWidth in
    let height := width / targetRatio in
    if gtb availableHeight 0 && gtb height availableHeight
    then Pixels (availableHeight * targetRatio) availableHeight
    else Pixels width height.

(** [fullscreenFrameStyle]; [fullscreenViewport] is the stored viewport,
    [innerWidth] and [innerHeight] the window's. *)
Definition fullscreenFrameStyle (isFullscreen : bool) (wrapper : Style)
    (fullscreenViewport : Q * Q) (innerWidth innerHeight rW rH : Q) : Style :=
  if negb isFullscreen then wrapper
  else
    let viewportWidth := orElse (fst fullscreenViewport) innerWidth in
    let viewportHeight := orElse (snd fullscreenViewport) innerHeight in
    let targetRatio := rW / rH in
    let width := viewportWidth in
    let height := width / targetRatio in
    if gtb height viewportHeight
    then Pixels (viewportHeight * targetRatio) viewportHeight
    else Pixels width height.

(** The thumbnail's size, as [updateTimelinePreviewFromClientX] and the
    worker both compute it: a base of 200 (width) or 160 (height), then
    both sides rounded to even numbers. *)
Definition thumbSize (rW rH : Q) : Z * Z :=
  let targetRatio := rW / rH in
  let '(thumbWidth, thumbHeight) :=
    if geb targetRatio 1
    then (200%Z, Math_round (200 / targetRatio))
    else (Math_round (160 * targetRatio), 160%Z) in
  ((Math_round (inject_Z thumbWidth / 2) * 2)%Z,
   (Math_round (inject_Z thumbHeight / 2) * 2)%Z).

(** The canvas of the worker: twice the thumbnail's size. *)
Definition canvasSize (rW rH : Q) : Z * Z :=
  let '(width, height) := thumbSize rW rH in
  ((width * 2)%Z, (height * 2)%Z).

Inductive FitMode : Type := Contain | Cover.

(** The rectangle [drawImage] is called with: [dx], [dy], [drawW],
    [drawH]. *)
Record DrawRect : Type := mkDrawRect {
  dx : Q;
  dy : Q;
  drawW : Q;
  drawH : Q
}.

Definition drawRect (currentFitMode : FitMode)
    (canvasWidth canvasHeight videoWidth videoHeight : Q) : DrawRect :=
  let vw := orElse videoWidth canvasWidth in
  let vh := orElse videoHeight canvasHeight in
  match currentFitMode with
  | Cover =>
      let scale := Math_max (canvasWidth / vw) (canvasHeight / vh) in
      let drawW := vw * scale in
      let drawH := vh * scale in
      mkDrawRect ((canvasWidth - drawW) / 2) ((canvasHeight - drawH) / 2)
                 drawW drawH
  | Contain =>
      let scale := Math_min (canvasWidth / vw) (canvasHeight / vh) in
      let drawW := vw * scale in
      let drawH := vh * scale in
      mkDrawRect ((canvasWidth - drawW) / 2) ((canvasHeight - drawH) / 2)
                 drawW drawH
  end.

(** [calcTime] of [handleTimelineMouseDown]; [timelineRef.current] may be
    [null]. *)
Definition calcTime (timelineRef : option ClipItem.Rect) (totalDuration : Q)
    (clientX : Q) : Q :=
  match timelineRef with
  | None => 0
  | Some rect =>
      let x := clientX - ClipItem.left rect in
      let pct := Math_max 0 (Math_min 1 (x / ClipItem.width rect)) in
      pct * totalDuration
  end.

End Layout.

(** ** Export settings (the application component) *)

Module ExportSettings.
Import Num Types.

(** [toEven]; [v % 2] is the remainder that takes the sign of [v]. *)
Definition toEven (value : Q) : Z :=
  let v := Math_round value in
  if (Z.rem v 2 =? 0)%Z then v else (v + 1)%Z.

Inductive ExportResolution : Type := ResAuto | Res720p | Res1080p.

(** [getExportDimensions]; [rW] and [rH] are [Number] of the two parts
    of the aspect-ratio string, [None] when not a finite number. *)
Definition getExportDimensions (resolution : ExportResolution)
    (rW rH : option Q) : option (Z * Z) :=
  match resolution with
  | ResAuto => None
  | _ =>
      let base :=
        match resolution with Res720p => 720%Z | _ => 1080%Z end in
      match rW, rH with
      | Some rW, Some rH =>
          if leb rW 0 || leb rH 0 then Some (base, base)
          else if leb rW rH
          then Some (toEven (inject_Z base), toEven (inject_Z base * rH / rW))
          else Some (toEven (inject_Z base * rW / rH), toEven (inject_Z base))
      | _, _ => Some (base, base)
      end
  end.

(** The loop of [projectFps] over the clips. *)
Fixpoint maxFps_from (maxFps : Q) (clips : list Clip) : Q :=
  match clips with
  | [] => maxFps
  | clip :: rest =>
      maxFps_from
        (if Number_isFinite (fps clip) then Math_max maxFps (fps clip)
         else maxFps)
        rest
  end.

(** [projectFps] of the application component ([maxFps || 60]) and of
    the player ([maxFps]). *)
Definition projectFps (clips : list Clip) : Q :=
  Layout.orElse (maxFps_from 0 clips) 60.

Definition playerProjectFps (clips : list Clip) : Q := maxFps_from 0 clips.

Inductive ExportFps : Type := FpsAuto | Fps24 | Fps30 | Fps60.

(** The rate passed to the encoder:
    [exportConfig.fps === 'auto' ? projectFps : exportConfig.fps]. *)
Definition exportFps (configFps : ExportFps) (clips : list Clip) : Q :=
  match configFps with
  | FpsAuto => projectFps clips
  | Fps24 => 24
  | Fps30 => 30
  | Fps60 => 60
  end.

End ExportSettings.

(** ** Audio state ([Player.tsx]) *)

Module Audio.
Import Num.

Record State : Type := mkAudio { volume : Q; isMuted : bool }.

(** [toggleMute], without the notification timer. *)
Definition toggleMute (s : State) : State :=
  let shouldUnmute := isMuted s || Qeq_bool (volume s) 0 in
  if shouldUnmute
  then mkAudio (if Qeq_bool (volume s) 0 then 1 else volume s) false
  else mkAudio (volume s) true.

Definition handleVolumeChange (newVol : Q) (s : State) : State :=
  mkAudio newVol (if gtb newVol 0 && isMuted s then false else isMuted s).

(** Sound comes out: not muted, at a volume above zero. *)
Definition audible (s : State) : Prop := isMuted s = false /\ 0 < volume s.

End Audio.

(** ** The clip list and its selection (the application component) *)

Module ClipList.
Import Num Types.

(** [clips] and [selectedClipId]. *)
Record Model : Type := mkModel {
  clips : list Clip;
  selectedClipId : option string
}.

(** [!selectedClipId]: [null] or the empty string. *)
Definition falsy (s : option string) : bool :=
  match s with
  | None => true
  | Some x => String.eqb x EmptyString
  end.

(** The clip [handleFileUpload] creates for a file, given the generated
    identifier, the object URL and the file's name. *)
Definition newClip (file : string * string * string) : Clip :=
  let '(i, u, n) := file in mkClip i u n 0 0 0 60 false.

(** [handleFileUpload]: the two state updates it makes at once. *)
Definition handleFileUpload (files : list (string * string * string))
    (m : Model) : Model :=
  let newClips := map newClip files in
  let updated := clips m ++ newClips in
  match updated with
  | first :: _ =>
      if falsy (selectedClipId m) then mkModel updated (Some (id first))
      else mkModel updated (selectedClipId m)
  | [] => mkModel updated (selectedClipId m)
  end.

(** [video.onloadedmetadata] for the clip [i]: the list update. *)
Definition onloadedmetadata (i : string) (duration : Q) (m : Model) : Model :=
  mkModel
    (map (fun c =>
            if String.eqb (id c) i
            then mkClip (id c) (url c) (name c) duration (start c) duration
                        (fps c) (isSelected c)
            else c)
         (clips m))
    (selectedClipId m).

(** The selection it defers: [setSelectedClipId(prev => prev || first)]. *)
Definition deferredSelect (first : string) (m : Model) : Model :=
  mkModel (clips m)
          (if falsy (selectedClipId m) then Some first else selectedClipId m).

(** [handleDeleteClip]: the filter, then, when the active clip went, the
    update that selects the first remaining clip. *)
Definition handleDeleteClip (i : string) (m : Model) : Model :=
  let remaining := filter (fun c => negb (String.eqb (id c) i)) (clips m) in
  let wasSelected :=
    match selectedClipId m with
    | Some s => String.eqb s i
    | None => false
    end in
  if wasSelected
  then mkModel remaining
               (match remaining with
                | first :: _ => Some (id first)
                | [] => None
                end)
  else mkModel remaining (selectedClipId m).

(** [handleSelectClip] and [handleActiveClipChange]. *)
Definition handleSelectClip (i : string) (m : Model) : Model :=
  mkModel (clips m) (Some i).

(** [splice(i, 1)] and [splice(j, 0, item)]. *)
Definition removeAt (i : nat) (l : list Clip) : list Clip :=
  firstn i l ++ skipn (S i) l.

Definition insertAt (j : nat) (item : Clip) (l : list Clip) : list Clip :=
  firstn j l ++ item :: skipn j l.

(** The list after [handleDragEnd], with [dragItem.current] and
    [dragOverItem.current].  The indices are those of rendered items; for
    an index past the end the source would store [undefined], which no
    list of clips holds, and the model leaves the list as it is. *)
Definition handleDragEnd (dragItem dragOverItem : option nat)
    (clips : list Clip) : list Clip :=
  match dragItem, dragOverItem with
  | Some i, Some j =>
      if negb (Nat.eqb i j)
      then match nth_error clips i with
           | Some draggedItemContent =>
               insertAt j draggedItemContent (removeAt i clips)
           | None => clips
           end
      else clips
  | _, _ => clips
  end.

(** What the user and the media loader can do to the list. *)
Inductive Action : Type :=
| Upload (files : list (string * string * string))
| MetadataLoaded (i : string) (duration : Q)
| DeferredSelect (first : string)
| Delete (i : string)
| Select (i : string)
| Reorder (dragItem dragOverItem : option nat)
| UpdateClip (i : string) (updates : ClipUpdates)
| BatchTrim.

Definition step (m : Model) (a : Action) : Model :=
  match a with
  | Upload files => handleFileUpload files m
  | MetadataLoaded i duration => onloadedmetadata i duration m
  | DeferredSelect first => deferredSelect first m
  | Delete i => handleDeleteClip i m
  | Select i => handleSelectClip i m
  | Reorder i j => mkModel (handleDragEnd i j (clips m)) (selectedClipId m)
  | UpdateClip i updates =>
      mkModel (App.handleUpdateClip i updates (clips m)) (selectedClipId m)
  | BatchTrim => mkModel (App.handleBatchTrim (clips m)) (selectedClipId m)
  end.

(** The selection is on a clip of the list, or there is no selection and
    no clip. *)
Definition selection_ok (m : Model) : Prop :=
  match selectedClipId m with
  | Some i => In i (map id (clips m))
  | None => clips m = []
  end.

(** An action names a clip that is still in the list, where it names one
    to select. *)
Definition names_listed (m : Model) (a : Action) : Prop :=
  match a with
  | Select i | DeferredSelect i => In i (map id (clips m))
  | _ => True
  end.

Definition initial : Model := mkModel [] None.

Definition run (actions : list Action) (m : Model) : Model :=
  fold_left step actions m.

(** Every action of a run names a listed clip at the moment it happens
    (see [names_listed]). *)
Fixpoint all_listed (m : Model) (actions : list Action) : Prop :=
  match actions with
  | [] => True
  | a :: rest => names_listed m a /\ all_listed (step m a) rest
  end.

(** Two files, as the upload receives them. *)
Definition twoFiles : list (string * string * string) :=
  [("a"%string, "blob:a"%string, "a.mp4"%string);
   ("b"%string, "blob:b"%string, "b.mp4"%string)].

End ClipList.

(** ** Transport controls and the position sampler ([Player.tsx]) *)

Module Transport.
Import Num Types Sequence Player.

Definition video_pause (v : Video) : Video :=
  mkVideo (src v) (currentTime v) (readyState v) true (loadedmetadata v).

(** [play] of the imperative handle; [vid.play()] raises [play], whose
    handler sets [isPlaying]. *)
Definition play (s : State) : State :=
  match videoRef s, activeClip (sequenceOf s) (activeClipId s) with
  | Some vid, Some activeClip =>
      let vid1 :=
        if geb (currentTime vid) (end_ (clip activeClip))
        then set_currentTime (start (clip activeClip)) vid else vid in
      with_isPlaying true (with_videoRef (Some (video_play vid1)) s)
  | _, _ => s
  end.

Definition pause (s : State) : State :=
  match videoRef s with
  | Some vid => with_isPlaying false (with_videoRef (Some (video_pause vid)) s)
  | None => s
  end.

(** [togglePlay]: the click on the surface. *)
Definition togglePlay (s : State) : State :=
  match videoRef s, activeClip (sequenceOf s) (activeClipId s) with
  | Some vid, Some activeClip =>
      if isPlaying s
      then with_isPlaying false (with_videoRef (Some (video_pause vid)) s)
      else
        let vid1 :=
          if geb (currentTime vid) (end_ (clip activeClip))
          then set_currentTime (start (clip activeClip)) vid else vid in
        with_isPlaying true (with_videoRef (Some (video_play vid1)) s)
  | _, _ => s
  end.

(** The per-frame sampler: its [lastEmit] and the times at which it
    called [onTimeUpdate]. *)
Record Sampler : Type := mkSampler {
  lastEmit : Q;
  emitted : list Q
}.

(** One run of [tick] at time [now]. *)
Definition tick (now : Q) (st : State * Sampler) : State * Sampler :=
  let '(s, sm) := st in
  match videoRef s, activeClip (sequenceOf s) (activeClipId s) with
  | Some vid, Some clip0 =>
      if negb (isPreviewingRef s)
      then
        let local := currentTime vid in
        let global := sequenceStart clip0 + (local - start (clip clip0)) in
        let s1 := if negb (isScrubbing s) then setGlobalTimeDisplay global s
                  else s in
        if geb (now - lastEmit sm) 33
        then (onTimeUpdate local s1, mkSampler now (emitted sm ++ [now]))
        else (s1, sm)
      else (s, sm)
  | _, _ => (s, sm)
  end.

(** The effect that owns the frame loop,
    [useEffect(..., [hasClips, isPlaying, onTimeUpdate])]: the
    dependencies its last run saw ([onTimeUpdate] is the owner's state
    setter, which never changes); the [lastEmit] of the frame loop that
    run started, [None] when it returned at once; and, across runs, the
    times at which [tick] called [onTimeUpdate]. *)
Record FrameLoop : Type := mkFrameLoop {
  ranWith : bool * bool;
  live : option Q;
  calls : list Q
}.

Definition deps (s : State) : bool * bool := (hasClips s, isPlaying s).

Definition same_deps (a b : bool * bool) : bool :=
  Bool.eqb (fst a) (fst b) && Bool.eqb (snd a) (snd b).

(** One run of the effect's body: without clips or while paused it
    returns at once; otherwise it starts a frame loop whose local
    [lastEmit] is 0. *)
Definition runEffect (s : State) (calls0 : list Q) : FrameLoop :=
  mkFrameLoop (deps s)
    (if negb (hasClips s) then None
     else if negb (isPlaying s) then None
     else Some 0)
    calls0.

(** The component mounts: the effect runs for the first time. *)
Definition mount (s : State) : State * FrameLoop := (s, runEffect s []).

(** A render: when a dependency changed, the effect is cleaned up (its
    frame loop is cancelled) and runs again. *)
Definition render (s : State) (l : FrameLoop) : FrameLoop :=
  if same_deps (ranWith l) (deps s) then l else runEffect s (calls l).

(** An animation frame at time [now]: the [tick] of the live loop. *)
Definition frame (now : Q) (st : State * FrameLoop) : State * FrameLoop :=
  let '(s, l) := st in
  match live l with
  | None => (s, l)
  | Some lastEmit0 =>
      let '(s1, sm) := tick now (s, mkSampler lastEmit0 (calls l)) in
      (s1, mkFrameLoop (ranWith l) (Some (lastEmit sm)) (emitted sm))
  end.

(** What happens to a mounted player: an animation frame, or any change
    of its state followed by the render the change causes. *)
Inductive Event : Type :=
| Frame (now : Q)
| Change (f : State -> State).

Definition step (st : State * FrameLoop) (e : Event) : State * FrameLoop :=
  match e with
  | Frame now => frame now st
  | Change f => (f (fst st), render (f (fst st)) (snd st))
  end.

Definition run (events : list Event) (st : State * FrameLoop)
  : State * FrameLoop :=
  fold_left step events st.

(** The event leaves the effect's dependencies as they are. *)
Definition keeps_deps (e : Event) : Prop :=
  match e with
  | Frame _ => True
  | Change f => forall s, deps (f s) = deps s
  end.

(** Every time of the list is at least 33 after the one before it, the
    first one after [last]. *)
Fixpoint spaced (last : Q) (times : list Q) : Prop :=
  match times with
  | [] => True
  | t :: rest => last + 33 <= t /\ spaced t rest
  end.

End Transport.

(** ** Trim session of a clip item ([ClipItem.tsx]) *)

Module TrimSession.
Import Num Types ClipItem.

(** [pendingUpdateRef], [rafRef] and the updates handed to
    [onUpdateClip], oldest first. *)
Record Scheduler : Type := mkScheduler {
  pendingUpdateRef : option ClipUpdates;
  rafRef : bool;
  applied : list ClipUpdates
}.

Definition scheduleUpdate (updates : ClipUpdates) (s : Scheduler) : Scheduler :=
  let s1 := mkScheduler (Some updates) (rafRef s) (applied s) in
  if rafRef s1 then s1
  else mkScheduler (pendingUpdateRef s1) true (applied s1).

(** The animation-frame callback, when one is scheduled. *)
Definition frame (s : Scheduler) : Scheduler :=
  if rafRef s
  then
    match pendingUpdateRef s with
    | Some pending => mkScheduler None false (applied s ++ [pending])
    | None => mkScheduler None false (applied s)
    end
  else s.

Definition scheduleAll (updates : list ClipUpdates) (s : Scheduler) : Scheduler :=
  fold_left (fun s u => scheduleUpdate u s) updates s.

(** The update [handleReset] sends. *)
Definition handleReset (clip : Clip) : ClipUpdates :=
  mkUpdates (Some 0) (Some (originalDuration clip)).

(** The operations that change a clip's trim window. *)
Inductive TrimOp : Type :=
| Drag (edge : Edge) (trackRef : option Rect) (clientX : Q)
| TrimEndButton (trimFrames : Q)
| Reset
| TrimAll.

Definition applyOp (c : Clip) (op : TrimOp) : Clip :=
  match op with
  | Drag edge trackRef clientX => trimDrag edge trackRef clientX c
  | TrimEndButton trimFrames => trimEnd trimFrames c
  | Reset => spread c (handleReset c)
  | TrimAll => App.batchTrimClip c
  end.

Definition applyOps (ops : list TrimOp) (c : Clip) : Clip :=
  fold_left applyOp ops c.

(** The hover and the click on a clip's track: the global time handed to
    [onHoverPreview] and [onSeekGlobalTime]. *)
Definition trackGlobalTime (trackRef : option Rect) (clip : Clip)
    (sequenceStart : Q) (clientX : Q) : Q :=
  let localTime := getTimeFromClientX trackRef (originalDuration clip) clientX in
  toGlobalTimeFromLocal clip sequenceStart localTime.

End TrimSession.

(** ** Positions drawn on the tracks ([ClipItem.tsx], [Player.tsx]) *)

Module Markers.
Import Num Types.

(** The places of the two trim handles and of the playhead on a clip's
    track, in percent of the track's width; [currentPlaybackTime] is
    [undefined] for a clip that is not selected. *)
Definition startPct (clip : Clip) : Q :=
  if gtb (originalDuration clip) 0
  then (start clip / originalDuration clip) * 100 else 0.

Definition endPct (clip : Clip) : Q :=
  if gtb (originalDuration clip) 0
  then (end_ clip / originalDuration clip) * 100 else 0.

Definition playheadPosition (currentPlaybackTime : option Q) (clip : Clip) : Q :=
  match currentPlaybackTime with
  | Some t =>
      if gtb (originalDuration clip) 0
      then (t / originalDuration clip) * 100 else 0
  | None => 0
  end.

(** The width of the progress bar and the place of its knob on the
    player's timeline, in percent. *)
Definition progressPct (globalTimeDisplay totalDuration : Q) : Q :=
  (globalTimeDisplay / Math_max totalDuration (1 # 1000)) * 100.

(** The pointer stands at [pct] percent of the width of [rect]. *)
Definition pointer_at (rect : ClipItem.Rect) (clientX pct : Q) : Prop :=
  (clientX - ClipItem.left rect) / ClipItem.width rect * 100 == pct.

End Markers.

(** ** The log buffer of the exporter (the application component) *)

Module ExportLog.

(** The [log] listener: [buf.push(message)], then
    [buf.splice(0, buf.length - 200)] once the buffer holds more than 200
    messages. *)
Definition onLog (message : string) (buf : list string) : list string :=
  let buf := buf ++ [message] in
  if (200 <? List.length buf)%nat
  then skipn (List.length buf - 200)%nat buf
  else buf.

(** [buf.slice(-30)], the lines shown when the export fails. *)
Definition tail30 (buf : list string) : list string :=
  skipn (List.length buf - 30)%nat buf.

Definition logAll (messages : list string) (buf : list string) : list string :=
  fold_left (fun b m => onLog m b) messages buf.

(** The last [n] elements of a list. *)
Definition lastN {A : Type} (n : nat) (l : list A) : list A :=
  skipn (List.length l - n)%nat l.

End ExportLog.

(** ** The resizable split view (the application component) *)

Module Panels.
Import Num.

Definition minSidebar : Q := 320.
Definition minRight : Q := 420.

(** [Math.max(minSidebar, rect.width - minRight)]. *)
Definition maxSidebar (containerWidth : Q) : Q :=
  Math_max minSidebar (containerWidth - minRight).

(** The [ResizeObserver] callback:
    [setSidebarWidth(prev => Math.min(prev, maxSidebar))]. *)
Definition clampOnResize (containerWidth : Q) (sidebarWidth : Q) : Q :=
  Math_min sidebarWidth (maxSidebar containerWidth).

(** The first switch to the portrait ratio: half of the container. *)
Definition initPortrait (containerWidth : Q) : Q :=
  let preferred := inject_Z (Math_round (containerWidth / 2)) in
  Math_min (maxSidebar containerWidth) (Math_max minSidebar preferred).

(** [onMove] of [handleResizePointerDown]; [startX] and [startWidth] are
    captured when the pointer goes down. *)
Definition onMove (containerWidth startWidth startX clientX : Q) : Q :=
  let next := startWidth + (clientX - startX) in
  Math_min (maxSidebar containerWidth) (Math_max minSidebar next).

Inductive PanelOp : Type :=
| Resized (containerWidth : Q)
| Portrait (containerWidth : Q)
| Dragged (containerWidth startX : Q) (moves : list Q).

Definition applyPanelOp (sidebarWidth : Q) (op : PanelOp) : Q :=
  match op with
  | Resized w => clampOnResize w sidebarWidth
  | Portrait w => initPortrait w
  | Dragged w startX moves =>
      fold_left (fun _ clientX => onMove w sidebarWidth startX clientX)
                moves sidebarWidth
  end.

Definition applyPanelOps (ops : list PanelOp) (sidebarWidth : Q) : Q :=
  fold_left applyPanelOp ops sidebarWidth.

(** [useState(420)]. *)
Definition initialSidebarWidth : Q := 420.

End Panels.

(** ** The time mapping on binary64 numbers ([Player.tsx]) *)

(** The sequence and the three places that map a global time to a clip
    and a local time, over the numbers the code computes with: IEEE 754
    binary64, with the kernel's primitive floats.  A decimal constant
    denotes the nearest binary64 number, as it does in the source. *)
Module Doubles.
Import PrimFloat.
#[local] Set Warnings "-inexact-float".

(** [Math.max(a, b)] and [Math.min(a, b)]: [NaN] when either argument
    is, and [-0] below [+0]. *)
Definition Math_max (a b : float) : float :=
  if is_nan a || is_nan b then nan
  else if ltb a b then b
  else if ltb b a then a
  else if get_sign a then b else a.

Definition Math_min (a b : float) : float :=
  if is_nan a || is_nan b then nan
  else if ltb a b then a
  else if ltb b a then b
  else if get_sign a then a else b.

(** [a >= b] and [a > b]; comparisons with [NaN] are false. *)
Definition geb (a b : float) : bool := leb b a.
Definition gtb (a b : float) : bool := ltb b a.

(** [interface Clip], without the [file] handle. *)
Record Clip : Type := mkClip {
  id : string;
  url : string;
  name : string;
  originalDuration : float;
  start : float;
  end_ : float;
  fps : float;
  isSelected : bool
}.

Record SequenceEntry : Type := mkEntry {
  clip : Clip;
  sequenceStart : float;
  sequenceDuration : float;
  sequenceEnd : float
}.

(** [clips.map(clip => ...)] with the captured [accumulatedTime]. *)
Fixpoint map_from (accumulatedTime : float) (clips : list Clip)
  : list SequenceEntry :=
  match clips with
  | [] => []
  | clip :: rest =>
      let duration := sub (end_ clip) (start clip) in
      let start := accumulatedTime in
      let accumulatedTime := add accumulatedTime duration in
      mkEntry clip start duration (add start duration)
        :: map_from accumulatedTime rest
  end.

Definition sequence (clips : list Clip) : list SequenceEntry :=
  map_from zero clips.

Definition lastEntry (sequence : list SequenceEntry) : option SequenceEntry :=
  nth_error sequence (List.length sequence - 1)%nat.

Definition totalDuration (sequence : list SequenceEntry) : float :=
  match lastEntry sequence with
  | Some e => sequenceEnd e
  | None => zero
  end.

(** [sequence.find(c => t >= c.sequenceStart && t < c.sequenceEnd)
     || sequence[sequence.length - 1]]. *)
Definition targetClip (sequence : list SequenceEntry) (t : float)
  : option SequenceEntry :=
  match find (fun c => geb t (sequenceStart c) && ltb t (sequenceEnd c))
             sequence with
  | Some c => Some c
  | None => lastEntry sequence
  end.

(** The commit seek, [seekToGlobalTime]: the clip it makes the target and
    the [localSeekTime] it assigns to [currentTime], at once or in the
    deferred seek.  The local time is not clamped. *)
Definition seekToGlobalTime (clips : list Clip) (time : float)
  : option (string * float) :=
  let sequence := sequence clips in
  let seekTime := Math_max zero (Math_min time (totalDuration sequence)) in
  match targetClip sequence seekTime with
  | Some targetClip =>
      let localSeekTime :=
        add (start (clip targetClip))
            (sub seekTime (sequenceStart targetClip)) in
      Some (id (clip targetClip), localSeekTime)
  | None => None
  end.

(** The local time of the thumbnail worker and of the hover preview:
    [Math.max(targetClip.start,
              Math.min(unclampedLocalTime, targetClip.end))]. *)
Definition localTime (targetClip : SequenceEntry) (pendingTime : float)
  : float :=
  let unclampedLocalTime :=
    add (start (clip targetClip))
        (sub pendingTime (sequenceStart targetClip)) in
  Math_max (start (clip targetClip))
           (Math_min unclampedLocalTime (end_ (clip targetClip))).

(** The worker's mapping: the source and the local time it seeks the
    hidden video to. *)
Definition workerTarget (clips : list Clip) (requestedTime : float)
  : option (string * float) :=
  let seq := sequence clips in
  let clippedTime :=
    Math_max zero (Math_min requestedTime (totalDuration seq)) in
  if Nat.eqb (List.length seq) 0 then None
  else
    match targetClip seq clippedTime with
    | None => None
    | Some targetClip =>
        Some (url (clip targetClip), localTime targetClip clippedTime)
    end.

(** The hover preview's mapping, [previewAtGlobalTime] and its frame
    callback: the source and the local time it seeks the surface to. *)
Definition previewTarget (clips : list Clip) (time : float)
  : option (string * float) :=
  let sequence := sequence clips in
  let seekTime := Math_max zero (Math_min time (totalDuration sequence)) in
  let pendingTime := seekTime in
  match targetClip sequence pendingTime with
  | None => None
  | Some targetClip =>
      Some (url (clip targetClip), localTime targetClip pendingTime)
  end.

(** Two untrimmed clips, a tenth and a fifth of a second long; a request
    beyond their total; and the number just above a fifth. *)
Definition clipA : Clip := mkClip "a" "blob:a" "a" 0.1 0 0.1 60 false.
Definition clipB : Clip := mkClip "b" "blob:b" "b" 0.2 0 0.2 60 false.
Definition twoClips : list Clip := [clipA; clipB].
Definition beyond : float := 1.
Definition aboveFifth : float := 0.20000000000000004.
Definition aboveThreeTenths : float := 0.30000000000000004.

(** The reference scenario: three untrimmed clips of 10, 5 and 8
    seconds, and the two times the scenario asks for. *)
Definition untrimmed (i : string) (duration : float) : Clip :=
  mkClip i (String.append "blob:" i) i duration 0 duration 60 false.

Definition threeClips : list Clip :=
  [untrimmed "c1" 10; untrimmed "c2" 5; untrimmed "c3" 8].

Definition two : float := 2.
Definition eight : float := 8.
Definition twelve : float := 12.
Definition twentyThree : float := 23.

End Doubles.

(** ** The commit seek on requests that need not be finite *)

(** [seekToGlobalTime] and its deferred seek once more, for a requested
    time that may be an infinity or [NaN].  The clips' own numbers stay
    finite.  Assigning a number that is not finite to [currentTime]
    raises a [TypeError]; nothing in the commit seek catches it. *)
Module Checked.
Import Num Types Sequence.

Inductive JsNumber : Type :=
| Finite (q : Q)
| PosInfinity
| NegInfinity
| NaN.

(** [Math.min(a, b)] and [Math.max(a, b)] with one finite argument. *)
Definition Math_min (a : JsNumber) (b : Q) : JsNumber :=
  match a with
  | Finite q => Finite (Num.Math_min q b)
  | PosInfinity => Finite b
  | NegInfinity => NegInfinity
  | NaN => NaN
  end.

Definition Math_max (a : Q) (b : JsNumber) : JsNumber :=
  match b with
  | Finite q => Finite (Num.Math_max a q)
  | PosInfinity => PosInfinity
  | NegInfinity => Finite a
  | NaN => NaN
  end.

(** [a >= b] and [a < b] with a finite [b]; false on [NaN]. *)
Definition geb (a : JsNumber) (b : Q) : bool :=
  match a with
  | Finite q => Num.geb q b
  | PosInfinity => true
  | NegInfinity => false
  | NaN => false
  end.

Definition ltb (a : JsNumber) (b : Q) : bool :=
  match a with
  | Finite q => Num.ltb q b
  | PosInfinity => false
  | NegInfinity => true
  | NaN => false
  end.

(** [Math.max(0, Math.min(time, totalDurationRef.current))]. *)
Definition seekTime (sequence : list SequenceEntry) (time : JsNumber)
  : JsNumber :=
  Math_max 0 (Math_min time (totalDuration sequence)).

Definition targetClip (sequence : list SequenceEntry) (t : JsNumber)
  : option SequenceEntry :=
  match find (fun c => geb t (sequenceStart c) && ltb t (sequenceEnd c))
             sequence with
  | Some c => Some c
  | None => lastEntry sequence
  end.

(** [targetClip.start + (seekTime - targetClip.sequenceStart)]. *)
Definition localSeekTime (targetClip : SequenceEntry) (seekTime : JsNumber)
  : JsNumber :=
  match seekTime with
  | Finite q => Finite (Sequence.localSeekTime targetClip q)
  | PosInfinity => PosInfinity
  | NegInfinity => NegInfinity
  | NaN => NaN
  end.

(** The player's state with the two places a number that is not finite
    can reach: the shown position and the deferred seeks.  The element's
    [currentTime] and the reported time are written only after a
    successful assignment, so they stay finite. *)
Record State : Type := mkState {
  clips : list Clip;
  activeClipId : option string;
  videoRef : option Player.Video;
  isPlaying : bool;
  isScrubbing : bool;
  globalTimeDisplay : JsNumber;
  isPreviewingRef : bool;
  previewRestoreRef : option Player.Restore;
  previewRafRef : bool;
  previewPendingTimeRef : option Q;
  timeouts : list JsNumber;
  reportedTime : Q
}.

(** A state of the player proper, all of whose numbers are finite. *)
Definition of_player (s : Player.State) : State :=
  mkState (Player.clips s) (Player.activeClipId s) (Player.videoRef s)
    (Player.isPlaying s) (Player.isScrubbing s)
    (Finite (Player.globalTimeDisplay s)) (Player.isPreviewingRef s)
    (Player.previewRestoreRef s) (Player.previewRafRef s)
    (Player.previewPendingTimeRef s) (map Finite (Player.timeouts s))
    (Player.reportedTime s).

Definition setGlobalTimeDisplay (x : JsNumber) (s : State) : State :=
  mkState (clips s) (activeClipId s) (videoRef s) (isPlaying s)
    (isScrubbing s) x (isPreviewingRef s) (previewRestoreRef s)
    (previewRafRef s) (previewPendingTimeRef s) (timeouts s) (reportedTime s).

Definition onActiveClipChange (i : string) (s : State) : State :=
  mkState (clips s) (Some i) (videoRef s) (isPlaying s)
    (isScrubbing s) (globalTimeDisplay s) (isPreviewingRef s)
    (previewRestoreRef s) (previewRafRef s) (previewPendingTimeRef s)
    (timeouts s) (reportedTime s).

Definition with_timeouts (x : list JsNumber) (s : State) : State :=
  mkState (clips s) (activeClipId s) (videoRef s) (isPlaying s)
    (isScrubbing s) (globalTimeDisplay s) (isPreviewingRef s)
    (previewRestoreRef s) (previewRafRef s) (previewPendingTimeRef s) x
    (reportedTime s).

Definition with_videoRef (x : option Player.Video) (s : State) : State :=
  mkState (clips s) (activeClipId s) x (isPlaying s)
    (isScrubbing s) (globalTimeDisplay s) (isPreviewingRef s)
    (previewRestoreRef s) (previewRafRef s) (previewPendingTimeRef s)
    (timeouts s) (reportedTime s).

Definition onTimeUpdate (x : Q) (s : State) : State :=
  mkState (clips s) (activeClipId s) (videoRef s) (isPlaying s)
    (isScrubbing s) (globalTimeDisplay s) (isPreviewingRef s)
    (previewRestoreRef s) (previewRafRef s) (previewPendingTimeRef s)
    (timeouts s) x.

Definition sequenceOf (s : State) : list SequenceEntry := sequence (clips s).

(** How a call ends: it returns, or a [TypeError] leaves it, in the
    state reached by then. *)
Inductive Outcome : Type :=
| Returned (s : State)
| Raised (s : State).

(** [if (videoRef.current) { videoRef.current.currentTime = t;
    onTimeUpdate(t); }]. *)
Definition seekVideo (localSeekTime : JsNumber) (s : State) : Outcome :=
  match videoRef s with
  | Some vid =>
      match localSeekTime with
      | Finite t =>
          Returned
            (onTimeUpdate t
               (with_videoRef (Some (Player.set_currentTime t vid)) s))
      | _ => Raised s
      end
  | None => Returned s
  end.

Definition seekToGlobalTime (time : JsNumber) (s : State) : Outcome :=
  let seekTime := seekTime (sequenceOf s) time in
  let s1 := setGlobalTimeDisplay seekTime s in
  match targetClip (sequenceOf s) seekTime with
  | Some targetClip =>
      let localSeekTime := localSeekTime targetClip seekTime in
      if negb (id_is (activeClipId s) targetClip)
      then
        let s2 := onActiveClipChange (id (clip targetClip)) s1 in
        Returned (with_timeouts (timeouts s2 ++ [localSeekTime]) s2)
      else seekVideo localSeekTime s1
  | None => Returned s1
  end.

(** The oldest deferred seek runs. *)
Definition runTimeout (s : State) : Outcome :=
  match timeouts s with
  | [] => Returned s
  | localSeekTime :: rest => seekVideo localSeekTime (with_timeouts rest s)
  end.

(** The rational a request amounts to once it is clamped: itself, or
    the total duration for plus infinity and 0 for minus infinity. *)
Definition request (sequence : list SequenceEntry) (time : JsNumber) : Q :=
  match time with
  | Finite q => q
  | PosInfinity => totalDuration sequence
  | NegInfinity => 0
  | NaN => 0
  end.

(** A player left without clips while it showed position 7. *)
Definition leftAtSeven : Player.State :=
  Player.mkState [] None None false false 7 false None false None [] 0.

End Checked.

(* ================================================================== *)
(** * Part II: properties *)
(* ================================================================== *)

(** ** Arithmetic of [Math.max], [Math.min] and the comparisons *)

Section NumFacts.
Import Num.

Lemma Math_max_cases (a b : Q) :
  (a <= b /\ Math_max a b = b) \/ (b < a /\ Math_max a b = a).
Proof.
  unfold Math_max. destruct (Qle_bool a b) eqn:E.
  - left. split; [now apply Qle_bool_iff | reflexivity].
  - right. split; [| reflexivity].
    apply Qnot_le_lt. intro H. apply Qle_bool_iff in H. congruence.
Qed.

Lemma Math_min_cases (a b : Q) :
  (a <= b /\ Math_min a b = a) \/ (b < a /\ Math_min a b = b).
Proof.
  unfold Math_min. destruct (Qle_bool a b) eqn:E.
  - left. split; [now apply Qle_bool_iff | reflexivity].
  - right. split; [| reflexivity].
    apply Qnot_le_lt. intro H. apply Qle_bool_iff in H. congruence.
Qed.

Lemma geb_true (a b : Q) : geb a b = true <-> b <= a.
Proof. unfold geb. apply Qle_bool_iff. Qed.

Lemma leb_true (a b : Q) : leb a b = true <-> a <= b.
Proof. unfold leb. apply Qle_bool_iff. Qed.

Lemma ltb_true (a b : Q) : ltb a b = true <-> a < b.
Proof.
  unfold ltb. rewrite negb_true_iff. split; intro H.
  - apply Qnot_le_lt. intro L. apply Qle_bool_iff in L. congruence.
  - destruct (Qle_bool b a) eqn:E; [| reflexivity].
    apply Qle_bool_iff in E. lra.
Qed.

Lemma gtb_true (a b : Q) : gtb a b = true <-> b < a.
Proof. unfold gtb. apply (ltb_true b a). Qed.

Lemma ltb_false (a b : Q) : ltb a b = false <-> b <= a.
Proof.
  unfold ltb. rewrite negb_false_iff. apply Qle_bool_iff.
Qed.

Lemma geb_false (a b : Q) : geb a b = false <-> a < b.
Proof.
  unfold geb. split; intro H.
  - apply Qnot_le_lt. intro L. apply Qle_bool_iff in L. congruence.
  - destruct (Qle_bool b a) eqn:E; [| reflexivity].
    apply Qle_bool_iff in E. lra.
Qed.

Lemma leb_false (a b : Q) : leb a b = false <-> b < a.
Proof. unfold leb. apply (geb_false b a). Qed.

Lemma gtb_false (a b : Q) : gtb a b = false <-> a <= b.
Proof. unfold gtb. apply (ltb_false b a). Qed.

End NumFacts.

(** Case analysis on every [Math.max] and [Math.min] of the goal, then
    linear arithmetic. *)
Ltac minmax_case lem a b :=
  let H := fresh "Hcase" in
  let E := fresh "Ecase" in
  destruct (lem a b) as [[H E] | [H E]]; rewrite E in *; clear E.

Ltac minmax :=
  unfold Num.clamp in *;
  repeat match goal with
  | |- context [Num.Math_max ?a ?b] => minmax_case Math_max_cases a b
  | |- context [Num.Math_min ?a ?b] => minmax_case Math_min_cases a b
  | _ : context [Num.Math_max ?a ?b] |- _ => minmax_case Math_max_cases a b
  | _ : context [Num.Math_min ?a ?b] |- _ => minmax_case Math_min_cases a b
  end;
  try lra; try (exfalso; lra).

(** ** The sequence is contiguous and anchored at zero *)

Section SequenceFacts.
Import Num Types Sequence.

Lemma map_from_length (clips : list Clip) : forall acc,
  List.length (map_from acc clips) = List.length clips.
Proof.
  induction clips as [| c rest IH]; intro acc; simpl; [reflexivity |].
  now rewrite IH.
Qed.

Lemma map_from_head (clips : list Clip) (acc : Q) (e : SequenceEntry) :
  nth_error (map_from acc clips) 0 = Some e -> sequenceStart e = acc.
Proof.
  destruct clips as [| c rest]; simpl; intro H; [discriminate |].
  now inversion H.
Qed.

Lemma map_from_clip (clips : list Clip) : forall acc i e,
  nth_error (map_from acc clips) i = Some e ->
  nth_error clips i = Some (clip e)
  /\ sequenceDuration e = end_ (clip e) - start (clip e)
  /\ sequenceEnd e = sequenceStart e + sequenceDuration e.
Proof.
  induction clips as [| c rest IH]; intros acc i e H.
  - destruct i; discriminate.
  - destruct i as [| i]; simpl in H.
    + inversion H; subst; simpl. repeat split; reflexivity.
    + simpl. eapply IH; eassumption.
Qed.

Lemma map_from_next (clips : list Clip) : forall acc i e e',
  nth_error (map_from acc clips) i = Some e ->
  nth_error (map_from acc clips) (S i) = Some e' ->
  sequenceStart e' = sequenceEnd e.
Proof.
  induction clips as [| c rest IH]; intros acc i e e' H H'.
  - destruct i; discriminate.
  - destruct i as [| i]; simpl in H, H'.
    + inversion H; subst; simpl.
      now apply map_from_head in H'.
    + eapply IH; eassumption.
Qed.

Lemma lastEntry_nil : lastEntry [] = None.
Proof. reflexivity. Qed.

Lemma lastEntry_cons (e : SequenceEntry) (l : list SequenceEntry) :
  lastEntry (e :: l) = match l with [] => Some e | _ => lastEntry l end.
Proof.
  unfold lastEntry. simpl. rewrite Nat.sub_0_r.
  destruct l as [| e' l']; [reflexivity |].
  simpl. now rewrite Nat.sub_0_r.
Qed.

Lemma lastEntry_some (l : list SequenceEntry) :
  l <> [] -> exists e, lastEntry l = Some e /\ In e l.
Proof.
  induction l as [| e l IH]; intro H; [congruence |].
  rewrite lastEntry_cons. destruct l as [| e' l'].
  - exists e. split; [reflexivity | now left].
  - destruct IH as [x [Hx Hin]]; [discriminate |].
    exists x. split; [assumption | now right].
Qed.

Lemma totalDuration_map_from (clips : list Clip) : forall acc,
  clips <> [] ->
  totalDuration (map_from acc clips) == acc + sum_durations clips.
Proof.
  induction clips as [| c rest IH]; intros acc H; [congruence |].
  unfold totalDuration. simpl map_from. rewrite lastEntry_cons.
  destruct rest as [| c' rest'].
  - simpl. lra.
  - specialize (IH (acc + (end_ c - start c)) ltac:(discriminate)).
    unfold totalDuration in IH.
    change (map_from (acc + (end_ c - start c)) (c' :: rest'))
      with (mkEntry c' (acc + (end_ c - start c)) (end_ c' - start c')
              (acc + (end_ c - start c) + (end_ c' - start c'))
            :: map_from (acc + (end_ c - start c) + (end_ c' - start c')) rest')
      in *.
    rewrite IH. simpl. lra.
Qed.

End SequenceFacts.

(** C2.  For every clip list the derived sequence has one entry per clip,
    in order; the first entry starts at 0; the length of every entry on the
    global timeline is its clip's trimmed length; every entry starts where
    its predecessor ends; and the total duration is the last entry's
    [sequenceEnd], which is the sum of the trimmed lengths, and 0 for the
    empty list. *)
Theorem sequence_contiguous (clips : list Types.Clip) :
  let seq := Sequence.sequence clips in
  List.length seq = List.length clips
  /\ (forall e, nth_error seq 0 = Some e -> Sequence.sequenceStart e = 0)
  /\ (forall i e, nth_error seq i = Some e ->
        nth_error clips i = Some (Sequence.clip e)
        /\ Sequence.sequenceEnd e - Sequence.sequenceStart e
           == Types.end_ (Sequence.clip e) - Types.start (Sequence.clip e))
  /\ (forall i e e', nth_error seq i = Some e -> nth_error seq (S i) = Some e' ->
        Sequence.sequenceStart e' = Sequence.sequenceEnd e)
  /\ (forall e, nth_error seq (List.length clips - 1) = Some e ->
        Sequence.totalDuration seq = Sequence.sequenceEnd e)
  /\ Sequence.totalDuration seq == Sequence.sum_durations clips
  /\ (clips = [] -> Sequence.totalDuration seq = 0).
Proof.
  intro seq. subst seq. unfold Sequence.sequence.
  split; [apply map_from_length |].
  split; [intros e H; now apply map_from_head in H |].
  split.
  { intros i e H. destruct (map_from_clip _ _ _ _ H) as [Hc [Hd He]].
    split; [assumption |]. rewrite He, Hd. lra. }
  split; [intros i e e' H H'; eapply map_from_next; eassumption |].
  split.
  { intros e H. unfold Sequence.totalDuration, Sequence.lastEntry.
    rewrite map_from_length. now rewrite H. }
  split.
  { destruct clips as [| c rest]; [reflexivity |].
    rewrite totalDuration_map_from by discriminate. lra. }
  intros ->. reflexivity.
Qed.

Lemma sequence_contiguous_witness :
  exists e1 e2 e3,
    Sequence.sequence Sequence.threeClips = [e1; e2; e3]
    /\ Sequence.sequenceStart e1 = 0
    /\ Sequence.sequenceStart e2 = Sequence.sequenceEnd e1
    /\ Sequence.sequenceStart e3 = Sequence.sequenceEnd e2
    /\ Sequence.totalDuration (Sequence.sequence Sequence.threeClips)
       = Sequence.sequenceEnd e3.
Proof.
  destruct (sequence_contiguous Sequence.threeClips)
    as [_ [H0 [_ [Hnext [Hlast _]]]]].
  eexists; eexists; eexists.
  split; [reflexivity |].
  split; [apply H0; reflexivity |].
  split; [apply (Hnext 0%nat); reflexivity |].
  split; [apply (Hnext 1%nat); reflexivity |].
  apply Hlast; reflexivity.
Defined.

(** ** Time mapping: from a global time to an entry and a local time *)

Section TimeMapping.
Import Num Types Sequence.

Lemma window_test (t : Q) (e : SequenceEntry) :
  geb t (sequenceStart e) && ltb t (sequenceEnd e) = true <-> in_window t e.
Proof.
  unfold in_window. rewrite andb_true_iff, geb_true, ltb_true. tauto.
Qed.

Lemma window_test_comp (t t' : Q) (e : SequenceEntry) :
  t == t' ->
  geb t (sequenceStart e) && ltb t (sequenceEnd e)
  = geb t' (sequenceStart e) && ltb t' (sequenceEnd e).
Proof.
  intro H. unfold geb, ltb. now rewrite H.
Qed.

Lemma find_window_comp (t t' : Q) (seq : list SequenceEntry) :
  t == t' ->
  find (fun c => geb t (sequenceStart c) && ltb t (sequenceEnd c)) seq
  = find (fun c => geb t' (sequenceStart c) && ltb t' (sequenceEnd c)) seq.
Proof.
  intro H. induction seq as [| e l IH]; simpl; [reflexivity |].
  rewrite (window_test_comp t t' e H), IH. reflexivity.
Qed.

Lemma targetClip_comp (t t' : Q) (seq : list SequenceEntry) :
  t == t' -> targetClip seq t = targetClip seq t'.
Proof.
  intro H. unfold targetClip. now rewrite (find_window_comp t t' seq H).
Qed.

(** Every entry of the sequence carries its clip's trimmed length. *)
Lemma entry_shape (clips : list Clip) (acc : Q) (e : SequenceEntry) :
  In e (map_from acc clips) ->
  sequenceEnd e == sequenceStart e + (end_ (clip e) - start (clip e)).
Proof.
  intro H. apply In_nth_error in H. destruct H as [i H].
  destruct (map_from_clip _ _ _ _ H) as [_ [Hd He]].
  rewrite He, Hd. reflexivity.
Qed.

(** A time at or after the sequence's origin that no window holds lies
    at or after every window's end. *)
Lemma no_window_beyond (clips : list Clip) : forall acc t,
  acc <= t ->
  find (fun c => geb t (sequenceStart c) && ltb t (sequenceEnd c))
       (map_from acc clips) = None ->
  forall e, In e (map_from acc clips) ->
    sequenceStart e <= t /\ sequenceEnd e <= t.
Proof.
  induction clips as [| c rest IH]; intros acc t Hacc Hfind e Hin.
  - destruct Hin.
  - simpl in Hfind.
    destruct (geb t acc && ltb t (acc + (end_ c - start c))) eqn:E;
      [discriminate |].
    assert (Hend : acc + (end_ c - start c) <= t).
    { apply andb_false_iff in E. destruct E as [E | E].
      - apply geb_false in E. lra.
      - now apply ltb_false in E. }
    destruct Hin as [<- | Hin]; simpl.
    + split; assumption.
    + eapply IH; eassumption.
Qed.

Lemma totalDuration_in (seq : list SequenceEntry) :
  seq <> [] -> exists e, lastEntry seq = Some e /\ In e seq
                         /\ totalDuration seq = sequenceEnd e.
Proof.
  intro H. destruct (lastEntry_some seq H) as [e [He Hin]].
  exists e. unfold totalDuration. rewrite He. auto.
Qed.

Lemma sequence_nonempty (clips : list Clip) :
  clips <> [] -> sequence clips <> [].
Proof.
  destruct clips; [congruence | discriminate].
Qed.

Lemma seekTime_bounds (seq : list SequenceEntry) (time : Q) :
  0 <= totalDuration seq ->
  0 <= seekTime seq time <= totalDuration seq
  /\ (0 <= time <= totalDuration seq -> seekTime seq time = time)
  /\ (time < 0 -> seekTime seq time == 0)
  /\ (totalDuration seq < time -> seekTime seq time == totalDuration seq).
Proof.
  intro Htot. unfold seekTime.
  split; [| split; [| split]]; try intro H; minmax; reflexivity.
Qed.

(** Durations that are not negative keep the total at or above zero. *)
Lemma sum_durations_nonneg (clips : list Clip) :
  Forall (fun c => start c <= end_ c) clips -> 0 <= sum_durations clips.
Proof.
  induction 1 as [| c rest Hc _ IH]; simpl; lra.
Qed.

Lemma totalDuration_nonneg (clips : list Clip) :
  Forall (fun c => start c <= end_ c) clips ->
  0 <= totalDuration (sequence clips).
Proof.
  intro H. destruct clips as [| c rest]; [unfold totalDuration; simpl; lra |].
  unfold sequence. rewrite totalDuration_map_from by discriminate.
  apply sum_durations_nonneg in H. lra.
Qed.

(** The heart of the mapping: the selected entry, and a local time that
    lies inside the trim window whether or not the code clamps it. *)
Lemma targetClip_resolves (clips : list Clip) (t : Q) :
  clips <> [] ->
  0 <= t <= totalDuration (sequence clips) ->
  exists e,
    targetClip (sequence clips) t = Some e
    /\ In e (sequence clips)
    /\ ((in_window t e
         /\ find (fun c => geb t (sequenceStart c) && ltb t (sequenceEnd c))
                 (sequence clips) = Some e)
        \/ ((forall e', In e' (sequence clips) -> ~ in_window t e')
            /\ lastEntry (sequence clips) = Some e
            /\ t == totalDuration (sequence clips)))
    /\ start (clip e) <= localSeekTime e t <= end_ (clip e)
    /\ localTime e t == localSeekTime e t.
Proof.
  intros Hne [H0 Ht]. unfold targetClip.
  destruct (find _ (sequence clips)) as [e |] eqn:Hfind.
  - destruct (find_some _ _ Hfind) as [Hin Hw]. apply window_test in Hw.
    exists e. split; [reflexivity |]. split; [assumption |].
    split; [left; split; [assumption | reflexivity] |].
    pose proof (entry_shape _ _ _ Hin) as Hs.
    destruct Hw as [Hw1 Hw2].
    assert (Hb : start (clip e) <= localSeekTime e t <= end_ (clip e))
      by (unfold localSeekTime; lra).
    split; [assumption |].
    unfold localTime. fold (localSeekTime e t). minmax.
  - destruct (totalDuration_in (sequence clips)) as [e [Hlast [Hin Htot]]];
      [now apply sequence_nonempty |].
    exists e. split; [assumption |]. split; [assumption |].
    pose proof (no_window_beyond clips 0 t H0 Hfind) as Hb.
    destruct (Hb e Hin) as [Hs He].
    assert (Heq : t == totalDuration (sequence clips)) by (rewrite Htot in *; lra).
    split.
    { right. split; [| split; assumption].
      intros e' Hin' [_ Hw]. destruct (Hb e' Hin'). lra. }
    pose proof (entry_shape _ _ _ Hin) as Hsh.
    rewrite Htot in Heq.
    assert (Hloc : start (clip e) <= localSeekTime e t <= end_ (clip e))
      by (unfold localSeekTime; lra).
    split; [assumption |].
    unfold localTime. fold (localSeekTime e t). minmax.
Qed.

End TimeMapping.

(** ** The commit seek *)

Section CommitSeek.
Import Num Types Sequence Player.

Lemma id_is_true (a : option string) (e : SequenceEntry) :
  id_is a e = true -> a = Some (id (clip e)).
Proof.
  unfold id_is. destruct a as [i |]; [| discriminate].
  intro H. apply String.eqb_eq in H. now subst.
Qed.

(** What [seekToGlobalTime] leaves behind once its target is known. *)
Lemma seekToGlobalTime_effect (s : State) (time : Q) (e : SequenceEntry) :
  targetClip (sequenceOf s) (seekTime (sequenceOf s) time) = Some e ->
  let s' := seekToGlobalTime time s in
  globalTimeDisplay s' = seekTime (sequenceOf s) time
  /\ activeClipId s' = Some (id (clip e))
  /\ clips s' = clips s
  /\ (forall vid, videoRef s = Some vid -> timeouts s = [] ->
      exists vid', videoRef (runTimeout s') = Some vid'
        /\ currentTime vid' = localSeekTime e (seekTime (sequenceOf s) time)
        /\ src vid' = src vid).
Proof.
  intros He s'. subst s'. unfold seekToGlobalTime.
  change (sequenceOf (setGlobalTimeDisplay _ s)) with (sequenceOf s).
  rewrite He.
  destruct (id_is (activeClipId s) e) eqn:Hid; simpl negb; cbv iota.
  - apply id_is_true in Hid.
    unfold seekVideo. simpl videoRef.
    destruct (videoRef s) as [vid |] eqn:Hv; simpl;
      (split; [reflexivity |]; split; [assumption |];
       split; [reflexivity |]).
    + intros vid0 Hvid Ht. inversion Hvid; subst vid0.
      unfold runTimeout; simpl. rewrite Ht.
      eexists; split; [reflexivity | split; reflexivity].
    + intros vid0 Hvid. discriminate.
  - simpl. split; [reflexivity |]. split; [reflexivity |].
    split; [reflexivity |].
    intros vid Hvid Ht. unfold runTimeout; simpl. rewrite Ht. simpl.
    unfold seekVideo; simpl. rewrite Hvid.
    eexists; split; [reflexivity | split; reflexivity].
Qed.

End CommitSeek.

(** The commit seek in exact arithmetic.  For a non-empty clip list whose
    total duration is not negative and any requested time: the commit
    seek clamps the request to [0, totalDuration]; it selects the first
    entry whose half-open window holds the clamped time, and the last
    entry when no window does, which happens only at the total duration;
    the state machine shows the clamped time, makes the selected clip
    active and moves the surface to the local time
    [start + (t - sequenceStart)].  The commit seek does not clamp that
    local time.  Over exact rationals it has the value the worker's
    explicit clamp gives; over the binary64 numbers of the code it has
    not, as the evaluation on [Doubles] below shows. *)
Theorem commit_seek_resolves (s : Player.State) (time : Q) :
  Player.clips s <> [] ->
  0 <= Sequence.totalDuration (Player.sequenceOf s) ->
  let seq := Player.sequenceOf s in
  let t := Sequence.seekTime seq time in
  (0 <= t <= Sequence.totalDuration seq
   /\ (0 <= time <= Sequence.totalDuration seq -> t = time))
  /\ (exists e,
        Sequence.targetClip seq t = Some e
        /\ In e seq
        /\ ((Sequence.in_window t e
             /\ find (fun c => Num.geb t (Sequence.sequenceStart c)
                               && Num.ltb t (Sequence.sequenceEnd c)) seq
                = Some e)
            \/ ((forall e', In e' seq -> ~ Sequence.in_window t e')
                /\ Sequence.lastEntry seq = Some e
                /\ t == Sequence.totalDuration seq))
        /\ Sequence.localSeekTime e t
           == Num.Math_max (Types.start (Sequence.clip e))
                (Num.Math_min
                   (Types.start (Sequence.clip e)
                    + (t - Sequence.sequenceStart e))
                   (Types.end_ (Sequence.clip e)))
        /\ TimelinePreview.workerTarget seq time
           = Some (Types.url (Sequence.clip e), Sequence.localTime e t)
        /\ Player.globalTimeDisplay (Player.seekToGlobalTime time s) = t
        /\ Player.activeClipId (Player.seekToGlobalTime time s)
           = Some (Types.id (Sequence.clip e))
        /\ (forall vid, Player.videoRef s = Some vid -> Player.timeouts s = [] ->
            exists vid',
              Player.videoRef (Player.runTimeout (Player.seekToGlobalTime time s))
              = Some vid'
              /\ Player.currentTime vid' = Sequence.localSeekTime e t))
  /\ (exists e1 e2 e3,
        Sequence.sequence Sequence.threeClips = [e1; e2; e3]
        /\ Sequence.clip e2 = Sequence.clip2
        /\ Sequence.clip e3 = Sequence.clip3
        /\ Sequence.targetClip (Sequence.sequence Sequence.threeClips)
             (Sequence.seekTime (Sequence.sequence Sequence.threeClips) 12)
           = Some e2
        /\ Sequence.localSeekTime e2
             (Sequence.seekTime (Sequence.sequence Sequence.threeClips) 12)
           == 2
        /\ Sequence.targetClip (Sequence.sequence Sequence.threeClips)
             (Sequence.seekTime (Sequence.sequence Sequence.threeClips) 23)
           = Some e3
        /\ Sequence.localSeekTime e3
             (Sequence.seekTime (Sequence.sequence Sequence.threeClips) 23)
           == Types.end_ Sequence.clip3).
Proof.
  intros Hne Htot seq t.
  destruct (seekTime_bounds seq time Htot) as [Hb [Hid _]].
  split; [split; assumption |].
  split.
  - destruct (targetClip_resolves (Player.clips s) t Hne Hb)
      as [e [He [Hin [Hsel [Hloc Hclamp]]]]].
    exists e.
    destruct (seekToGlobalTime_effect s time e He) as [Hg [Ha [_ Hv]]].
    split; [exact He |]. split; [exact Hin |]. split; [exact Hsel |].
    split.
    { rewrite <- Hclamp. reflexivity. }
    split.
    { unfold TimelinePreview.workerTarget. cbv zeta.
      change (Num.Math_max 0 (Num.Math_min time (Sequence.totalDuration seq)))
        with t.
      assert (Hlen : Nat.eqb (List.length seq) 0 = false).
      { apply Nat.eqb_neq. subst seq. unfold Player.sequenceOf, Sequence.sequence.
        rewrite map_from_length. destruct (Player.clips s); [congruence | discriminate]. }
      rewrite Hlen. change (Sequence.targetClip seq t = Some e) in He.
      rewrite He. reflexivity. }
    split; [exact Hg |]. split; [exact Ha |].
    intros vid Hvid Ht. destruct (Hv vid Hvid Ht) as [vid' [H1 [H2 _]]].
    exists vid'. split; assumption.
  - eexists; eexists; eexists.
    split; [reflexivity |].
    split; [reflexivity |]. split; [reflexivity |].
    split; [reflexivity |]. split; [reflexivity |].
    split; reflexivity.
Qed.

Lemma commit_seek_resolves_witness :
  Player.clips Player.scenarioState <> []
  /\ 0 <= Sequence.totalDuration (Player.sequenceOf Player.scenarioState)
  /\ Player.globalTimeDisplay
       (Player.seekToGlobalTime 12 Player.scenarioState)
     = Sequence.seekTime (Player.sequenceOf Player.scenarioState) 12.
Proof.
  assert (H1 : Player.clips Player.scenarioState <> []) by discriminate.
  assert (H2 : 0 <= Sequence.totalDuration
                      (Player.sequenceOf Player.scenarioState))
    by (vm_compute; discriminate).
  split; [exact H1 |]. split; [exact H2 |].
  destruct (commit_seek_resolves Player.scenarioState 12 H1 H2)
    as [_ [[e [_ [_ [_ [_ [_ [Hg _]]]]]]] _]].
  exact Hg.
Defined.

(** C1.  On the binary64 numbers the code computes with, the commit seek
    misses the clamp of the local time that the claim states and that the
    thumbnail worker and the hover preview apply.  With two untrimmed
    clips of 0.1 and 0.2 seconds the sequence ends at
    0.30000000000000004; a commit seek at or beyond that total selects
    the last clip, as claimed, and assigns it the local time
    0.20000000000000004, above the clip's trimmed end 0.2.  The worker and
    the preview yield exactly the trimmed end for the same request.  In
    the scenario of three untrimmed clips of 10, 5 and 8 seconds the
    commit seek maps time 12 to the second clip at local time 2 and time
    23 to the third clip at its trimmed end 8, as claimed. *)
Theorem commit_seek_overshoots_trimmed_end :
  Doubles.totalDuration (Doubles.sequence Doubles.twoClips)
  = Doubles.aboveThreeTenths
  /\ Doubles.seekToGlobalTime Doubles.twoClips Doubles.beyond
     = Some ("b"%string, Doubles.aboveFifth)
  /\ Doubles.seekToGlobalTime Doubles.twoClips Doubles.aboveThreeTenths
     = Some ("b"%string, Doubles.aboveFifth)
  /\ Doubles.gtb Doubles.aboveFifth (Doubles.end_ Doubles.clipB) = true
  /\ Doubles.workerTarget Doubles.twoClips Doubles.beyond
     = Some ("blob:b"%string, Doubles.end_ Doubles.clipB)
  /\ Doubles.previewTarget Doubles.twoClips Doubles.beyond
     = Some ("blob:b"%string, Doubles.end_ Doubles.clipB)
  /\ Doubles.seekToGlobalTime Doubles.threeClips Doubles.twelve
     = Some ("c2"%string, Doubles.two)
  /\ Doubles.seekToGlobalTime Doubles.threeClips Doubles.twentyThree
     = Some ("c3"%string, Doubles.eight).
Proof.
  repeat split; vm_compute; reflexivity.
Qed.

(** ** Round trip between the global timeline and a clip's local time *)

Section RoundTrip.
Import Num Types Sequence.

(** The clip list shows every clip at the position the player derives. *)
Lemma listed_from_nth (sel : option string) (clips : list Clip) :
  forall acc i e,
    nth_error (map_from acc clips) i = Some e ->
    exists item,
      nth_error (App.listed_from sel acc clips) i = Some item
      /\ App.sequenceStart item = sequenceStart e
      /\ App.sequenceEnd item = sequenceEnd e
      /\ start (App.listed item) = start (clip e)
      /\ end_ (App.listed item) = end_ (clip e)
      /\ id (App.listed item) = id (clip e).
Proof.
  induction clips as [| c rest IH]; intros acc i e H.
  - destruct i; discriminate.
  - destruct i as [| i]; simpl in H.
    + inversion H; subst; simpl.
      eexists. split; [reflexivity |]. simpl. repeat split; reflexivity.
    + simpl. eapply IH; eassumption.
Qed.

Lemma entry_bounds (clips : list Clip) : forall acc e,
  Forall (fun c => start c <= end_ c) clips ->
  In e (map_from acc clips) ->
  acc <= sequenceStart e /\ sequenceStart e <= sequenceEnd e.
Proof.
  induction clips as [| c rest IH]; intros acc e Hpos Hin.
  - destruct Hin.
  - inversion Hpos as [| ? ? Hc Hrest]; subst.
    destruct Hin as [<- | Hin]; simpl.
    + lra.
    + destruct (IH _ _ Hrest Hin). lra.
Qed.

(** At the exact end of an entry the following entry is selected, at
    its trimmed start. *)
Lemma boundary_selects_next (clips : list Clip) : forall acc j ep en,
  Forall (fun c => start c < end_ c) clips ->
  nth_error (map_from acc clips) j = Some ep ->
  nth_error (map_from acc clips) (S j) = Some en ->
  find (fun c => geb (sequenceEnd ep) (sequenceStart c)
                 && ltb (sequenceEnd ep) (sequenceEnd c))
       (map_from acc clips) = Some en.
Proof.
  induction clips as [| c rest IH]; intros acc j ep en Hpos Hp Hn.
  - destruct j; discriminate.
  - inversion Hpos as [| ? ? Hc Hrest]; subst.
    assert (Hweak : Forall (fun c => start c <= end_ c) rest).
    { eapply Forall_impl; [| exact Hrest]. simpl. intros. lra. }
    destruct j as [| j]; simpl in Hp, Hn.
    + inversion Hp; subst ep; clear Hp. simpl.
      assert (E1 : ltb (acc + (end_ c - start c)) (acc + (end_ c - start c))
                   = false) by (apply ltb_false; lra).
      rewrite E1, andb_false_r.
      destruct rest as [| c' rest']; [discriminate |].
      simpl in Hn. inversion Hn; subst en; clear Hn. simpl.
      inversion Hrest as [| ? ? Hc' _]; subst.
      assert (E2 : geb (acc + (end_ c - start c)) (acc + (end_ c - start c))
                   = true) by (apply geb_true; lra).
      assert (E3 : ltb (acc + (end_ c - start c))
                       (acc + (end_ c - start c) + (end_ c' - start c'))
                   = true) by (apply ltb_true; lra).
      rewrite E2, E3. reflexivity.
    + simpl.
      assert (Hin : In ep (map_from (acc + (end_ c - start c)) rest))
        by (eapply nth_error_In; eassumption).
      destruct (entry_bounds _ _ _ Hweak Hin) as [B1 B2].
      assert (E1 : ltb (sequenceEnd ep) (acc + (end_ c - start c)) = false)
        by (apply ltb_false; lra).
      rewrite E1, andb_false_r.
      eapply IH; eassumption.
Qed.

End RoundTrip.

(** C3.  For every clip list and every global time [t] with
    [0 <= t < totalDuration], the commit seek maps [t] into the window of
    the entry it selects, and mapping the local time back with the clip
    item's [toGlobalTimeFromLocal] (whose position props come from the
    clip list's own copy of the sequence) returns [t]; the clamped local
    time of the preview paths goes back to [t] as well.  The rational
    model has no rounding, so the tolerance is zero.  At the exact end of
    an entry, when every clip has a positive trimmed length, the following
    entry is selected at its trimmed start, and the round trip returns
    that boundary. *)
Theorem time_mapping_round_trip (clips : list Types.Clip)
    (selectedClipId : option string) (t : Q) :
  0 <= t < Sequence.totalDuration (Sequence.sequence clips) ->
  (exists i e item,
     nth_error (Sequence.sequence clips) i = Some e
     /\ nth_error (App.clipsWithSelection selectedClipId clips) i = Some item
     /\ Types.id (App.listed item) = Types.id (Sequence.clip e)
     /\ Sequence.targetClip (Sequence.sequence clips)
          (Sequence.seekTime (Sequence.sequence clips) t) = Some e
     /\ Sequence.in_window t e
     /\ ClipItem.toGlobalTimeFromLocal (App.listed item) (App.sequenceStart item)
          (Sequence.localSeekTime e
             (Sequence.seekTime (Sequence.sequence clips) t)) == t
     /\ ClipItem.toGlobalTimeFromLocal (Sequence.clip e)
          (Sequence.sequenceStart e) (Sequence.localTime e t) == t)
  /\ (Forall (fun c => Types.start c < Types.end_ c) clips ->
      forall j ep en,
        nth_error (Sequence.sequence clips) j = Some ep ->
        nth_error (Sequence.sequence clips) (S j) = Some en ->
        Sequence.targetClip (Sequence.sequence clips) (Sequence.sequenceEnd ep)
        = Some en
        /\ Sequence.localSeekTime en (Sequence.sequenceEnd ep)
           == Types.start (Sequence.clip en)
        /\ ClipItem.toGlobalTimeFromLocal (Sequence.clip en)
             (Sequence.sequenceStart en)
             (Sequence.localSeekTime en (Sequence.sequenceEnd ep))
           == Sequence.sequenceEnd ep).
Proof.
  intros [H0 Ht]. split.
  - assert (Hne : clips <> []).
    { intros ->. unfold Sequence.totalDuration in Ht. simpl in Ht. lra. }
    assert (Htot : 0 <= Sequence.totalDuration (Sequence.sequence clips)) by lra.
    destruct (seekTime_bounds (Sequence.sequence clips) t Htot) as [_ [Hid _]].
    rewrite (Hid ltac:(lra)).
    destruct (targetClip_resolves clips t Hne ltac:(lra))
      as [e [He [Hin [Hsel [Hloc Hclamp]]]]].
    destruct Hsel as [[Hw _] | [_ [_ Heq]]]; [| lra].
    destruct (In_nth_error _ _ Hin) as [i Hi].
    destruct (listed_from_nth selectedClipId clips 0 i e Hi)
      as [item [Hitem [Hs [_ [Hst [Hen Hident]]]]]].
    exists i, e, item.
    split; [exact Hi |]. split; [exact Hitem |]. split; [exact Hident |].
    split; [exact He |]. split; [exact Hw |].
    pose proof (entry_shape _ _ _ Hin) as Hshape.
    destruct Hw as [Hw1 Hw2].
    unfold Sequence.localSeekTime in *.
    split.
    + unfold ClipItem.toGlobalTimeFromLocal. rewrite Hs, Hst, Hen. minmax.
    + unfold ClipItem.toGlobalTimeFromLocal, Sequence.localTime. minmax.
  - intros Hpos j ep en Hp Hn.
    pose proof (boundary_selects_next clips 0 j ep en Hpos Hp Hn) as Hfind.
    assert (Htc : Sequence.targetClip (Sequence.sequence clips)
                    (Sequence.sequenceEnd ep) = Some en).
    { unfold Sequence.targetClip, Sequence.sequence. now rewrite Hfind. }
    split; [exact Htc |].
    pose proof (map_from_next clips 0 j ep en Hp Hn) as Hnext.
    assert (Hin : In en (Sequence.sequence clips))
      by (eapply nth_error_In; eassumption).
    pose proof (entry_shape _ _ _ Hin) as Hshape.
    destruct (map_from_clip _ _ _ _ Hn) as [Hc _].
    assert (Hlt : Types.start (Sequence.clip en) < Types.end_ (Sequence.clip en)).
    { rewrite Forall_forall in Hpos. apply Hpos.
      eapply nth_error_In; eassumption. }
    unfold Sequence.localSeekTime, ClipItem.toGlobalTimeFromLocal.
    rewrite Hnext in *.
    split; [lra | minmax].
Qed.

Lemma time_mapping_round_trip_witness :
  0 <= 12 < Sequence.totalDuration (Sequence.sequence Sequence.threeClips)
  /\ exists i e item,
       nth_error (Sequence.sequence Sequence.threeClips) i = Some e
       /\ nth_error (App.clipsWithSelection None Sequence.threeClips) i = Some item
       /\ Types.id (App.listed item) = Types.id (Sequence.clip e)
       /\ Sequence.targetClip (Sequence.sequence Sequence.threeClips)
            (Sequence.seekTime (Sequence.sequence Sequence.threeClips) 12)
          = Some e
       /\ Sequence.in_window 12 e
       /\ ClipItem.toGlobalTimeFromLocal (App.listed item)
            (App.sequenceStart item)
            (Sequence.localSeekTime e
               (Sequence.seekTime (Sequence.sequence Sequence.threeClips) 12))
          == 12
       /\ ClipItem.toGlobalTimeFromLocal (Sequence.clip e)
            (Sequence.sequenceStart e) (Sequence.localTime e 12) == 12.
Proof.
  assert (H : 0 <= 12 < Sequence.totalDuration
                          (Sequence.sequence Sequence.threeClips))
    by (split; vm_compute; [discriminate | reflexivity]).
  split; [exact H |].
  exact (proj1 (time_mapping_round_trip Sequence.threeClips None 12 H)).
Defined.

(** ** The timecode formatter *)

Section Timecode.
Import Num Utils.
Local Open Scope string_scope.

Lemma Qfloor_unique (x : Q) (z : Z) :
  inject_Z z <= x -> x < inject_Z (z + 1) -> Qfloor x = z.
Proof.
  intros H1 H2.
  pose proof (Qfloor_le x) as F1. pose proof (Qlt_floor x) as F2.
  assert (A : inject_Z z < inject_Z (Qfloor x + 1)) by lra.
  assert (B : inject_Z (Qfloor x) < inject_Z (z + 1)) by lra.
  rewrite <- Zlt_Qlt in A, B. lia.
Qed.

Lemma Qfloor_bounds (x : Q) (lo hi : Z) :
  inject_Z lo <= x -> x < inject_Z (hi + 1) -> (lo <= Qfloor x <= hi)%Z.
Proof.
  intros H1 H2.
  pose proof (Qfloor_le x) as F1. pose proof (Qlt_floor x) as F2.
  assert (A : inject_Z lo < inject_Z (Qfloor x + 1)) by lra.
  assert (B : inject_Z (Qfloor x) < inject_Z (hi + 1)) by lra.
  rewrite <- Zlt_Qlt in A, B. lia.
Qed.

(** The fractional part lies in [0, 1). *)
Lemma fractional_range (t : Q) :
  0 <= t - inject_Z (Math_floor t) /\ t - inject_Z (Math_floor t) < 1.
Proof.
  unfold Math_floor.
  pose proof (Qfloor_le t) as F1. pose proof (Qlt_floor t) as F2.
  rewrite inject_Z_plus in F2. change (inject_Z 1) with 1 in F2.
  split; lra.
Qed.

Lemma frames_range (t : Q) : (0 <= frames_of t <= 60)%Z.
Proof.
  unfold frames_of, Math_round.
  destruct (fractional_range t) as [F1 F2].
  apply Qfloor_bounds.
  - change (inject_Z 0) with 0. lra.
  - change (inject_Z (60 + 1)) with 61. lra.
Qed.

Lemma two_digits_render_nat (n : nat) :
  (n < 100)%nat ->
  padStart 2 "0" (toString (Z.of_nat n)) = two_digits (Z.of_nat n).
Proof.
  intro H.
  do 100 (destruct n as [| n]; [vm_compute; reflexivity |]).
  lia.
Qed.

Lemma two_digits_render (n : Z) :
  (0 <= n < 100)%Z -> padStart 2 "0" (toString n) = two_digits n.
Proof.
  intro H. rewrite <- (Z2Nat.id n) by lia.
  apply two_digits_render_nat. lia.
Qed.

(** The floor of a quotient by sixty is the quotient of the floor. *)
Lemma floor_div_60 (t : Q) : Qfloor (t / 60) = (Qfloor t / 60)%Z.
Proof.
  pose proof (Qfloor_le t) as F1. pose proof (Qlt_floor t) as F2.
  rewrite inject_Z_plus in F2. change (inject_Z 1) with 1 in F2.
  pose proof (Z.div_mod (Qfloor t) 60 ltac:(lia)) as D.
  pose proof (Z.mod_pos_bound (Qfloor t) 60 ltac:(lia)) as M.
  set (q := (Qfloor t / 60)%Z) in *. set (r := (Qfloor t mod 60)%Z) in *.
  assert (E : inject_Z (Qfloor t) == 60 * inject_Z q + inject_Z r).
  { rewrite D. rewrite inject_Z_plus, inject_Z_mult. reflexivity. }
  assert (R0 : 0 <= inject_Z r)
    by (change 0 with (inject_Z 0); rewrite <- Zle_Qle; lia).
  assert (R1 : inject_Z r <= 59)
    by (change 59 with (inject_Z 59); rewrite <- Zle_Qle; lia).
  apply Qfloor_unique.
  - apply Qle_shift_div_l; [reflexivity |]. lra.
  - rewrite inject_Z_plus. change (inject_Z 1) with 1.
    apply Qlt_shift_div_r; [reflexivity |]. lra.
Qed.

Lemma trunc_nonneg (x : Q) : 0 <= x -> trunc x = Qfloor x.
Proof.
  intro H. unfold trunc. destruct x as [n d]. simpl.
  apply Z.quot_div_nonneg; [| lia].
  unfold Qle in H. simpl in H. lia.
Qed.

Lemma floor_rem_60 (t : Q) :
  0 <= t -> Qfloor (rem t 60) = (Qfloor t mod 60)%Z.
Proof.
  intro H. unfold rem.
  assert (H60 : 0 <= t / 60) by (apply Qle_shift_div_l; [reflexivity | lra]).
  rewrite (trunc_nonneg _ H60), floor_div_60.
  pose proof (Qfloor_le t) as F1. pose proof (Qlt_floor t) as F2.
  rewrite inject_Z_plus in F2. change (inject_Z 1) with 1 in F2.
  pose proof (Z.div_mod (Qfloor t) 60 ltac:(lia)) as D.
  set (q := (Qfloor t / 60)%Z) in *. set (r := (Qfloor t mod 60)%Z) in *.
  assert (E : inject_Z (Qfloor t) == 60 * inject_Z q + inject_Z r).
  { rewrite D. rewrite inject_Z_plus, inject_Z_mult. reflexivity. }
  apply Qfloor_unique.
  - lra.
  - rewrite inject_Z_plus. change (inject_Z 1) with 1. lra.
Qed.

Lemma floor_range (t : Q) (hi : Z) :
  0 <= t -> t < inject_Z (hi + 1) -> (0 <= Qfloor t <= hi)%Z.
Proof.
  intros H1 H2. apply Qfloor_bounds; [exact H1 | exact H2].
Qed.

End Timecode.

(** C4.  For a time that is not negative, [formatTimecode] prints the
    floor of the seconds and the frame count [round (fractional * 60)],
    each on two zero-padded digits, with a colon between them (two digits
    exactly below 100 seconds); [formatDurationDisplay] prints minutes,
    seconds within the minute and the same frame count as [MM:SS.FF]
    (two digits each below 100 minutes).  The frame count depends on the
    time alone, at 60 subdivisions per second.  [formatTimecode 0.3] is
    ["00:18"] and [formatDurationDisplay 65.5] is ["01:05.30"]. *)
Theorem timecode_format (t : Q) :
  0 <= t ->
  let s := Num.Math_floor t in
  let f := Num.Math_round ((t - inject_Z s) * 60) in
  (0 <= f <= 60)%Z
  /\ Utils.formatTimecode t
     = (Utils.padStart 2 "0" (Utils.toString s) ++ ":" ++ Utils.two_digits f)%string
  /\ (t < 100 ->
      Utils.formatTimecode t
      = (Utils.two_digits s ++ ":" ++ Utils.two_digits f)%string)
  /\ Utils.formatDurationDisplay t
     = (Utils.padStart 2 "0" (Utils.toString (s / 60)) ++ ":"
        ++ Utils.two_digits (s mod 60) ++ "." ++ Utils.two_digits f)%string
  /\ (t < 6000 ->
      Utils.formatDurationDisplay t
      = (Utils.two_digits (s / 60) ++ ":" ++ Utils.two_digits (s mod 60)
         ++ "." ++ Utils.two_digits f)%string)
  /\ Utils.formatTimecode (3 # 10) = "00:18"%string
  /\ Utils.formatDurationDisplay (655 # 10) = "01:05.30"%string.
Proof.
  intros Ht s f.
  pose proof (frames_range t) as Hf. unfold Utils.frames_of in Hf.
  fold s in Hf. fold f in Hf.
  assert (Hfr : Utils.padStart 2 "0" (Utils.toString f) = Utils.two_digits f)
    by (apply two_digits_render; lia).
  assert (Hmod : (0 <= s mod 60 < 60)%Z) by (apply Z.mod_pos_bound; lia).
  assert (Hsec : Utils.padStart 2 "0" (Utils.toString (s mod 60))
                 = Utils.two_digits (s mod 60))
    by (apply two_digits_render; lia).
  assert (Htc : Utils.formatTimecode t
     = (Utils.padStart 2 "0" (Utils.toString s) ++ ":" ++ Utils.two_digits f)%string).
  { unfold Utils.formatTimecode. cbv zeta. fold s. fold f. now rewrite Hfr. }
  assert (Hdd : Utils.formatDurationDisplay t
     = (Utils.padStart 2 "0" (Utils.toString (s / 60)) ++ ":"
        ++ Utils.two_digits (s mod 60) ++ "." ++ Utils.two_digits f)%string).
  { unfold Utils.formatDurationDisplay. cbv zeta. fold s. fold f.
    unfold Num.Math_floor at 1 2.
    rewrite floor_div_60, (floor_rem_60 t Ht).
    fold (Num.Math_floor t). fold s. now rewrite Hfr, Hsec. }
  split; [exact Hf |].
  split; [exact Htc |].
  split.
  { intro Hlt. rewrite Htc.
    assert (Hs : (0 <= s <= 99)%Z)
      by (apply floor_range; [exact Ht | exact Hlt]).
    rewrite two_digits_render by lia. reflexivity. }
  split; [exact Hdd |].
  split.
  { intro Hlt. rewrite Hdd.
    assert (Hs : (0 <= s <= 5999)%Z)
      by (apply floor_range; [exact Ht | exact Hlt]).
    assert (Hm : (0 <= s / 60 < 100)%Z).
    { split; [apply Z.div_pos; lia |].
      apply Z.div_lt_upper_bound; lia. }
    rewrite two_digits_render by lia. reflexivity. }
  split; vm_compute; reflexivity.
Qed.

Lemma timecode_format_witness :
  0 <= (3 # 10)
  /\ Utils.formatTimecode (3 # 10)
     = (Utils.two_digits (Num.Math_floor (3 # 10)) ++ ":"
        ++ Utils.two_digits
             (Num.Math_round
                (((3 # 10) - inject_Z (Num.Math_floor (3 # 10))) * 60)))%string.
Proof.
  assert (H : 0 <= (3 # 10)) by (vm_compute; discriminate).
  split; [exact H |].
  destruct (timecode_format (3 # 10) H) as [_ [_ [Hlt _]]].
  apply Hlt. vm_compute. reflexivity.
Defined.

(** C10.  The frame field is [round (fractional * 60)] with no carry: a
    time whose fractional part is at least 59.5/60 prints the frame count
    60 after the unchanged floor of the seconds, in both formats;
    [formatTimecode 0.996] is ["00:60"].  So the frame field is not always
    below 60. *)
Theorem frame_field_reaches_sixty (t : Q) :
  (595 # 600) <= t - inject_Z (Num.Math_floor t) ->
  Utils.frames_of t = 60%Z
  /\ Utils.formatTimecode t
     = (Utils.padStart 2 "0" (Utils.toString (Num.Math_floor t)) ++ ":60")%string
  /\ Utils.formatDurationDisplay t
     = (Utils.padStart 2 "0" (Utils.toString (Num.Math_floor (t / 60))) ++ ":"
        ++ Utils.padStart 2 "0"
             (Utils.toString (Num.Math_floor (Num.rem t 60)))
        ++ ".60")%string
  /\ Utils.formatTimecode (996 # 1000) = "00:60"%string
  /\ Utils.formatDurationDisplay (996 # 1000) = "00:00.60"%string
  /\ ~ (forall u : Q, (Utils.frames_of u < 60)%Z).
Proof.
  intro H.
  assert (Hf : Utils.frames_of t = 60%Z).
  { unfold Utils.frames_of, Num.Math_round.
    destruct (fractional_range t) as [_ F2].
    apply Qfloor_unique.
    - change (inject_Z 60) with 60. lra.
    - change (inject_Z (60 + 1)) with 61. lra. }
  split; [exact Hf |].
  unfold Utils.frames_of in Hf.
  split.
  { unfold Utils.formatTimecode. cbv zeta. rewrite Hf. reflexivity. }
  split.
  { unfold Utils.formatDurationDisplay. cbv zeta. rewrite Hf. reflexivity. }
  split; [vm_compute; reflexivity |].
  split; [vm_compute; reflexivity |].
  intro Habs. specialize (Habs (996 # 1000)). vm_compute in Habs. discriminate.
Qed.

Lemma frame_field_reaches_sixty_witness :
  (595 # 600) <= (996 # 1000) - inject_Z (Num.Math_floor (996 # 1000))
  /\ Utils.frames_of (996 # 1000) = 60%Z.
Proof.
  assert (H : (595 # 600)
              <= (996 # 1000) - inject_Z (Num.Math_floor (996 # 1000)))
    by (vm_compute; discriminate).
  split; [exact H |].
  exact (proj1 (frame_field_reaches_sixty (996 # 1000) H)).
Defined.

(** ** Out-of-range and empty-list seeks *)

Section CheckedFacts.
Import Num Types Sequence.

Lemma Math_min_same (a : Q) : Math_min a a = a.
Proof.
  unfold Math_min. destruct (Qle_bool a a); reflexivity.
Qed.

(** A request other than [NaN] is clamped to a finite number, the one
    the exact model computes from the rational the request amounts to. *)
Lemma seekTime_request (seq : list SequenceEntry) (time : Checked.JsNumber) :
  time <> Checked.NaN ->
  Checked.seekTime seq time
  = Checked.Finite (seekTime seq (Checked.request seq time)).
Proof.
  intro H. unfold Checked.seekTime, seekTime.
  destruct time as [q | | |]; simpl.
  - reflexivity.
  - now rewrite Math_min_same.
  - unfold Math_min, Math_max.
    destruct (Qle_bool 0 (totalDuration seq)) eqn:E.
    + reflexivity.
    + now rewrite E.
  - congruence.
Qed.

Lemma seekVideo_finite (t : Q) (s : Player.State) :
  Checked.seekVideo (Checked.Finite t) (Checked.of_player s)
  = Checked.Returned (Checked.of_player (Player.seekVideo t s)).
Proof.
  unfold Checked.seekVideo, Player.seekVideo. simpl.
  destruct (Player.videoRef s); reflexivity.
Qed.

(** With a request other than [NaN] the commit seek returns, in the
    state the exact model computes. *)
Lemma seekToGlobalTime_returns (time : Checked.JsNumber) (s : Player.State) :
  time <> Checked.NaN ->
  Checked.seekToGlobalTime time (Checked.of_player s)
  = Checked.Returned
      (Checked.of_player
         (Player.seekToGlobalTime
            (Checked.request (Player.sequenceOf s) time) s)).
Proof.
  intro H. unfold Checked.seekToGlobalTime, Player.seekToGlobalTime.
  cbv zeta.
  change (Checked.sequenceOf (Checked.of_player s))
    with (Player.sequenceOf s).
  change (Player.sequenceOf (Player.setGlobalTimeDisplay _ s))
    with (Player.sequenceOf s).
  rewrite (seekTime_request (Player.sequenceOf s) time H).
  set (t := seekTime (Player.sequenceOf s)
              (Checked.request (Player.sequenceOf s) time)).
  change (Checked.targetClip (Player.sequenceOf s) (Checked.Finite t))
    with (targetClip (Player.sequenceOf s) t).
  destruct (targetClip (Player.sequenceOf s) t) as [e |]; [| reflexivity].
  change (Checked.activeClipId (Checked.of_player s))
    with (Player.activeClipId s).
  destruct (id_is (Player.activeClipId s) e); simpl negb; cbv iota.
  - apply (seekVideo_finite (localSeekTime e t)
             (Player.setGlobalTimeDisplay t s)).
  - unfold Checked.of_player. simpl. rewrite map_app. reflexivity.
Qed.

(** A deferred seek to a finite local time returns. *)
Lemma runTimeout_returns (s : Player.State) :
  Checked.runTimeout (Checked.of_player s)
  = Checked.Returned (Checked.of_player (Player.runTimeout s)).
Proof.
  unfold Checked.runTimeout, Player.runTimeout. simpl.
  destruct (Player.timeouts s) as [| t rest]; [reflexivity |].
  simpl. apply (seekVideo_finite t (Player.with_timeouts rest s)).
Qed.

End CheckedFacts.

(** C7, as amended.  When the total duration is not negative, a commit
    seek whose requested time is any number but [NaN], finite or
    infinite, shows and uses the request clamped to [0, totalDuration]:
    0 for a request below 0 and for minus infinity, the total duration
    for a request beyond it and for plus infinity, the request itself
    otherwise.  Neither the seek nor the deferred seek it may leave
    raises an error: both return, in the state the exact model computes.
    With an empty clip list the total duration is 0 and the seek shows
    position 0 and changes nothing else: not the surface, not the active
    clip, not any other field. *)
Theorem seek_clamps_and_never_raises (s : Player.State)
    (time : Checked.JsNumber) :
  0 <= Sequence.totalDuration (Player.sequenceOf s) ->
  time <> Checked.NaN ->
  let total := Sequence.totalDuration (Player.sequenceOf s) in
  let t := Sequence.seekTime (Player.sequenceOf s)
             (Checked.request (Player.sequenceOf s) time) in
  let s' := Player.seekToGlobalTime
              (Checked.request (Player.sequenceOf s) time) s in
  (Checked.seekTime (Player.sequenceOf s) time = Checked.Finite t
   /\ 0 <= t <= total
   /\ (forall q, time = Checked.Finite q ->
         (q < 0 -> t == 0) /\ (total < q -> t == total)
         /\ (0 <= q <= total -> t = q))
   /\ (time = Checked.PosInfinity -> t == total)
   /\ (time = Checked.NegInfinity -> t == 0))
  /\ (Checked.seekToGlobalTime time (Checked.of_player s)
      = Checked.Returned (Checked.of_player s')
      /\ Checked.runTimeout (Checked.of_player s')
         = Checked.Returned (Checked.of_player (Player.runTimeout s')))
  /\ Player.globalTimeDisplay s' = t
  /\ Player.clips s' = Player.clips s
  /\ (Player.clips s = [] ->
      total = 0 /\ t == 0 /\ s' = Player.setGlobalTimeDisplay t s).
Proof.
  intros Htot Hnan total t s'.
  destruct (seekTime_bounds (Player.sequenceOf s)
              (Checked.request (Player.sequenceOf s) time) Htot)
    as [Hb [Hid [Hlo Hhi]]].
  fold t in Hb, Hid, Hlo, Hhi. fold total in Hb, Hid, Hlo, Hhi.
  split.
  { split; [exact (seekTime_request (Player.sequenceOf s) time Hnan) |].
    split; [exact Hb |].
    split.
    { intros q Hq. subst time. simpl in Hid, Hlo, Hhi.
      split; [exact Hlo |]. split; [exact Hhi | exact Hid]. }
    split.
    - intro Hp. subst time. simpl in Hid.
      assert (E : t = total)
        by (apply Hid; split; [exact Htot | apply Qle_refl]).
      rewrite E. reflexivity.
    - intro Hm. subst time. simpl in Hid.
      assert (E : t = 0)
        by (apply Hid; split; [apply Qle_refl | exact Htot]).
      rewrite E. reflexivity. }
  split.
  { split; [exact (seekToGlobalTime_returns time s Hnan) |].
    apply runTimeout_returns. }
  assert (Hshape : Player.globalTimeDisplay s' = t
                   /\ Player.clips s' = Player.clips s).
  { subst s'. unfold Player.seekToGlobalTime. cbv zeta.
    change (Player.sequenceOf (Player.setGlobalTimeDisplay _ s))
      with (Player.sequenceOf s).
    fold t.
    destruct (Sequence.targetClip _ _) as [e |]; [| split; reflexivity].
    destruct (negb _).
    - split; reflexivity.
    - unfold Player.seekVideo. simpl.
      destruct (Player.videoRef s); split; reflexivity. }
  split; [apply Hshape |]. split; [apply Hshape |].
  intro Hempty.
  assert (Hseq : Player.sequenceOf s = []).
  { unfold Player.sequenceOf. now rewrite Hempty. }
  assert (Htotal : total = 0) by (unfold total; now rewrite Hseq).
  assert (Ht0 : t == 0) by (rewrite Htotal in Hb; lra).
  split; [exact Htotal |]. split; [exact Ht0 |].
  subst s' t. unfold Player.seekToGlobalTime. cbv zeta.
  change (Player.sequenceOf (Player.setGlobalTimeDisplay _ s))
    with (Player.sequenceOf s).
  rewrite Hseq. reflexivity.
Qed.

Lemma seek_clamps_and_never_raises_witness :
  Checked.seekToGlobalTime Checked.PosInfinity
    (Checked.of_player Player.scenarioState)
  = Checked.Returned
      (Checked.of_player
         (Player.seekToGlobalTime
            (Checked.request (Player.sequenceOf Player.scenarioState)
               Checked.PosInfinity)
            Player.scenarioState))
  /\ Player.globalTimeDisplay
       (Player.seekToGlobalTime
          (Checked.request (Player.sequenceOf Player.scenarioState)
             Checked.PosInfinity)
          Player.scenarioState)
     == 23.
Proof.
  assert (H1 : 0 <= Sequence.totalDuration
                      (Player.sequenceOf Player.scenarioState))
    by (vm_compute; discriminate).
  assert (H2 : Checked.PosInfinity <> Checked.NaN) by discriminate.
  destruct (seek_clamps_and_never_raises Player.scenarioState
              Checked.PosInfinity H1 H2) as [_ [[Hret _] [Hshown _]]].
  split; [exact Hret |].
  rewrite Hshown. vm_compute. reflexivity.
Defined.

(** C7 as stated fails on the empty list: a player left without clips
    while it showed position 7 shows position 0 after a commit seek, so
    the seek is not a no-op there. *)
Lemma empty_seek_moves_shown_position :
  Player.clips Checked.leftAtSeven = []
  /\ Player.globalTimeDisplay Checked.leftAtSeven == 7
  /\ Player.globalTimeDisplay
       (Player.seekToGlobalTime 3 Checked.leftAtSeven) == 0
  /\ Player.seekToGlobalTime 3 Checked.leftAtSeven <> Checked.leftAtSeven
  /\ ~ Player.same_playback
         (Player.seekToGlobalTime 3 Checked.leftAtSeven)
         Checked.leftAtSeven.
Proof.
  split; [reflexivity |]. split; [reflexivity |].
  split; [vm_compute; reflexivity |].
  split.
  - intro H. apply (f_equal Player.globalTimeDisplay) in H.
    vm_compute in H. discriminate.
  - intros [_ H]. vm_compute in H. discriminate.
Qed.

(** A request that is [NaN] is outside the theorem: with clips and a
    surface the local time is [NaN] too, and assigning it raises.  In the
    three-clip scenario the seek defers the assignment, and the deferred
    seek raises. *)
Remark nan_request_raises :
  exists st st',
    Checked.seekToGlobalTime Checked.NaN
      (Checked.of_player Player.scenarioState) = Checked.Returned st
    /\ Checked.timeouts st = [Checked.NaN]
    /\ Checked.runTimeout st = Checked.Raised st'.
Proof.
  eexists. eexists.
  split; [vm_compute; reflexivity |].
  split; vm_compute; reflexivity.
Qed.

(** ** Natural end of clip: advance and wrap *)

Section Advance.
Import Num Types Sequence Player.

Lemma map_from_ids (clips : list Clip) : forall acc,
  map (fun e => id (clip e)) (map_from acc clips) = map id clips.
Proof.
  induction clips as [| c rest IH]; intro acc; simpl; [reflexivity |].
  now rewrite IH.
Qed.

(** With distinct identifiers, the index found for an entry's
    identifier is that entry's index. *)
Lemma findIndex_nth (seq : list SequenceEntry) : forall i e,
  NoDup (map (fun x => id (clip x)) seq) ->
  nth_error seq i = Some e ->
  findIndex (id_is (Some (id (clip e)))) seq = Some i.
Proof.
  induction seq as [| h rest IH]; intros i e Hnd Hi.
  - destruct i; discriminate.
  - simpl in Hnd. inversion Hnd as [| ? ? Hnotin Hrest]; subst.
    destruct i as [| i]; simpl in Hi.
    + inversion Hi; subst. simpl. now rewrite String.eqb_refl.
    + simpl.
      destruct (String.eqb (id (clip h)) (id (clip e))) eqn:E.
      * apply String.eqb_eq in E. exfalso. apply Hnotin. rewrite E.
        apply in_map_iff. exists e. split; [reflexivity |].
        eapply nth_error_In; eassumption.
      * now rewrite (IH i e Hrest Hi).
Qed.

Lemma activeClip_nth (clips : list Clip) (i : nat) (e : SequenceEntry) :
  NoDup (map id clips) ->
  nth_error (sequence clips) i = Some e ->
  activeClipIndex (sequence clips) (Some (id (clip e))) = Some i
  /\ activeClip (sequence clips) (Some (id (clip e))) = Some e.
Proof.
  intros Hnd Hi.
  assert (Hidx : activeClipIndex (sequence clips) (Some (id (clip e)))
                 = Some i).
  { unfold activeClipIndex. apply findIndex_nth; [| exact Hi].
    unfold sequence. now rewrite map_from_ids. }
  split; [exact Hidx |].
  unfold activeClip. now rewrite Hidx.
Qed.

Lemma handleTimeUpdate_at_end (s : State) (i : nat) (e : SequenceEntry)
    (vid : Video) :
  NoDup (map id (clips s)) ->
  nth_error (sequenceOf s) i = Some e ->
  activeClipId s = Some (id (clip e)) ->
  isPreviewingRef s = false ->
  isScrubbing s = false ->
  videoRef s = Some vid ->
  end_ (clip e) <= currentTime vid ->
  exists next,
    nth_error (sequenceOf s) ((i + 1) mod List.length (sequenceOf s))
    = Some next
    /\ handleTimeUpdate s
       = with_isPlaying true
           (with_videoRef
              (Some (video_play
                       (set_currentTime (start (clip next))
                          (set_src (url (clip next)) vid))))
              (onActiveClipChange (id (clip next))
                 (onTimeUpdate (currentTime vid)
                    (setGlobalTimeDisplay
                       (sequenceStart e + (currentTime vid - start (clip e)))
                       s)))).
Proof.
  intros Hnd Hi Hact Hprev Hscrub Hvid Hend.
  assert (Hlen : (i < List.length (sequenceOf s))%nat)
    by (apply nth_error_Some; congruence).
  assert (Hnext : ((i + 1) mod List.length (sequenceOf s)
                   < List.length (sequenceOf s))%nat)
    by (apply Nat.mod_upper_bound; lia).
  destruct (nth_error (sequenceOf s)
              ((i + 1) mod List.length (sequenceOf s))) as [next |] eqn:En;
    [| apply nth_error_None in En; lia].
  exists next. split; [reflexivity |].
  destruct (activeClip_nth (clips s) i e Hnd Hi) as [Hidx Hac].
  unfold handleTimeUpdate. rewrite Hprev, Hvid, Hact.
  unfold sequenceOf in *. rewrite Hac, Hidx. rewrite Hscrub. simpl negb.
  cbv iota.
  assert (G : geb (currentTime vid) (end_ (clip e)) = true)
    by now apply geb_true.
  rewrite G. simpl andb. cbv iota. rewrite En. reflexivity.
Qed.

End Advance.

Section PlaybackPass.
Import Num Types Sequence Player.

Lemma advance_step (s : State) (i : nat) (e : SequenceEntry) :
  NoDup (map id (clips s)) ->
  committed_at s i e ->
  exists next vid',
    committed_at (advance s) ((i + 1) mod List.length (sequenceOf s)) next
    /\ clips (advance s) = clips s
    /\ videoRef (advance s) = Some vid'
    /\ src vid' = Some (url (clip next))
    /\ currentTime vid' = start (clip next)
    /\ paused vid' = false
    /\ isPlaying (advance s) = true.
Proof.
  intros Hnd [Hi [Hact [Hprev [Hscrub [vid Hvid]]]]].
  destruct (activeClip_nth (clips s) i e Hnd Hi) as [_ Hac].
  assert (Hreach : reachTrimmedEnd s
                   = with_videoRef
                       (Some (set_currentTime (end_ (clip e)) vid)) s).
  { unfold reachTrimmedEnd. rewrite Hvid, Hact.
    unfold sequenceOf. now rewrite Hac. }
  unfold advance. rewrite Hreach.
  set (s1 := with_videoRef (Some (set_currentTime (end_ (clip e)) vid)) s).
  destruct (handleTimeUpdate_at_end s1 i e
              (set_currentTime (end_ (clip e)) vid))
    as [next [Hn Heq]]; try assumption; try reflexivity.
  { simpl. lra. }
  rewrite Heq. change (sequenceOf s1) with (sequenceOf s) in Hn.
  exists next. eexists.
  split.
  { unfold committed_at. simpl.
    split; [exact Hn |]. split; [reflexivity |].
    split; [exact Hprev |]. split; [exact Hscrub |].
    eexists; reflexivity. }
  simpl. repeat split; reflexivity.
Qed.

Lemma committed_at_index (s : State) (i : nat) (e : SequenceEntry) :
  committed_at s i e -> (i < List.length (sequenceOf s))%nat.
Proof.
  intros [Hi _]. apply nth_error_Some. congruence.
Qed.

Lemma advance_iter (k : nat) : forall (s : State) (i : nat) (e : SequenceEntry),
  NoDup (map id (clips s)) ->
  committed_at s i e ->
  exists ek,
    committed_at (Nat.iter k advance s)
      ((i + k) mod List.length (sequenceOf s)) ek
    /\ clips (Nat.iter k advance s) = clips s.
Proof.
  induction k as [| k IH]; intros s i e Hnd Hc.
  - exists e. simpl. rewrite Nat.add_0_r.
    rewrite Nat.mod_small by (eapply committed_at_index; eassumption).
    split; [exact Hc | reflexivity].
  - destruct (IH s i e Hnd Hc) as [ek [Hk Hclips]].
    simpl Nat.iter.
    assert (Hnd' : NoDup (map id (clips (Nat.iter k advance s))))
      by now rewrite Hclips.
    destruct (advance_step _ _ _ Hnd' Hk)
      as [next [vid' [Hnext [Hcl _]]]].
    exists next.
    assert (Hseq : sequenceOf (Nat.iter k advance s) = sequenceOf s)
      by (unfold sequenceOf; now rewrite Hclips).
    rewrite Hseq in Hnext.
    split; [| now rewrite Hcl].
    replace ((i + S k) mod List.length (sequenceOf s))%nat
      with (((i + k) mod List.length (sequenceOf s) + 1)
            mod List.length (sequenceOf s))%nat; [exact Hnext |].
    pose proof (committed_at_index _ _ _ Hc) as Hlen.
    rewrite Nat.Div0.add_mod_idemp_l.
    f_equal. lia.
Qed.

End PlaybackPass.

(** C8.  In committed playback (not previewing, not scrubbing) of a clip
    list with distinct identifiers, when the local time of the surface
    reaches the active clip's trimmed end, the [timeupdate] handler makes
    the next entry active (the first one after the last), points the
    surface at its source, sets the local time to its trimmed start and
    keeps playing.  Repeating this [k] times from entry [i] ends at entry
    [(i + k) mod n], so from any entry every entry is reached within [n]
    advances, and the advance is defined at every entry. *)
Theorem playback_advances_and_wraps (s : Player.State) (i : nat)
    (e : Sequence.SequenceEntry) (vid : Player.Video) :
  NoDup (map Types.id (Player.clips s)) ->
  nth_error (Player.sequenceOf s) i = Some e ->
  Player.activeClipId s = Some (Types.id (Sequence.clip e)) ->
  Player.isPreviewingRef s = false ->
  Player.isScrubbing s = false ->
  Player.videoRef s = Some vid ->
  Types.end_ (Sequence.clip e) <= Player.currentTime vid ->
  let n := List.length (Player.sequenceOf s) in
  (exists next vid',
     nth_error (Player.sequenceOf s) ((i + 1) mod n) = Some next
     /\ (i = (n - 1)%nat -> nth_error (Player.sequenceOf s) 0 = Some next)
     /\ Player.activeClipId (Player.handleTimeUpdate s)
        = Some (Types.id (Sequence.clip next))
     /\ Player.videoRef (Player.handleTimeUpdate s) = Some vid'
     /\ Player.src vid' = Some (Types.url (Sequence.clip next))
     /\ Player.currentTime vid' = Types.start (Sequence.clip next)
     /\ Player.paused vid' = false
     /\ Player.isPlaying (Player.handleTimeUpdate s) = true)
  /\ (forall k, exists ek,
        Player.committed_at (Nat.iter k Player.advance s) ((i + k) mod n) ek)
  /\ (forall j ej, nth_error (Player.sequenceOf s) j = Some ej ->
        exists k, (k < n)%nat
          /\ Player.committed_at (Nat.iter k Player.advance s) j ej).
Proof.
  intros Hnd Hi Hact Hprev Hscrub Hvid Hend n.
  assert (Hc : Player.committed_at s i e).
  { unfold Player.committed_at. repeat (split; try assumption).
    now exists vid. }
  pose proof (committed_at_index _ _ _ Hc) as Hlen. fold n in Hlen.
  split.
  - destruct (handleTimeUpdate_at_end s i e vid Hnd Hi Hact Hprev Hscrub
                Hvid Hend) as [next [Hn Heq]].
    exists next. eexists. fold n in Hn.
    split; [exact Hn |].
    split.
    { intro Hlast. rewrite Hlast in Hn.
      replace (n - 1 + 1)%nat with n in Hn by lia.
      rewrite Nat.Div0.mod_same in Hn. exact Hn. }
    rewrite Heq. simpl. repeat split; reflexivity.
  - split.
    + intro k. destruct (advance_iter k s i e Hnd Hc) as [ek [Hk _]].
      exists ek. exact Hk.
    + intros j ej Hj.
      assert (Hjlen : (j < n)%nat) by (apply nth_error_Some; congruence).
      exists ((j + n - i) mod n)%nat.
      split; [apply Nat.mod_upper_bound; lia |].
      destruct (advance_iter ((j + n - i) mod n) s i e Hnd Hc)
        as [ek [Hk Hclips]].
      fold n in Hk.
      assert (Hidx : ((i + (j + n - i) mod n) mod n = j)%nat).
      { rewrite Nat.Div0.add_mod_idemp_r.
        replace (i + (j + n - i))%nat with (j + 1 * n)%nat by lia.
        rewrite Nat.Div0.mod_add. apply Nat.mod_small. exact Hjlen. }
      rewrite Hidx in Hk.
      assert (Hsame : ek = ej).
      { destruct Hk as [Hnth _].
        assert (Hseq : Player.sequenceOf
                         (Nat.iter ((j + n - i) mod n) Player.advance s)
                       = Player.sequenceOf s)
          by (unfold Player.sequenceOf; now rewrite Hclips).
        rewrite Hseq in Hnth. congruence. }
      now rewrite <- Hsame.
Qed.

Lemma playback_advances_and_wraps_witness :
  exists next,
    nth_error (Player.sequenceOf Player.scenarioAtEnd) 1 = Some next
    /\ Player.activeClipId (Player.handleTimeUpdate Player.scenarioAtEnd)
       = Some (Types.id (Sequence.clip next)).
Proof.
  assert (Hnd : NoDup (map Types.id (Player.clips Player.scenarioAtEnd))).
  { simpl. repeat constructor; simpl; intro H;
      repeat (destruct H as [H | H]; [discriminate |]); exact H. }
  assert (Hend : Types.end_ Sequence.clip1 <= 10) by (vm_compute; discriminate).
  destruct (playback_advances_and_wraps Player.scenarioAtEnd 0
              (Sequence.mkEntry Sequence.clip1 0 (10 - 0) (0 + (10 - 0)))
              (Player.mkVideo (Some "blob:c1"%string) 10 1 false [])
              Hnd eq_refl eq_refl eq_refl eq_refl eq_refl Hend)
    as [[next [vid' [Hn [_ [Ha _]]]]] _].
  exists next. split; [exact Hn | exact Ha].
Defined.

(** ** Hover preview: snapshot and restore *)

Section Preview.
Import Num Types Sequence Player.

Lemma activeClip_find (seq : list SequenceEntry) (a : option string) :
  activeClip seq a = find (id_is a) seq.
Proof.
  unfold activeClip, activeClipIndex.
  induction seq as [| h rest IH]; simpl; [reflexivity |].
  destruct (id_is a h); [reflexivity |].
  destruct (findIndex (id_is a) rest) as [i |]; simpl; exact IH.
Qed.

Lemma activeClip_hasClips (s : State) (c : SequenceEntry) :
  activeClip (sequenceOf s) (activeClipId s) = Some c -> hasClips s = true.
Proof.
  intro H. unfold hasClips. rewrite H. rewrite andb_true_r.
  destruct (clips s) as [| x l] eqn:E; [| reflexivity].
  unfold sequenceOf in H. rewrite E in H. discriminate.
Qed.

Lemma previewAt_enters (s0 : State) (v0 : Video) (c : SequenceEntry)
    (time : Q) :
  isPreviewingRef s0 = false ->
  isPlaying s0 = false ->
  videoRef s0 = Some v0 ->
  activeClip (sequenceOf s0) (activeClipId s0) = Some c ->
  previewing (mkRestore (src v0) (currentTime v0) (globalTimeDisplay s0))
             s0 (previewAtGlobalTime time s0)
  /\ videoRef (previewAtGlobalTime time s0) = Some v0.
Proof.
  intros Hprev Hplay Hvid Hac.
  unfold previewAtGlobalTime.
  rewrite (activeClip_hasClips s0 c Hac), Hplay, Hvid. simpl negb. cbv iota.
  cbv zeta. simpl isPreviewingRef. rewrite Hprev. simpl negb. cbv iota.
  destruct (previewRafRef s0) eqn:Hraf; simpl; rewrite ?Hraf; simpl;
    (split; [unfold previewing; simpl;
             repeat (split; try reflexivity; try assumption);
             eexists; eassumption
            | assumption]).
Qed.

Lemma previewing_hasClips (r : Restore) (s0 s : State) (c : SequenceEntry) :
  activeClip (sequenceOf s0) (activeClipId s0) = Some c ->
  previewing r s0 s ->
  hasClips s = true.
Proof.
  intros Hac [_ [_ [Hcl [Hact _]]]].
  apply (activeClip_hasClips s c).
  unfold sequenceOf. now rewrite Hcl, Hact.
Qed.

Lemma previewStep_keeps (r : Restore) (s0 s : State) (c : SequenceEntry)
    (e : PreviewEvent) :
  activeClip (sequenceOf s0) (activeClipId s0) = Some c ->
  previewing r s0 s ->
  previewing r s0 (previewStep s e).
Proof.
  intros Hac Hp.
  pose proof (previewing_hasClips r s0 s c Hac Hp) as Hhas.
  destruct Hp as [Hprev [Hres [Hcl [Hact [Hplay [vid Hvid]]]]]].
  destruct e as [time | |]; simpl.
  - unfold previewAtGlobalTime. rewrite Hhas, Hplay, Hvid.
    simpl negb. cbv iota. cbv zeta. simpl isPreviewingRef.
    rewrite Hprev. simpl negb. cbv iota.
    destruct (previewRafRef s) eqn:Hraf; simpl; rewrite ?Hraf; simpl;
      unfold previewing; simpl;
      repeat (split; try assumption); eexists; eassumption.
  - unfold previewFrame.
    destruct (previewRafRef s); simpl;
      [| unfold previewing; repeat (split; try assumption);
         eexists; eassumption].
    destruct (previewPendingTimeRef s) as [pending |]; simpl;
      [| unfold previewing; simpl; repeat (split; try assumption);
         eexists; eassumption].
    destruct (targetClip _ pending) as [target |]; simpl;
      [| unfold previewing; simpl; repeat (split; try assumption);
         eexists; eassumption].
    rewrite Hvid.
    match goal with
    | |- context [if ?b then _ else _] => destruct b
    end; unfold previewing; simpl;
      repeat (split; try assumption); eexists; reflexivity.
  - unfold loadedMetadata. rewrite Hvid.
    unfold previewing; simpl.
    repeat (split; try assumption). eexists; reflexivity.
Qed.

Lemma previewRun_keeps (r : Restore) (s0 : State) (c : SequenceEntry)
    (events : list PreviewEvent) : forall s,
  activeClip (sequenceOf s0) (activeClipId s0) = Some c ->
  previewing r s0 s ->
  previewing r s0 (previewRun events s).
Proof.
  induction events as [| e rest IH]; intros s Hac Hp; simpl; [exact Hp |].
  apply IH; [exact Hac |]. eapply previewStep_keeps; eassumption.
Qed.

(** The last registered listener decides the time. *)
Lemma listeners_last (l : list Q) (t cur : Q) :
  fold_left (fun _ u => u) (l ++ [t]) cur = t.
Proof.
  rewrite fold_left_app. reflexivity.
Qed.

(** Leaving the preview, and letting a pending load complete, gives the
    snapshot back when the committed clip's source is the snapshot's. *)
Lemma endPreview_restores (r : Restore) (s0 s : State) (c : SequenceEntry) :
  activeClip (sequenceOf s0) (activeClipId s0) = Some c ->
  restore_src r = Some (url (clip c)) ->
  url (clip c) <> EmptyString ->
  previewing r s0 s ->
  isPreviewingRef (loadedMetadata (endPreview s)) = false
  /\ previewRestoreRef (loadedMetadata (endPreview s)) = None
  /\ previewRafRef (loadedMetadata (endPreview s)) = false
  /\ committedTriplet (loadedMetadata (endPreview s))
     = Some (restore_src r, restore_localTime r, restore_globalTime r)
  /\ (forall vid, videoRef s = Some vid ->
        src vid = restore_src r -> (1 <= readyState vid)%nat ->
        committedTriplet (endPreview s)
        = Some (restore_src r, restore_localTime r, restore_globalTime r)).
Proof.
  intros Hac Hsrc Hurl [Hprev [Hres [Hcl [Hact [Hplay [vid Hvid]]]]]].
  assert (Hfind : find (id_is (activeClipId s)) (sequenceOf s) = Some c).
  { rewrite <- activeClip_find. unfold sequenceOf. now rewrite Hcl, Hact. }
  assert (Hne : String.eqb (url (clip c)) EmptyString = false)
    by now apply String.eqb_neq.
  unfold endPreview. rewrite Hprev. simpl negb. cbv iota. cbv zeta.
  simpl previewRestoreRef. rewrite Hres.
  simpl videoRef. rewrite Hvid.
  change (sequenceOf (with_previewRestoreRef None _)) with (sequenceOf s).
  simpl activeClipId. rewrite Hfind, Hne.
  unfold setVideoSrcAndTime. simpl videoRef. rewrite Hvid. cbv zeta.
  rewrite Hsrc.
  destruct (src_is (src vid) (url (clip c))) eqn:Esrc; simpl negb; cbv iota.
  - assert (Hsv : src vid = Some (url (clip c))).
    { unfold src_is in Esrc. destruct (src vid) as [u |]; [| discriminate].
      apply String.eqb_eq in Esrc. now subst. }
    destruct (1 <=? readyState vid)%nat eqn:Er.
    + unfold loadedMetadata, committedTriplet, fire_loadedmetadata. simpl.
      apply Nat.leb_le in Er.
      assert (Hlt : (readyState vid <? 1)%nat = false)
        by (apply Nat.ltb_ge; lia).
      rewrite Hlt. simpl. rewrite Hsv.
      repeat split; reflexivity.
    + unfold loadedMetadata, committedTriplet, fire_loadedmetadata. simpl.
      apply Nat.leb_gt in Er.
      assert (Hlt : (readyState vid <? 1)%nat = true)
        by (apply Nat.ltb_lt; lia).
      rewrite Hlt. simpl. rewrite listeners_last, Hsv.
      repeat split; try reflexivity.
      intros vid0 Hv0 _ Hready. inversion Hv0; subst vid0. lia.
  - unfold loadedMetadata, committedTriplet, fire_loadedmetadata. simpl.
    rewrite listeners_last.
    repeat split; try reflexivity.
    intros vid0 Hv0 Hs0 _. inversion Hv0; subst vid0.
    rewrite Hs0 in Esrc. simpl in Esrc.
    rewrite String.eqb_refl in Esrc. discriminate.
Qed.

Lemma setVideoSrcAndTime_isPreviewing (u : string) (t : Q) (s : State) :
  isPreviewingRef (setVideoSrcAndTime u t s) = isPreviewingRef s.
Proof.
  unfold setVideoSrcAndTime. destruct (videoRef s) as [vid |]; [| reflexivity].
  cbv zeta. destruct (1 <=? _)%nat; reflexivity.
Qed.

(** After [endPreview] the player is not previewing. *)
Lemma endPreview_leaves (s : State) :
  isPreviewingRef (endPreview s) = false.
Proof.
  unfold endPreview. destruct (isPreviewingRef s) eqn:E; simpl; [| exact E].
  destruct (previewRestoreRef s) as [r |]; simpl; [| reflexivity].
  destruct (videoRef s) as [vid |] eqn:Hv; simpl; [| reflexivity].
  match goal with
  | |- context [match ?x with Some _ => _ | None => _ end] =>
      destruct x as [u |]; [| reflexivity]
  end.
  destruct (String.eqb u EmptyString); [reflexivity |].
  apply setVideoSrcAndTime_isPreviewing.
Qed.

End Preview.

(** C5.  Let the player be in a committed, paused state with an active
    clip whose (non-empty) source the visible surface carries.  A first
    [previewAtGlobalTime] records the snapshot (source, local time, shown
    global position).  Whatever follows among further
    [previewAtGlobalTime] calls, animation frames and metadata events, the
    snapshot is kept, and [endPreview] gives back exactly that triplet: at
    once when the surface is ready on the snapshot's source, and otherwise
    as soon as the pending load reports its metadata.  [endPreview] on a
    state that is not previewing returns it unchanged, so it is
    idempotent. *)
Theorem preview_restores_snapshot (s0 : Player.State) (v0 : Player.Video)
    (c : Sequence.SequenceEntry) (time : Q)
    (events : list Player.PreviewEvent) :
  Player.isPreviewingRef s0 = false ->
  Player.isPlaying s0 = false ->
  Player.videoRef s0 = Some v0 ->
  Sequence.activeClip (Player.sequenceOf s0) (Player.activeClipId s0) = Some c ->
  Player.src v0 = Some (Types.url (Sequence.clip c)) ->
  Types.url (Sequence.clip c) <> EmptyString ->
  let s1 := Player.previewAtGlobalTime time s0 in
  let s2 := Player.previewRun events s1 in
  let s3 := Player.loadedMetadata (Player.endPreview s2) in
  (Player.isPreviewingRef s1 = true
   /\ Player.previewRestoreRef s1
      = Some (Player.mkRestore (Player.src v0) (Player.currentTime v0)
                (Player.globalTimeDisplay s0)))
  /\ (Player.isPreviewingRef s2 = true
      /\ Player.previewRestoreRef s2 = Player.previewRestoreRef s1)
  /\ (Player.isPreviewingRef s3 = false
      /\ Player.previewRestoreRef s3 = None
      /\ Player.committedTriplet s3 = Player.committedTriplet s0)
  /\ (forall vid, Player.videoRef s2 = Some vid ->
        Player.src vid = Player.src v0 -> (1 <= Player.readyState vid)%nat ->
        Player.committedTriplet (Player.endPreview s2)
        = Player.committedTriplet s0)
  /\ (forall s, Player.isPreviewingRef s = false -> Player.endPreview s = s)
  /\ Player.endPreview (Player.endPreview s2) = Player.endPreview s2.
Proof.
  intros Hprev Hplay Hvid Hac Hsrc Hurl s1 s2 s3.
  destruct (previewAt_enters s0 v0 c time Hprev Hplay Hvid Hac) as [Hp1 Hv1].
  fold s1 in Hp1, Hv1.
  pose proof (previewRun_keeps _ s0 c events s1 Hac Hp1) as Hp2. fold s2 in Hp2.
  assert (Htrip : Player.committedTriplet s0
                  = Some (Player.src v0, Player.currentTime v0,
                          Player.globalTimeDisplay s0)).
  { unfold Player.committedTriplet. now rewrite Hvid. }
  destruct (endPreview_restores
              (Player.mkRestore (Player.src v0) (Player.currentTime v0)
                 (Player.globalTimeDisplay s0))
              s0 s2 c Hac Hsrc Hurl Hp2)
    as [R1 [R2 [_ [R3 R4]]]].
  simpl in R3, R4.
  assert (Hidem : forall s, Player.isPreviewingRef s = false ->
                            Player.endPreview s = s).
  { intros s H. unfold Player.endPreview. now rewrite H. }
  split.
  { destruct Hp1 as [A [B _]]. split; assumption. }
  split.
  { destruct Hp1 as [_ [B1 _]]. destruct Hp2 as [A [B _]].
    split; [assumption | congruence]. }
  split.
  { split; [exact R1 |]. split; [exact R2 |]. rewrite Htrip. exact R3. }
  split.
  { intros vid Hv Hs Hr. rewrite Htrip. apply (R4 vid Hv Hs Hr). }
  split; [exact Hidem |].
  apply Hidem. apply endPreview_leaves.
Qed.

Lemma preview_restores_snapshot_witness :
  Player.committedTriplet
    (Player.loadedMetadata
       (Player.endPreview
          (Player.previewRun
             [Player.PreviewAt 3; Player.AnimationFrame; Player.PreviewAt 20;
              Player.AnimationFrame; Player.LoadedMetadata]
             (Player.previewAtGlobalTime 12 Player.scenarioState))))
  = Player.committedTriplet Player.scenarioState.
Proof.
  assert (Hurl : Types.url Sequence.clip1 <> EmptyString) by discriminate.
  destruct (preview_restores_snapshot Player.scenarioState
              (Player.mkVideo (Some "blob:c1"%string) 0 1 true [])
              (Sequence.mkEntry Sequence.clip1 0 (10 - 0) (0 + (10 - 0)))
              12
              [Player.PreviewAt 3; Player.AnimationFrame; Player.PreviewAt 20;
               Player.AnimationFrame; Player.LoadedMetadata]
              eq_refl eq_refl eq_refl eq_refl eq_refl Hurl)
    as [_ [_ [[_ [_ H]] _]]].
  exact H.
Defined.

(** ** Trim operations *)

Section Trim.
Import Num Types ClipItem.

Lemma fps_of_pos (c : Clip) : 0 < fps_of c.
Proof.
  unfold fps_of. simpl andb.
  destruct (gtb (fps c) 0) eqn:E; [now apply gtb_true in E | reflexivity].
Qed.

Lemma minDuration_bounds (c : Clip) :
  (1 # 10) <= minDuration c /\ oneFrame c <= minDuration c.
Proof.
  unfold minDuration, oneFrame. split; minmax.
Qed.

Lemma getTimeFromClientX_range (trackRef : option Rect) (duration clientX : Q) :
  0 <= duration ->
  0 <= getTimeFromClientX trackRef duration clientX <= duration.
Proof.
  intro Hd. unfold getTimeFromClientX.
  destruct trackRef as [rect |]; [| lra].
  destruct (gtb (width rect) 0).
  - set (r := (clientX - left rect) / width rect).
    assert (Hp : 0 <= clamp r 0 1 <= 1) by (split; minmax).
    destruct Hp as [P0 P1]. split.
    + apply Qmult_le_0_compat; assumption.
    + setoid_replace duration with (1 * duration) at 2 by ring.
      apply Qmult_le_compat_r; assumption.
  - lra.
Qed.

Lemma trimAmount_nonneg (trimFrames : Q) (c : Clip) :
  0 <= Math_max 1 (inject_Z (Math_round trimFrames)) / fps_of c.
Proof.
  apply Qle_shift_div_l; [apply fps_of_pos |].
  minmax.
Qed.

Lemma minDuration_spread (c : Clip) (u : ClipUpdates) :
  minDuration (spread c u) = minDuration c.
Proof. reflexivity. Qed.

Lemma trimDrag_keeps (edge : Edge) (trackRef : option Rect) (clientX : Q)
    (c : Clip) :
  trimmable c -> trimmable (trimDrag edge trackRef clientX c).
Proof.
  intros [H0 [H1 H2]].
  destruct (minDuration_bounds c) as [M1 _].
  unfold trimDrag, onMove.
  destruct (leb (originalDuration c) 0);
    [split; [| split]; assumption |].
  set (t := getTimeFromClientX trackRef (originalDuration c) clientX).
  destruct edge; unfold trimmable; rewrite minDuration_spread;
    remember (minDuration c) as m eqn:Hm; clear Hm;
    cbn [spread start end_ originalDuration upd_start upd_end];
    (split; [| split]); minmax.
Qed.

Lemma trimEnd_keeps (trimFrames : Q) (c : Clip) :
  trimmable c -> trimmable (trimEnd trimFrames c).
Proof.
  intros [H0 [H1 H2]].
  destruct (minDuration_bounds c) as [M1 _].
  pose proof (trimAmount_nonneg trimFrames c) as HA.
  unfold trimEnd, handleTrimEnd.
  set (a := Math_max 1 (inject_Z (Math_round trimFrames)) / fps_of c) in *.
  unfold trimmable. rewrite minDuration_spread.
  remember (minDuration c) as m eqn:Hm; clear Hm.
  cbn [spread start end_ originalDuration upd_start upd_end].
  (split; [| split]); minmax.
Qed.

Lemma trimmable_valid (c : Clip) :
  trimmable c -> validWindow c /\ oneFrame c <= end_ c - start c.
Proof.
  intros [H0 [H1 H2]].
  destruct (minDuration_bounds c) as [M1 M2].
  unfold validWindow. split; [split; [| split] |]; lra.
Qed.

Lemma batchTrimClip_keeps (c : Clip) :
  0 <= start c -> end_ c <= originalDuration c ->
  (1 # 10) <= end_ c - start c ->
  let c' := App.batchTrimClip c in
  validWindow c' /\ (1 # 10) <= end_ c' - start c'
  /\ (10 <= fps c' -> 1 / fps c' <= end_ c' - start c').
Proof.
  intros H0 H1 H2 c'. subst c'. unfold App.batchTrimClip, validWindow.
  simpl.
  assert (E : 18 / 60 == 3 # 10) by reflexivity.
  set (a := 18 / 60) in *.
  split; [split; [| split]; minmax |].
  split; [minmax |].
  intro Hf.
  assert (Hinv : 1 / fps c <= 1 # 10).
  { apply Qle_shift_div_r; lra. }
  minmax.
Qed.

End Trim.

(** C6.  The trim operations corrupt a clip that is shorter than the
    floor they clamp against, [minDuration], the larger of a tenth of a
    second and one frame.  The clip below, as an upload of a video of a
    twentieth of a second creates it, has a valid trim window of three
    frames at its rate of 60.  The Trim End button and Trim All set its
    end to 0.1, beyond the original duration 0.05, and a drag step on the
    start handle sets its start to -0.05, although that operation clamps
    against 0.  The drag on the end handle, which clamps against the
    original duration, keeps the end at 0.05. *)
Theorem trim_breaks_short_clip :
  ClipItem.validWindow ClipItem.shortClip
  /\ ClipItem.oneFrame ClipItem.shortClip
     <= Types.end_ ClipItem.shortClip - Types.start ClipItem.shortClip
  /\ ~ ClipItem.validWindow (ClipItem.trimEnd 18 ClipItem.shortClip)
  /\ Types.originalDuration (ClipItem.trimEnd 18 ClipItem.shortClip)
     < Types.end_ (ClipItem.trimEnd 18 ClipItem.shortClip)
  /\ Types.start (ClipItem.trimDrag ClipItem.EdgeStart
                    (Some ClipItem.track100) 50 ClipItem.shortClip) < 0
  /\ Types.originalDuration (App.batchTrimClip ClipItem.shortClip)
     < Types.end_ (App.batchTrimClip ClipItem.shortClip)
  /\ Types.end_ (ClipItem.trimEnd 18 ClipItem.shortClip) == 1 # 10
  /\ Types.end_ (App.batchTrimClip ClipItem.shortClip) == 1 # 10
  /\ Types.start (ClipItem.trimDrag ClipItem.EdgeStart
                    (Some ClipItem.track100) 50 ClipItem.shortClip)
     == - (1 # 20)
  /\ Types.end_ (ClipItem.trimDrag ClipItem.EdgeEnd
                   (Some ClipItem.track100) 100 ClipItem.shortClip)
     == Types.originalDuration ClipItem.shortClip.
Proof.
  split.
  { unfold ClipItem.validWindow. split; [| split]; vm_compute;
      solve [discriminate | reflexivity]. }
  split; [vm_compute; discriminate |].
  split.
  { intros [_ [_ H]]. vm_compute in H. apply H. reflexivity. }
  split; [vm_compute; reflexivity |].
  split; [vm_compute; reflexivity |].
  split; [vm_compute; reflexivity |].
  split; [vm_compute; reflexivity |].
  split; [vm_compute; reflexivity |].
  split; vm_compute; reflexivity.
Qed.

(** ** The thumbnail worker: coalescing of pointer positions *)

Section Coalescing.
Import Num Types Sequence TimelinePreview.

(** A pointer position that finds a loop alive only overwrites the
    cell. *)
Lemma update_running (s : State) (rect : ClipItem.Rect) (clientX : Q) :
  hasClips s = true ->
  areControlsVisible s = true ->
  timelineRef s = Some rect ->
  0 < ClipItem.width rect ->
  timelinePreviewWorkerRunningRef s = true ->
  untouched (updateTimelinePreviewFromClientX clientX s) = untouched s
  /\ timelinePreviewCaptureTimeRef (updateTimelinePreviewFromClientX clientX s)
     = requestedTimeOf s clientX.
Proof.
  intros Hc Hv Hr Hw Hrun.
  unfold updateTimelinePreviewFromClientX, requestedTimeOf.
  rewrite Hc, Hv, Hr. simpl negb. cbv iota.
  assert (L : leb (ClipItem.width rect) 0 = false) by now apply leb_false.
  assert (G : gtb (ClipItem.width rect) 0 = true) by now apply gtb_true.
  rewrite L, G. cbv zeta. simpl timelinePreviewWorkerRunningRef.
  rewrite Hrun. split; reflexivity.
Qed.










End Coalescing.

Section Burst.
Import Num Types Sequence TimelinePreview.







End Burst.




(* ================================================================== *)
(** * Part III: further properties of the engine and its surroundings *)
(* ================================================================== *)

(** ** Even export dimensions *)

Section ExportFacts.
Import Num Types ExportSettings.

Lemma toEven_spec (value : Q) :
  Z.even (toEven value) = true
  /\ (Math_round value <= toEven value <= Math_round value + 1)%Z.
Proof.
  unfold toEven. cbv zeta. set (v := Math_round value).
  rewrite Zrem_even.
  destruct (Z.even v) eqn:E.
  - simpl. rewrite E. split; [reflexivity | lia].
  - assert (Hs : Z.sgn v <> 0%Z).
    { intro H. apply (proj1 (Z.sgn_null_iff v)) in H. rewrite H in E.
      discriminate. }
    apply Z.eqb_neq in Hs. rewrite Hs.
    split; [| lia].
    rewrite Z.even_add, E. reflexivity.
Qed.

Lemma round_mono (x y : Q) : x <= y -> (Math_round x <= Math_round y)%Z.
Proof.
  intro H. unfold Math_round. apply Qfloor_resp_le. lra.
Qed.

Lemma round_Z (z : Z) : Math_round (inject_Z z) = z.
Proof.
  unfold Math_round. apply Qfloor_unique.
  - lra.
  - rewrite inject_Z_plus. change (inject_Z 1) with 1. lra.
Qed.

Lemma round_near (x : Q) :
  x - (1 # 2) <= inject_Z (Math_round x) /\ inject_Z (Math_round x) <= x + (1 # 2).
Proof.
  unfold Math_round.
  pose proof (Qfloor_le (x + (1 # 2))) as F1.
  pose proof (Qlt_floor (x + (1 # 2))) as F2.
  rewrite inject_Z_plus in F2. change (inject_Z 1) with 1 in F2.
  split; lra.
Qed.

Lemma toEven_above (base : Z) (x : Q) :
  Z.even base = true -> inject_Z base <= x ->
  toEven (inject_Z base) = base
  /\ (base <= toEven x)%Z
  /\ x - (1 # 2) <= inject_Z (toEven x) <= x + (3 # 2).
Proof.
  intros Hb Hx.
  destruct (toEven_spec x) as [_ [L U]].
  pose proof (round_mono _ _ Hx) as Hm. rewrite round_Z in Hm.
  destruct (round_near x) as [N1 N2].
  split.
  { unfold toEven. cbv zeta. rewrite round_Z, Zrem_even, Hb. reflexivity. }
  split; [lia |].
  assert (A : inject_Z (Math_round x) <= inject_Z (toEven x))
    by (rewrite <- Zle_Qle; exact L).
  assert (B : inject_Z (toEven x) <= inject_Z (Math_round x + 1))
    by (rewrite <- Zle_Qle; exact U).
  rewrite inject_Z_plus in B. change (inject_Z 1) with 1 in B.
  split; lra.
Qed.

End ExportFacts.

(** X1.  [toEven] returns an even integer, the rounded value or the next
    integer above it; so it is within one half below and three halves
    above its argument. *)
Theorem toEven_even_and_near (value : Q) :
  Z.even (ExportSettings.toEven value) = true
  /\ (Num.Math_round value <= ExportSettings.toEven value
      <= Num.Math_round value + 1)%Z
  /\ value - (1 # 2) <= inject_Z (ExportSettings.toEven value)
     <= value + (3 # 2).
Proof.
  destruct (toEven_spec value) as [E [L U]].
  destruct (round_near value) as [N1 N2].
  split; [exact E |]. split; [split; assumption |].
  assert (A : inject_Z (Num.Math_round value)
              <= inject_Z (ExportSettings.toEven value))
    by (rewrite <- Zle_Qle; exact L).
  assert (B : inject_Z (ExportSettings.toEven value)
              <= inject_Z (Num.Math_round value + 1))
    by (rewrite <- Zle_Qle; exact U).
  rewrite inject_Z_plus in B. change (inject_Z 1) with 1 in B.
  split; lra.
Qed.

(** X2.  [getExportDimensions] gives no size for ['auto'].  For 720p and
    1080p with a valid aspect ratio (both numbers positive) it gives two
    even sides, the shorter of which is exactly 720 or 1080, and the
    longer within 3/2 of the exact proportional length; with a missing or
    non-positive ratio number it gives the square of that base. *)
Theorem export_dimensions_short_side (resolution : ExportSettings.ExportResolution)
    (rW rH : Q) :
  0 < rW -> 0 < rH ->
  resolution <> ExportSettings.ResAuto ->
  let base := match resolution with
              | ExportSettings.Res720p => 720%Z
              | _ => 1080%Z
              end in
  (exists width height,
     ExportSettings.getExportDimensions resolution (Some rW) (Some rH)
     = Some (width, height)
     /\ Z.even width = true /\ Z.even height = true
     /\ Z.min width height = base
     /\ (rW <= rH ->
         width = base
         /\ inject_Z base * rH / rW - (1 # 2) <= inject_Z height
            <= inject_Z base * rH / rW + (3 # 2))
     /\ (rH < rW ->
         height = base
         /\ inject_Z base * rW / rH - (1 # 2) <= inject_Z width
            <= inject_Z base * rW / rH + (3 # 2)))
  /\ ExportSettings.getExportDimensions ExportSettings.ResAuto (Some rW) (Some rH)
     = None
  /\ ExportSettings.getExportDimensions resolution None (Some rH)
     = Some (base, base)
  /\ ExportSettings.getExportDimensions resolution (Some rW) None
     = Some (base, base)
  /\ ExportSettings.getExportDimensions resolution (Some 0) (Some rH)
     = Some (base, base).
Proof.
  intros HW HH Hres base.
  assert (Hbase : Z.even base = true)
    by (destruct resolution; reflexivity).
  assert (LW : Num.leb rW 0 = false) by now apply leb_false.
  assert (LH : Num.leb rH 0 = false) by now apply leb_false.
  split.
  - destruct (Qlt_le_dec rH rW) as [Hlt | Hle].
    + assert (L : Num.leb rW rH = false) by now apply leb_false.
      assert (Hx : inject_Z base <= inject_Z base * rW / rH).
      { apply Qle_shift_div_l; [exact HH |].
        assert (0 <= inject_Z base)
          by (destruct resolution; subst base; vm_compute; discriminate).
        nra. }
      destruct (toEven_above base _ Hbase Hx) as [T1 [T2 T3]].
      destruct (toEven_spec (inject_Z base * rW / rH)) as [E _].
      exists (ExportSettings.toEven (inject_Z base * rW / rH)), base.
      split.
      { destruct resolution; [congruence | |];
          unfold ExportSettings.getExportDimensions; rewrite LW, LH, L;
          simpl orb; cbv iota; fold base; rewrite T1; reflexivity. }
      split; [exact E |]. split; [exact Hbase |].
      split; [lia |].
      split; [intro; lra |].
      intros _. split; [reflexivity | exact T3].
    + assert (L : Num.leb rW rH = true) by now apply leb_true.
      assert (Hx : inject_Z base <= inject_Z base * rH / rW).
      { apply Qle_shift_div_l; [exact HW |].
        assert (0 <= inject_Z base)
          by (destruct resolution; subst base; vm_compute; discriminate).
        nra. }
      destruct (toEven_above base _ Hbase Hx) as [T1 [T2 T3]].
      destruct (toEven_spec (inject_Z base * rH / rW)) as [E _].
      exists base, (ExportSettings.toEven (inject_Z base * rH / rW)).
      split.
      { destruct resolution; [congruence | |];
          unfold ExportSettings.getExportDimensions; rewrite LW, LH, L;
          simpl orb; cbv iota; fold base; rewrite T1; reflexivity. }
      split; [exact Hbase |]. split; [exact E |].
      split; [lia |].
      split; [| intro; lra].
      intros _. split; [reflexivity | exact T3].
  - split; [reflexivity |].
    destruct resolution; [congruence | |]; repeat split; reflexivity.
Qed.

Lemma export_dimensions_short_side_witness :
  exists width height,
    ExportSettings.getExportDimensions ExportSettings.Res720p (Some 9) (Some 16)
    = Some (width, height)
    /\ Z.even width = true /\ Z.even height = true
    /\ Z.min width height = 720%Z.
Proof.
  assert (HW : 0 < 9) by reflexivity.
  assert (HH : 0 < 16) by reflexivity.
  assert (Hres : ExportSettings.Res720p <> ExportSettings.ResAuto)
    by discriminate.
  destruct (export_dimensions_short_side ExportSettings.Res720p 9 16 HW HH Hres)
    as [[width [height [H1 [H2 [H3 [H4 _]]]]]] _].
  exists width, height. repeat split; assumption.
Defined.

(** ** The player frame, the thumbnail and the drawn frame *)

Section LayoutFacts.
Import Num Layout.

(** [Math.round(n / 2) * 2] on an integer: the integer itself when even,
    the next one when odd. *)
Lemma round_half_twice (n : Z) :
  (Math_round (inject_Z n / 2) * 2)%Z = (n + n mod 2)%Z.
Proof.
  pose proof (Z.div_mod n 2 ltac:(lia)) as D.
  pose proof (Z.mod_pos_bound n 2 ltac:(lia)) as M.
  assert (E : inject_Z n == 2 * inject_Z (n / 2) + inject_Z (n mod 2)).
  { rewrite D at 1. rewrite inject_Z_plus, inject_Z_mult. reflexivity. }
  assert (Hhalf : inject_Z n / 2
                  == inject_Z (n / 2) + inject_Z (n mod 2) * (1 # 2))
    by (rewrite E; field).
  assert (R : (n mod 2 = 0 \/ n mod 2 = 1)%Z) by lia.
  assert (Hr : Math_round (inject_Z n / 2) = (n / 2 + n mod 2)%Z).
  { unfold Math_round. apply Qfloor_unique.
    - rewrite Hhalf, inject_Z_plus.
      destruct R as [R | R]; rewrite R;
        [change (inject_Z 0) with 0 | change (inject_Z 1) with 1]; lra.
    - rewrite Hhalf, !inject_Z_plus. change (inject_Z 1) with 1.
      destruct R as [R | R]; rewrite R;
        [change (inject_Z 0) with 0 | change (inject_Z 1) with 1]; lra. }
  rewrite Hr. lia.
Qed.

Lemma round_half_twice_even (n : Z) :
  Z.even (Math_round (inject_Z n / 2) * 2) = true
  /\ (n <= Math_round (inject_Z n / 2) * 2 <= n + 1)%Z.
Proof.
  rewrite round_half_twice.
  pose proof (Z.mod_pos_bound n 2 ltac:(lia)) as M.
  split; [| lia].
  rewrite Zmod_even. destruct (Z.even n) eqn:E.
  - now rewrite Z.add_0_r.
  - rewrite Z.even_add, E. reflexivity.
Qed.

Lemma round_bounds (x : Q) (lo hi : Z) :
  inject_Z lo <= x -> x <= inject_Z hi -> (lo <= Math_round x <= hi)%Z.
Proof.
  intros H1 H2. unfold Math_round. apply Qfloor_bounds.
  - lra.
  - rewrite inject_Z_plus. change (inject_Z 1) with 1. lra.
Qed.

End LayoutFacts.

(** X3.  For an aspect ratio of two positive numbers, both sides of the
    thumbnail are even.  For a landscape or square ratio the width is 200
    and the height lies between 0 and 200; for a portrait ratio the height
    is 160 and the width lies between 0 and 160.  The worker's canvas is
    twice that size on both sides. *)
Theorem thumbnail_size_even (rW rH : Q) :
  0 < rW -> 0 < rH ->
  exists width height,
    Layout.thumbSize rW rH = (width, height)
    /\ Z.even width = true /\ Z.even height = true
    /\ (rH <= rW -> width = 200%Z /\ (0 <= height <= 200)%Z)
    /\ (rW < rH -> height = 160%Z /\ (0 <= width <= 160)%Z)
    /\ Layout.canvasSize rW rH = ((width * 2)%Z, (height * 2)%Z).
Proof.
  intros HW HH.
  assert (Hr : 0 < rW / rH) by (apply Qlt_shift_div_l; [exact HH | lra]).
  unfold Layout.canvasSize, Layout.thumbSize. cbv zeta.
  destruct (Num.geb (rW / rH) 1) eqn:G.
  - apply geb_true in G.
    assert (Hge : rH <= rW).
    { apply (Qmult_le_r _ _ rH HH) in G.
      setoid_replace (rW / rH * rH) with rW in G by (field; lra). lra. }
    remember (rW / rH) as r eqn:Er. clear Er.
    set (h0 := Num.Math_round (200 / r)).
    assert (Hh0 : (0 <= h0 <= 200)%Z).
    { apply round_bounds.
      - apply Qle_shift_div_l; [exact Hr |]. change (inject_Z 0) with 0. lra.
      - apply Qle_shift_div_r; [exact Hr |]. change (inject_Z 200) with 200.
        lra. }
    destruct (round_half_twice_even 200) as [E1 _].
    destruct (round_half_twice_even h0) as [E2 B2].
    pose proof (round_half_twice h0) as Hh.
    eexists. eexists. split; [reflexivity |].
    split; [exact E1 |]. split; [exact E2 |].
    split.
    { intros _. split; [vm_compute; reflexivity |].
      split; [lia |].
      destruct (Z.eq_dec h0 200) as [-> | Hne]; [vm_compute; discriminate | lia]. }
    split; [intro; lra | reflexivity].
  - apply geb_false in G.
    assert (Hlt : rW < rH).
    { apply (Qmult_lt_r _ _ rH HH) in G.
      setoid_replace (rW / rH * rH) with rW in G by (field; lra). lra. }
    remember (rW / rH) as r eqn:Er. clear Er.
    set (w0 := Num.Math_round (160 * r)).
    assert (Hw0 : (0 <= w0 <= 160)%Z).
    { apply round_bounds.
      - change (inject_Z 0) with 0. nra.
      - change (inject_Z 160) with 160. nra. }
    destruct (round_half_twice_even 160) as [E1 _].
    destruct (round_half_twice_even w0) as [E2 B2].
    eexists. eexists. split; [reflexivity |].
    split; [exact E2 |]. split; [exact E1 |].
    split; [intro; lra |].
    split; [| reflexivity].
    intros _. split; [vm_compute; reflexivity |].
    split; [lia |].
    destruct (Z.eq_dec w0 160) as [-> | Hne]; [vm_compute; discriminate | lia].
Qed.

Lemma thumbnail_size_even_witness :
  exists width height,
    Layout.thumbSize 9 16 = (width, height)
    /\ Z.even width = true /\ Z.even height = true.
Proof.
  assert (HW : 0 < 9) by reflexivity.
  assert (HH : 0 < 16) by reflexivity.
  destruct (thumbnail_size_even 9 16 HW HH)
    as [width [height [H1 [H2 [H3 _]]]]].
  exists width, height. repeat split; assumption.
Defined.

Section FrameFacts.
Import Num Layout.

Lemma Qeq_bool_false (a : Q) : ~ a == 0 -> Qeq_bool a 0 = false.
Proof.
  intro H. destruct (Qeq_bool a 0) eqn:E; [| reflexivity].
  apply Qeq_bool_iff in E. contradiction.
Qed.

Lemma orElse_pos (a b : Q) : 0 <= a -> 0 < b -> 0 < orElse a b.
Proof.
  intros Ha Hb. unfold orElse. destruct (Qeq_bool a 0) eqn:E; [exact Hb |].
  apply Qeq_bool_neq in E. lra.
Qed.

(** Fitting a frame of ratio [r] into a box: by width first, then
    constrained by height. *)
Lemma fit_by_width (W H r : Q) :
  0 < W -> 0 < r ->
  let h := W / r in
  0 < h /\ W == h * r
  /\ (H < h -> H * r < W).
Proof.
  intros HW Hr h.
  assert (E : h * r == W) by (subst h; field; lra).
  assert (Hh : 0 < h) by (subst h; apply Qlt_shift_div_l; lra).
  split; [exact Hh |]. split; [now rewrite E |].
  intro Hlt. nra.
Qed.

Lemma half_sign (x : Q) : 0 <= x -> 0 <= x / 2.
Proof.
  intro H. apply Qle_shift_div_l; [reflexivity | lra].
Qed.

Lemma half_sign_neg (x : Q) : x <= 0 -> x / 2 <= 0.
Proof.
  intro H. apply Qle_shift_div_r; [reflexivity | lra].
Qed.

End FrameFacts.

(** X4.  With a measured container, a title bar height that is not
    negative and an aspect ratio of two positive numbers, [wrapperStyle]
    is a size in pixels with exactly the requested ratio, no wider than
    the container and, when some height is left under the title bar, no
    higher than that height.  Without measurement it is 100% by 100%.  In
    fullscreen the frame has the requested ratio and fits the viewport in
    both directions; outside fullscreen it is the wrapper's size. *)
Theorem frame_fits_with_ratio (containerWidth containerHeight titleBarHeight
    rW rH : Q) (viewport : Q * Q) (innerWidth innerHeight : Q) :
  0 < containerWidth -> 0 < containerHeight -> 0 <= titleBarHeight ->
  0 < rW -> 0 < rH ->
  0 <= fst viewport -> 0 <= snd viewport -> 0 < innerWidth -> 0 < innerHeight ->
  let availableHeight :=
    Num.Math_max 0
      (containerHeight
       - (if Num.gtb titleBarHeight 0 then titleBarHeight + 8 else 0)) in
  let wrapper :=
    Layout.wrapperStyle containerWidth containerHeight titleBarHeight rW rH in
  (exists width height,
     wrapper = Layout.Pixels width height
     /\ 0 < width <= containerWidth /\ 0 < height
     /\ width == height * (rW / rH)
     /\ (0 < availableHeight -> height <= availableHeight))
  /\ Layout.wrapperStyle 0 containerHeight titleBarHeight rW rH
     = Layout.Percent100
  /\ Layout.wrapperStyle containerWidth 0 titleBarHeight rW rH
     = Layout.Percent100
  /\ (exists width height,
        Layout.fullscreenFrameStyle true wrapper viewport innerWidth
          innerHeight rW rH = Layout.Pixels width height
        /\ 0 < width <= Layout.orElse (fst viewport) innerWidth
        /\ 0 < height <= Layout.orElse (snd viewport) innerHeight
        /\ width == height * (rW / rH))
  /\ Layout.fullscreenFrameStyle false wrapper viewport innerWidth innerHeight
       rW rH = wrapper.
Proof.
  intros HW HH HT HrW HrH Hv1 Hv2 Hi1 Hi2 availableHeight wrapper.
  assert (Hr : 0 < rW / rH) by (apply Qlt_shift_div_l; [exact HrH | lra]).
  split.
  - subst wrapper. unfold Layout.wrapperStyle.
    rewrite (Qeq_bool_false containerWidth) by lra.
    rewrite (Qeq_bool_false containerHeight) by lra.
    simpl orb. cbv iota. cbv zeta. fold availableHeight.
    remember (rW / rH) as r eqn:Er. clear Er.
    destruct (fit_by_width containerWidth availableHeight r HW Hr)
      as [Hh [Hq Hfit]].
    destruct (Num.gtb availableHeight 0) eqn:G1; simpl andb.
    + apply gtb_true in G1.
      destruct (Num.gtb (containerWidth / r) availableHeight) eqn:G2.
      * apply gtb_true in G2. specialize (Hfit G2).
        exists (availableHeight * r), availableHeight.
        split; [reflexivity |].
        split; [split; [nra | lra] |].
        split; [exact G1 |]. split; [reflexivity |]. intro; lra.
      * apply gtb_false in G2.
        exists containerWidth, (containerWidth / r).
        split; [reflexivity |].
        split; [split; lra |]. split; [exact Hh |].
        split; [exact Hq |]. intro; exact G2.
    + apply gtb_false in G1.
      exists containerWidth, (containerWidth / r).
      split; [reflexivity |].
      split; [split; lra |]. split; [exact Hh |].
      split; [exact Hq |]. intro; lra.
  - split; [reflexivity |].
    split.
    { unfold Layout.wrapperStyle.
      destruct (Qeq_bool containerWidth 0); reflexivity. }
    split; [| reflexivity].
    unfold Layout.fullscreenFrameStyle. simpl negb. cbv iota. cbv zeta.
    pose proof (orElse_pos _ _ Hv1 Hi1) as P1.
    pose proof (orElse_pos _ _ Hv2 Hi2) as P2.
    remember (Layout.orElse (fst viewport) innerWidth) as vw eqn:E1. clear E1.
    remember (Layout.orElse (snd viewport) innerHeight) as vh eqn:E2. clear E2.
    remember (rW / rH) as r eqn:Er. clear Er.
    destruct (fit_by_width vw vh r P1 Hr) as [Hh [Hq Hfit]].
    destruct (Num.gtb (vw / r) vh) eqn:G.
    + apply gtb_true in G. specialize (Hfit G).
      exists (vh * r), vh. split; [reflexivity |].
      split; [split; [nra | lra] |].
      split; [split; lra |]. reflexivity.
    + apply gtb_false in G.
      exists vw, (vw / r). split; [reflexivity |].
      split; [split; lra |]. split; [split; assumption |]. exact Hq.
Qed.

Lemma frame_fits_with_ratio_witness :
  exists width height,
    Layout.wrapperStyle 800 600 40 16 9 = Layout.Pixels width height
    /\ 0 < width <= 800 /\ 0 < height
    /\ width == height * (16 / 9).
Proof.
  assert (H1 : 0 < 800) by reflexivity.
  assert (H2 : 0 < 600) by reflexivity.
  assert (H3 : 0 <= 40) by (vm_compute; discriminate).
  assert (H4 : 0 < 16) by reflexivity.
  assert (H5 : 0 < 9) by reflexivity.
  assert (H6 : 0 <= fst (0, 0)) by (vm_compute; discriminate).
  assert (H7 : 0 <= snd (0, 0)) by (vm_compute; discriminate).
  assert (H8 : 0 < 1920) by reflexivity.
  assert (H9 : 0 < 1080) by reflexivity.
  destruct (frame_fits_with_ratio 800 600 40 16 9 (0, 0) 1920 1080
              H1 H2 H3 H4 H5 H6 H7 H8 H9)
    as [[width [height [A [B [C [D _]]]]]] _].
  exists width, height. repeat split; try assumption; apply B.
Defined.

(** X5.  On a canvas of positive size, with the video's intrinsic size
    taken as the canvas size where it is still zero, the drawn rectangle
    keeps the video's aspect ratio and is centred.  In contain mode it
    lies inside the canvas and touches it in one direction at least; in
    cover mode it covers the canvas and matches it in one direction at
    least. *)
Theorem draw_rect_contain_cover (canvasWidth canvasHeight videoWidth
    videoHeight : Q) :
  0 < canvasWidth -> 0 < canvasHeight -> 0 <= videoWidth -> 0 <= videoHeight ->
  let vw := Layout.orElse videoWidth canvasWidth in
  let vh := Layout.orElse videoHeight canvasHeight in
  let inside :=
    Layout.drawRect Layout.Contain canvasWidth canvasHeight videoWidth
      videoHeight in
  let over :=
    Layout.drawRect Layout.Cover canvasWidth canvasHeight videoWidth
      videoHeight in
  (Layout.drawW inside * vh == Layout.drawH inside * vw
   /\ Layout.drawW inside <= canvasWidth /\ Layout.drawH inside <= canvasHeight
   /\ (Layout.drawW inside == canvasWidth \/ Layout.drawH inside == canvasHeight)
   /\ 0 <= Layout.dx inside /\ 0 <= Layout.dy inside
   /\ Layout.dx inside + Layout.drawW inside + Layout.dx inside == canvasWidth
   /\ Layout.dy inside + Layout.drawH inside + Layout.dy inside == canvasHeight)
  /\ (Layout.drawW over * vh == Layout.drawH over * vw
      /\ canvasWidth <= Layout.drawW over /\ canvasHeight <= Layout.drawH over
      /\ (Layout.drawW over == canvasWidth \/ Layout.drawH over == canvasHeight)
      /\ Layout.dx over <= 0 /\ Layout.dy over <= 0
      /\ Layout.dx over + Layout.drawW over + Layout.dx over == canvasWidth
      /\ Layout.dy over + Layout.drawH over + Layout.dy over == canvasHeight).
Proof.
  intros HW HH Hvw Hvh vw vh inside over.
  pose proof (orElse_pos _ _ Hvw HW) as Pw. fold vw in Pw.
  pose proof (orElse_pos _ _ Hvh HH) as Ph. fold vh in Ph.
  assert (Ea : vw * (canvasWidth / vw) == canvasWidth) by (field; lra).
  assert (Eb : vh * (canvasHeight / vh) == canvasHeight) by (field; lra).
  subst inside over. unfold Layout.drawRect. fold vw. fold vh. cbv zeta.
  clearbody vw vh.
  remember (canvasWidth / vw) as a eqn:Ha. clear Ha.
  remember (canvasHeight / vh) as b eqn:Hb. clear Hb.
  cbn [Layout.drawW Layout.drawH Layout.dx Layout.dy].
  split.
  - destruct (Math_min_cases a b) as [[Hc E] | [Hc E]]; rewrite E.
    + assert (D1 : vh * a <= canvasHeight) by nra.
      split; [ring |].
      remember (vw * a) as p eqn:Hp. remember (vh * a) as q eqn:Hq.
      clear Hp Hq.
      split; [lra |]. split; [exact D1 |]. split; [left; exact Ea |].
      split; [apply half_sign; lra |]. split; [apply half_sign; lra |].
      split; field.
    + assert (D1 : vw * b <= canvasWidth) by nra.
      split; [ring |].
      remember (vw * b) as p eqn:Hp. remember (vh * b) as q eqn:Hq.
      clear Hp Hq.
      split; [exact D1 |]. split; [lra |]. split; [right; exact Eb |].
      split; [apply half_sign; lra |]. split; [apply half_sign; lra |].
      split; field.
  - destruct (Math_max_cases a b) as [[Hc E] | [Hc E]]; rewrite E.
    + assert (D1 : canvasWidth <= vw * b) by nra.
      split; [ring |].
      remember (vw * b) as p eqn:Hp. remember (vh * b) as q eqn:Hq.
      clear Hp Hq.
      split; [exact D1 |]. split; [lra |]. split; [right; exact Eb |].
      split; [apply half_sign_neg; lra |]. split; [apply half_sign_neg; lra |].
      split; field.
    + assert (D1 : canvasHeight <= vh * a) by nra.
      split; [ring |].
      remember (vw * a) as p eqn:Hp. remember (vh * a) as q eqn:Hq.
      clear Hp Hq.
      split; [lra |]. split; [exact D1 |]. split; [left; exact Ea |].
      split; [apply half_sign_neg; lra |]. split; [apply half_sign_neg; lra |].
      split; field.
Qed.

Lemma draw_rect_contain_cover_witness :
  Layout.drawW (Layout.drawRect Layout.Contain 400 320 1920 1080) <= 400
  /\ 320 <= Layout.drawH (Layout.drawRect Layout.Cover 400 320 1920 1080).
Proof.
  assert (H1 : 0 < 400) by reflexivity.
  assert (H2 : 0 < 320) by reflexivity.
  assert (H3 : 0 <= 1920) by (vm_compute; discriminate).
  assert (H4 : 0 <= 1080) by (vm_compute; discriminate).
  destruct (draw_rect_contain_cover 400 320 1920 1080 H1 H2 H3 H4)
    as [[_ [A _]] [_ [_ [B _]]]].
  split; assumption.
Defined.

(** ** The export frame rate *)

Section FpsFacts.
Import Num Types ExportSettings.

Lemma maxFps_from_bounds (clips : list Clip) : forall m,
  m <= maxFps_from m clips
  /\ (forall c, In c clips -> fps c <= maxFps_from m clips).
Proof.
  induction clips as [| c rest IH]; intro m; simpl.
  - split; [lra | intros c []].
  - destruct (IH (Math_max m (fps c))) as [I1 I2].
    split.
    + revert I1. minmax.
    + intros x [<- | Hx]; [| now apply I2].
      revert I1. minmax.
Qed.

End FpsFacts.

(** X6.  The frame rate handed to the encoder is always positive: a
    fixed setting is 24, 30 or 60, and the automatic one is the highest
    rate among the clips, or 60 when no clip has a positive rate (in
    particular for an empty list); it is never below a clip's rate.  The
    player's own project rate has no such fallback and is 0 for an empty
    list. *)
Theorem export_fps_positive (configFps : ExportSettings.ExportFps)
    (clips : list Types.Clip) :
  0 < ExportSettings.exportFps configFps clips
  /\ (forall c, In c clips ->
        Types.fps c <= ExportSettings.exportFps ExportSettings.FpsAuto clips)
  /\ ((forall c, In c clips -> Types.fps c <= 0) ->
      ExportSettings.exportFps ExportSettings.FpsAuto clips = 60)
  /\ ExportSettings.playerProjectFps [] = 0.
Proof.
  destruct (maxFps_from_bounds clips 0) as [B1 B2].
  assert (Hauto : 0 < ExportSettings.projectFps clips
                  /\ forall c, In c clips ->
                       Types.fps c <= ExportSettings.projectFps clips).
  { unfold ExportSettings.projectFps, Layout.orElse.
    destruct (Qeq_bool (ExportSettings.maxFps_from 0 clips) 0) eqn:E.
    - apply Qeq_bool_iff in E. split; [reflexivity |].
      intros c Hc. specialize (B2 c Hc). lra.
    - apply Qeq_bool_neq in E. split; [lra | exact B2]. }
  split.
  { destruct configFps; simpl; try reflexivity. apply Hauto. }
  split; [apply Hauto |].
  split; [| reflexivity].
  intro Hall. simpl. unfold ExportSettings.projectFps, Layout.orElse.
  assert (Hz : ExportSettings.maxFps_from 0 clips == 0).
  { clear B1 B2 Hauto.
    assert (G : forall m, m == 0 -> ExportSettings.maxFps_from m clips == 0).
    { induction clips as [| c rest IH]; intros m Hm; simpl; [exact Hm |].
      apply IH.
      - intros x Hx. apply Hall. now right.
      - pose proof (Hall c (or_introl eq_refl)). minmax. }
    apply G. reflexivity. }
  apply Qeq_bool_iff in Hz. now rewrite Hz.
Qed.

(** ** Audio *)

(** X7.  At a volume that is not negative, [toggleMute] flips whether
    sound comes out: an audible player becomes muted, and a player that
    is muted or at volume zero becomes unmuted at a positive volume (1
    when the volume was zero, the unchanged volume otherwise).  Moving
    the volume slider above zero always unmutes. *)
Theorem toggleMute_flips_audibility (s : Audio.State) (newVol : Q) :
  0 <= Audio.volume s ->
  (Audio.audible (Audio.toggleMute s) <-> ~ Audio.audible s)
  /\ 0 <= Audio.volume (Audio.toggleMute s)
  /\ (~ Audio.volume s == 0 ->
      Audio.volume (Audio.toggleMute s) = Audio.volume s)
  /\ (0 < newVol -> Audio.audible (Audio.handleVolumeChange newVol s)).
Proof.
  intro Hv. destruct s as [v m]. simpl in Hv.
  unfold Audio.audible, Audio.toggleMute, Audio.handleVolumeChange. simpl.
  destruct (Qeq_bool v 0) eqn:E.
  - apply Qeq_bool_iff in E. rewrite orb_true_r. simpl.
    split.
    { split.
      - intros _ [_ H]. lra.
      - intros _. split; reflexivity. }
    split; [lra |]. split; [intro; contradiction |].
    intro Hn. assert (G : Num.gtb newVol 0 = true) by now apply gtb_true.
    rewrite G. destruct m; simpl; split; (reflexivity || assumption).
  - apply Qeq_bool_neq in E. rewrite orb_false_r.
    destruct m; simpl.
    + split.
      { split.
        - intros _ [H _]. discriminate.
        - intros _. split; [reflexivity | lra]. }
      split; [exact Hv |]. split; [reflexivity |].
      intro Hn. assert (G : Num.gtb newVol 0 = true) by now apply gtb_true.
      rewrite G. simpl. split; [reflexivity | assumption].
    + split.
      { split.
        - intros [H _]. discriminate.
        - intro H. exfalso. apply H. split; [reflexivity | lra]. }
      split; [exact Hv |]. split; [reflexivity |].
      intro Hn. rewrite andb_false_r. split; [reflexivity | assumption].
Qed.

Lemma toggleMute_flips_audibility_witness :
  0 <= Audio.volume (Audio.mkAudio 0 false)
  /\ Audio.audible (Audio.toggleMute (Audio.mkAudio 0 false)).
Proof.
  assert (H : 0 <= Audio.volume (Audio.mkAudio 0 false))
    by (vm_compute; discriminate).
  split; [exact H |].
  destruct (toggleMute_flips_audibility (Audio.mkAudio 0 false) 1 H)
    as [[_ Hflip] _].
  apply Hflip. intros [_ Hpos]. vm_compute in Hpos. discriminate.
Defined.

(** ** Scrubbing on the timeline *)

(** X8.  With a timeline of positive width and a total duration that is
    not negative, the time [calcTime] computes for a pointer position lies
    in [0, totalDuration]: 0 at or left of the timeline's left edge, the
    total duration at or right of its right edge.  The commit seek
    therefore takes it as it is, without clamping. *)
Theorem scrub_time_in_range (rect : ClipItem.Rect) (s : Player.State)
    (clientX : Q) :
  0 < ClipItem.width rect ->
  0 <= Sequence.totalDuration (Player.sequenceOf s) ->
  let total := Sequence.totalDuration (Player.sequenceOf s) in
  let t := Layout.calcTime (Some rect) total clientX in
  0 <= t <= total
  /\ (clientX <= ClipItem.left rect -> t == 0)
  /\ (ClipItem.left rect + ClipItem.width rect <= clientX -> t == total)
  /\ Sequence.seekTime (Player.sequenceOf s) t = t
  /\ Player.globalTimeDisplay (Player.seekToGlobalTime t s) = t
  /\ Layout.calcTime None total clientX = 0.
Proof.
  intros Hw Htot total t.
  assert (Hrange : 0 <= t <= total
                   /\ (clientX <= ClipItem.left rect -> t == 0)
                   /\ (ClipItem.left rect + ClipItem.width rect <= clientX ->
                       t == total)).
  { subst t. unfold Layout.calcTime. cbv zeta.
    set (x := clientX - ClipItem.left rect).
    assert (Hq : x / ClipItem.width rect * ClipItem.width rect == x)
      by (field; lra).
    remember (x / ClipItem.width rect) as q eqn:Eq. clear Eq.
    fold total. change (0 <= total) in Htot. clearbody total.
    split; [| split].
    - split; minmax; nra.
    - intro Hle. assert (Hx : x <= 0) by (subst x; lra).
      assert (Hq0 : q <= 0) by nra.
      minmax; nra.
    - intro Hge. assert (Hx : ClipItem.width rect <= x) by (subst x; lra).
      assert (Hq1 : 1 <= q) by nra.
      minmax; nra. }
  destruct Hrange as [Hb [H0 H1]].
  destruct (seekTime_bounds (Player.sequenceOf s) t Htot) as [_ [Hid _]].
  assert (Hseek : Sequence.seekTime (Player.sequenceOf s) t = t)
    by (apply Hid; exact Hb).
  split; [exact Hb |]. split; [exact H0 |]. split; [exact H1 |].
  split; [exact Hseek |].
  split; [| reflexivity].
  rewrite <- Hseek at 2.
  unfold Player.seekToGlobalTime. cbv zeta.
  change (Player.sequenceOf (Player.setGlobalTimeDisplay _ s))
    with (Player.sequenceOf s).
  destruct (Sequence.targetClip _ _) as [e |]; [| reflexivity].
  destruct (negb _); [reflexivity |].
  unfold Player.seekVideo. simpl.
  destruct (Player.videoRef s); reflexivity.
Qed.

Lemma scrub_time_in_range_witness :
  0 <= Layout.calcTime (Some (ClipItem.mkRect 0 230))
         (Sequence.totalDuration (Player.sequenceOf Player.scenarioState)) 500
    <= Sequence.totalDuration (Player.sequenceOf Player.scenarioState).
Proof.
  assert (Hw : 0 < ClipItem.width (ClipItem.mkRect 0 230)) by reflexivity.
  assert (Ht : 0 <= Sequence.totalDuration
                      (Player.sequenceOf Player.scenarioState))
    by (vm_compute; discriminate).
  exact (proj1 (scrub_time_in_range (ClipItem.mkRect 0 230)
                  Player.scenarioState 500 Hw Ht)).
Defined.

(** ** The clip list: selection, reordering and updates *)

Section ClipListFacts.
Import Num Types ClipList.

Lemma skipn_after (l1 l2 : list Clip) (item : Clip) :
  skipn (S (List.length l1)) (l1 ++ item :: l2) = l2.
Proof.
  induction l1 as [| x l1 IH]; [reflexivity | exact IH].
Qed.

Lemma removeAt_insertAt_perm (l : list Clip) (i j : nat) (item : Clip) :
  nth_error l i = Some item ->
  Permutation l (insertAt j item (removeAt i l)).
Proof.
  intro H. unfold insertAt, removeAt.
  set (r := firstn i l ++ skipn (S i) l).
  apply Permutation_trans with (item :: r).
  - destruct (nth_error_split l i H) as [l1 [l2 [E Hlen]]].
    subst r. subst l. subst i.
    rewrite firstn_app, firstn_all, Nat.sub_diag, firstn_O, app_nil_r.
    rewrite skipn_after. symmetry. apply Permutation_middle.
  - rewrite <- (firstn_skipn j r) at 1. apply Permutation_middle.
Qed.

Lemma handleDragEnd_perm (i j : option nat) (l : list Clip) :
  Permutation l (handleDragEnd i j l).
Proof.
  unfold handleDragEnd.
  destruct i as [i |]; [| reflexivity].
  destruct j as [j |]; [| reflexivity].
  destruct (negb (Nat.eqb i j)); [| reflexivity].
  destruct (nth_error l i) as [item |] eqn:E; [| reflexivity].
  now apply removeAt_insertAt_perm.
Qed.

Lemma ids_update (i : string) (u : ClipUpdates) (l : list Clip) :
  map id (App.handleUpdateClip i u l) = map id l.
Proof.
  unfold App.handleUpdateClip. rewrite map_map. apply map_ext.
  intro c. destruct (String.eqb (id c) i); reflexivity.
Qed.

Lemma ids_batch (l : list Clip) : map id (App.handleBatchTrim l) = map id l.
Proof.
  unfold App.handleBatchTrim. rewrite map_map. apply map_ext.
  intro c. reflexivity.
Qed.

Lemma ids_metadata (i : string) (d : Q) (l : list Clip) :
  map id (map (fun c =>
                 if String.eqb (id c) i
                 then mkClip (id c) (url c) (name c) d (start c) d (fps c)
                             (isSelected c)
                 else c) l)
  = map id l.
Proof.
  rewrite map_map. apply map_ext.
  intro c. destruct (String.eqb (id c) i); reflexivity.
Qed.

Lemma selection_step (m : Model) (a : Action) :
  selection_ok m -> names_listed m a -> selection_ok (step m a).
Proof.
  intros Hok Hn. unfold selection_ok in *.
  destruct m as [cl sel]. simpl in *.
  destruct a as [files | i d | first | i | i | di dj | i u |]; simpl in *.
  - unfold handleFileUpload. simpl.
    destruct (cl ++ map newClip files) as [| first rest] eqn:E; simpl.
    + apply app_eq_nil in E. destruct E as [E1 _]. subst cl.
      destruct sel as [x |]; [destruct Hok | reflexivity].
    + destruct (falsy sel) eqn:F; cbn [selectedClipId clips].
      * now left.
      * destruct sel as [x |]; [| discriminate].
        rewrite <- E, map_app. apply in_or_app. now left.
  - destruct sel as [x |].
    + now rewrite ids_metadata.
    + now subst cl.
  - destruct (falsy sel); simpl; [exact Hn | exact Hok].
  - unfold handleDeleteClip. simpl.
    destruct sel as [x |].
    + destruct (String.eqb x i) eqn:E; simpl.
      * destruct (filter _ cl) as [| first rest]; simpl; [reflexivity | now left].
      * apply String.eqb_neq in E.
        apply in_map_iff in Hok. destruct Hok as [c [Hc Hin]].
        apply in_map_iff. exists c. split; [exact Hc |].
        apply filter_In. split; [exact Hin |].
        apply negb_true_iff, String.eqb_neq. congruence.
    + simpl. now subst cl.
  - exact Hn.
  - pose proof (handleDragEnd_perm di dj cl) as P.
    destruct sel as [x |].
    + eapply Permutation_in; [| exact Hok]. now apply Permutation_map.
    + subst cl. apply Permutation_nil in P. exact P.
  - destruct sel as [x |].
    + now rewrite ids_update.
    + now subst cl.
  - destruct sel as [x |].
    + now rewrite ids_batch.
    + now subst cl.
Qed.

Lemma selection_run (actions : list Action) : forall m,
  selection_ok m -> all_listed m actions -> selection_ok (run actions m).
Proof.
  induction actions as [| a rest IH]; intros m Hok Hall; simpl; [exact Hok |].
  destruct Hall as [Ha Hrest].
  apply IH; [now apply selection_step | exact Hrest].
Qed.

Lemma find_listed_id (i : string) (clips : list Clip) : forall acc,
  In i (map id clips) ->
  exists e, find (Sequence.id_is (Some i)) (Sequence.map_from acc clips) = Some e.
Proof.
  induction clips as [| c rest IH]; intros acc Hin; [destruct Hin |].
  simpl. destruct (String.eqb (id c) i) eqn:E.
  - eexists; reflexivity.
  - destruct Hin as [Hc | Hin]; [| now apply IH].
    apply String.eqb_neq in E. congruence.
Qed.

End ClipListFacts.

(** X9.  The selection never dangles.  Starting from the empty list with
    no selection, after any run of uploads, metadata loads, deletions,
    reorderings, clip updates, batch trims and selections, where each
    selection (also the one an upload defers until the metadata is loaded)
    names a clip still in the list at that moment, the selected identifier
    is that of a listed clip, or there is no selection and no clip.  The
    player then has an active clip whenever the list is not empty. *)
Theorem selection_never_dangles (actions : list ClipList.Action) :
  ClipList.all_listed ClipList.initial actions ->
  let m := ClipList.run actions ClipList.initial in
  ClipList.selection_ok m
  /\ (ClipList.clips m <> [] ->
      exists e,
        Sequence.activeClip (Sequence.sequence (ClipList.clips m))
          (ClipList.selectedClipId m) = Some e).
Proof.
  intros Hall m.
  assert (Hok : ClipList.selection_ok m).
  { apply selection_run; [reflexivity | exact Hall]. }
  split; [exact Hok |].
  intro Hne. unfold ClipList.selection_ok in Hok.
  destruct (ClipList.selectedClipId m) as [i |]; [| contradiction].
  rewrite activeClip_find. unfold Sequence.sequence.
  now apply find_listed_id.
Qed.

Lemma selection_never_dangles_witness :
  ClipList.selection_ok
    (ClipList.run
       [ClipList.Upload ClipList.twoFiles; ClipList.MetadataLoaded "a" 10;
        ClipList.Delete "a"; ClipList.Reorder (Some 0%nat) (Some 0%nat)]
       ClipList.initial).
Proof.
  assert (H : ClipList.all_listed ClipList.initial
                [ClipList.Upload ClipList.twoFiles;
                 ClipList.MetadataLoaded "a" 10;
                 ClipList.Delete "a";
                 ClipList.Reorder (Some 0%nat) (Some 0%nat)])
    by (simpl; repeat split).
  exact (proj1 (selection_never_dangles _ H)).
Defined.

(** The side condition matters: a selection deferred at upload that fires
    after its clip was deleted selects a clip that no longer exists. *)
Remark deferred_selection_can_dangle :
  ~ ClipList.selection_ok
      (ClipList.run
         [ClipList.Upload [("a"%string, "blob:a"%string, "a.mp4"%string)];
          ClipList.Delete "a"; ClipList.DeferredSelect "a"]
         ClipList.initial).
Proof.
  vm_compute. intros [].
Qed.

Section ReorderFacts.
Import Num Types Sequence ClipList.

Lemma sum_durations_perm (l l' : list Clip) :
  Permutation l l' -> sum_durations l == sum_durations l'.
Proof.
  induction 1 as [| x l l' _ IH | x y l | l l' l'' _ IH1 _ IH2]; simpl.
  - reflexivity.
  - rewrite IH. reflexivity.
  - ring.
  - rewrite IH1. exact IH2.
Qed.

Lemma totalDuration_sum (l : list Clip) :
  totalDuration (sequence l) == sum_durations l.
Proof.
  destruct l as [| c rest]; [reflexivity |].
  unfold sequence. rewrite totalDuration_map_from by discriminate. ring.
Qed.

Lemma insertAt_nth (j : nat) (item : Clip) (l : list Clip) :
  (j <= List.length l)%nat -> nth_error (insertAt j item l) j = Some item.
Proof.
  intro H. unfold insertAt.
  rewrite nth_error_app2 by (rewrite length_firstn; lia).
  rewrite length_firstn, Nat.min_l by exact H.
  now rewrite Nat.sub_diag.
Qed.

Lemma removeAt_length (i : nat) (l : list Clip) :
  (i < List.length l)%nat -> List.length (removeAt i l) = (List.length l - 1)%nat.
Proof.
  intro H. unfold removeAt.
  rewrite length_app, length_firstn, length_skipn. lia.
Qed.

End ReorderFacts.

(** X10.  Dropping the dragged clip on another rendered clip moves it to
    that clip's index: the new list is a permutation of the old one, of
    the same length, with the dragged clip at the drop index, and the
    total duration of the sequence is unchanged.  Dropping a clip on
    itself, or ending a drag without a source or a target, changes
    nothing. *)
Theorem reorder_moves_one_clip (clips : list Types.Clip) (i j : nat)
    (item : Types.Clip) :
  nth_error clips i = Some item ->
  (j < List.length clips)%nat ->
  i <> j ->
  let moved := ClipList.handleDragEnd (Some i) (Some j) clips in
  Permutation clips moved
  /\ List.length moved = List.length clips
  /\ nth_error moved j = Some item
  /\ Sequence.totalDuration (Sequence.sequence moved)
     == Sequence.totalDuration (Sequence.sequence clips)
  /\ ClipList.handleDragEnd (Some i) (Some i) clips = clips
  /\ ClipList.handleDragEnd None (Some j) clips = clips
  /\ ClipList.handleDragEnd (Some i) None clips = clips.
Proof.
  intros Hi Hj Hne moved.
  assert (Hlen : (i < List.length clips)%nat)
    by (apply nth_error_Some; congruence).
  pose proof (handleDragEnd_perm (Some i) (Some j) clips) as P. fold moved in P.
  assert (Hm : moved = ClipList.insertAt j item (ClipList.removeAt i clips)).
  { subst moved. unfold ClipList.handleDragEnd.
    apply Nat.eqb_neq in Hne. rewrite Hne, Hi. reflexivity. }
  split; [exact P |].
  split; [symmetry; now apply Permutation_length |].
  split.
  { rewrite Hm. apply insertAt_nth. rewrite removeAt_length by exact Hlen. lia. }
  split.
  { rewrite !totalDuration_sum. symmetry. now apply sum_durations_perm. }
  split.
  { unfold ClipList.handleDragEnd. now rewrite Nat.eqb_refl. }
  split; reflexivity.
Qed.

Lemma reorder_moves_one_clip_witness :
  nth_error (ClipList.handleDragEnd (Some 0%nat) (Some 2%nat)
               Sequence.threeClips) 2
  = Some Sequence.clip1.
Proof.
  assert (Hj : (2 < List.length Sequence.threeClips)%nat)
    by (simpl; repeat constructor).
  assert (Hne : 0%nat <> 2%nat) by discriminate.
  destruct (reorder_moves_one_clip Sequence.threeClips 0 2 Sequence.clip1
              eq_refl Hj Hne) as [_ [_ [H _]]].
  exact H.
Defined.

Section UpdateFacts.
Import Num Types Sequence.

(** Two runs of the sequence map over the same clips, from origins that
    differ by [d], differ by [d] at every entry. *)
Lemma map_from_shift (clips : list Clip) : forall acc acc' d k e e',
  acc' == acc + d ->
  nth_error (map_from acc clips) k = Some e ->
  nth_error (map_from acc' clips) k = Some e' ->
  clip e' = clip e
  /\ sequenceStart e' == sequenceStart e + d
  /\ sequenceEnd e' == sequenceEnd e + d.
Proof.
  induction clips as [| c rest IH]; intros acc acc' d k e e' Hd He He'.
  - destruct k; discriminate.
  - destruct k as [| k]; simpl in He, He'.
    + inversion He; inversion He'; subst; simpl.
      split; [reflexivity |]. split; lra.
    + eapply (IH (acc + (end_ c - start c)) (acc' + (end_ c - start c)) d);
        [lra | eassumption | eassumption].
Qed.

Lemma update_miss (i : string) (u : ClipUpdates) (l : list Clip) :
  (forall c, In c l -> id c <> i) -> App.handleUpdateClip i u l = l.
Proof.
  intro H. unfold App.handleUpdateClip.
  induction l as [| c rest IH]; [reflexivity |].
  simpl. assert (E : String.eqb (id c) i = false)
    by (apply String.eqb_neq, H; now left).
  rewrite E, IH; [reflexivity |].
  intros x Hx. apply H. now right.
Qed.

Lemma map_from_app_nth (l1 : list Clip) : forall acc l2 l2' k,
  (k < List.length l1)%nat ->
  nth_error (map_from acc (l1 ++ l2)) k = nth_error (map_from acc (l1 ++ l2')) k.
Proof.
  induction l1 as [| c rest IH]; intros acc l2 l2' k Hk; [simpl in Hk; lia |].
  destruct k as [| k]; simpl; [reflexivity |].
  apply IH. simpl in Hk. lia.
Qed.

Lemma map_from_after (l1 : list Clip) : forall acc,
  exists origin,
    origin == acc + sum_durations l1
    /\ forall l2 k,
         nth_error (map_from acc (l1 ++ l2)) (List.length l1 + k)
         = nth_error (map_from origin l2) k.
Proof.
  induction l1 as [| c rest IH]; intro acc.
  - exists acc. split; [simpl; lra | reflexivity].
  - destruct (IH (acc + (end_ c - start c))) as [o [Ho Hn]].
    exists o. split; [simpl; lra | exact Hn].
Qed.

End UpdateFacts.

(** X11.  Updating the trim window of the one clip that has a given
    identifier leaves every earlier entry of the sequence as it was, keeps
    the updated clip's own start on the global timeline, and moves every
    later entry by the change of that clip's trimmed length, clip
    unchanged; the total duration changes by the same amount.  An update
    for an identifier that no clip has changes nothing. *)
Theorem update_shifts_later_entries (before after : list Types.Clip)
    (c : Types.Clip) (updates : Types.ClipUpdates) :
  (forall x, In x before -> Types.id x <> Types.id c) ->
  (forall x, In x after -> Types.id x <> Types.id c) ->
  let clips := before ++ c :: after in
  let c' := Types.spread c updates in
  let updated := App.handleUpdateClip (Types.id c) updates clips in
  let delta := (Types.end_ c' - Types.start c')
               - (Types.end_ c - Types.start c) in
  updated = before ++ c' :: after
  /\ (forall k, (k < List.length before)%nat ->
        nth_error (Sequence.sequence updated) k
        = nth_error (Sequence.sequence clips) k)
  /\ (forall e e',
        nth_error (Sequence.sequence clips) (List.length before) = Some e ->
        nth_error (Sequence.sequence updated) (List.length before) = Some e' ->
        Sequence.sequenceStart e' = Sequence.sequenceStart e
        /\ Sequence.clip e' = c')
  /\ (forall k e e', (List.length before < k)%nat ->
        nth_error (Sequence.sequence clips) k = Some e ->
        nth_error (Sequence.sequence updated) k = Some e' ->
        Sequence.clip e' = Sequence.clip e
        /\ Sequence.sequenceStart e' == Sequence.sequenceStart e + delta
        /\ Sequence.sequenceEnd e' == Sequence.sequenceEnd e + delta)
  /\ Sequence.totalDuration (Sequence.sequence updated)
     == Sequence.totalDuration (Sequence.sequence clips) + delta
  /\ (forall l i, (forall x, In x l -> Types.id x <> i) ->
        App.handleUpdateClip i updates l = l).
Proof.
  intros Hb Ha clips c' updated delta.
  assert (Hu : updated = before ++ c' :: after).
  { subst updated clips. unfold App.handleUpdateClip.
    rewrite map_app. simpl. rewrite String.eqb_refl.
    fold (App.handleUpdateClip (Types.id c) updates before).
    fold (App.handleUpdateClip (Types.id c) updates after).
    rewrite (update_miss _ _ before Hb), (update_miss _ _ after Ha).
    reflexivity. }
  split; [exact Hu |].
  split.
  { intros k Hk. rewrite Hu. unfold Sequence.sequence. subst clips.
    now apply map_from_app_nth. }
  split.
  { intros e e' He He'. rewrite Hu in He'. unfold Sequence.sequence in *.
    subst clips.
    destruct (map_from_after before 0) as [o [Ho Hn]].
    pose proof (Hn (c :: after) 0%nat) as N1.
    pose proof (Hn (c' :: after) 0%nat) as N2.
    rewrite Nat.add_0_r in N1, N2.
    rewrite N1 in He. rewrite N2 in He'.
    simpl in He, He'. inversion He; inversion He'; subst; simpl.
    split; reflexivity. }
  split.
  { intros k e e' Hk He He'. rewrite Hu in He'. unfold Sequence.sequence in *.
    subst clips.
    replace k with (List.length before + S (k - List.length before - 1))%nat
      in He, He' by lia.
    destruct (map_from_after before 0) as [o [Ho Hn]].
    rewrite Hn in He. rewrite Hn in He'. simpl in He, He'.
    eapply (map_from_shift after _ _ delta); [| exact He | exact He'].
    unfold delta, c'. simpl. ring. }
  split.
  { rewrite Hu. rewrite !totalDuration_sum. subst clips delta.
    clear. induction before as [| b rest IH]; simpl in *; lra. }
  intros l i Hl. now apply update_miss.
Qed.

Lemma update_shifts_later_entries_witness :
  App.handleUpdateClip "c2" (Types.mkUpdates None (Some 3)) Sequence.threeClips
  = [Sequence.clip1] ++
    Types.spread Sequence.clip2 (Types.mkUpdates None (Some 3))
    :: [Sequence.clip3].
Proof.
  assert (Hb : forall x, In x [Sequence.clip1] ->
                 Types.id x <> Types.id Sequence.clip2).
  { intros x [<- | []]. discriminate. }
  assert (Ha : forall x, In x [Sequence.clip3] ->
                 Types.id x <> Types.id Sequence.clip2).
  { intros x [<- | []]. discriminate. }
  exact (proj1 (update_shifts_later_entries [Sequence.clip1] [Sequence.clip3]
                  Sequence.clip2 (Types.mkUpdates None (Some 3)) Hb Ha)).
Defined.

(** ** Transport controls *)

Section TransportFacts.
Import Num Types Sequence Player Transport.

Lemma activeClip_index (seq : list SequenceEntry) (a : option string)
    (e : SequenceEntry) :
  activeClip seq a = Some e -> exists k, activeClipIndex seq a = Some k.
Proof.
  unfold activeClip. destruct (activeClipIndex seq a) as [k |];
    [intros _; now exists k | discriminate].
Qed.

Lemma handleTimeUpdate_inside (s : State) (vid : Video) (e : SequenceEntry) :
  isPreviewingRef s = false ->
  videoRef s = Some vid ->
  activeClip (sequenceOf s) (activeClipId s) = Some e ->
  currentTime vid < end_ (clip e) ->
  activeClipId (handleTimeUpdate s) = activeClipId s
  /\ videoRef (handleTimeUpdate s) = Some vid
  /\ reportedTime (handleTimeUpdate s) = currentTime vid
  /\ (isScrubbing s = false ->
      globalTimeDisplay (handleTimeUpdate s)
      = sequenceStart e + (currentTime vid - start (clip e)))
  /\ (isScrubbing s = true ->
      globalTimeDisplay (handleTimeUpdate s) = globalTimeDisplay s).
Proof.
  intros Hp Hv Ha Hlt.
  destruct (activeClip_index _ _ _ Ha) as [k Hk].
  unfold handleTimeUpdate. rewrite Hp, Hv, Ha, Hk.
  assert (G : geb (currentTime vid) (end_ (clip e)) = false)
    by now apply geb_false.
  rewrite G. simpl andb. cbv iota.
  destruct (isScrubbing s); simpl;
    repeat split; try reflexivity; try assumption; intro; discriminate.
Qed.

End TransportFacts.

(** X12.  With a surface and an active clip whose trimmed start lies
    before its trimmed end, [play] starts playback on the same source; it
    keeps the local time when that is before the trimmed end and moves it
    to the trimmed start when it is at or past the end.  The next time
    update therefore stays on the same clip instead of advancing to the
    next one.  A click on the surface of a paused player does the same, a
    click on a playing one pauses at the current time, and [play] without
    a surface changes nothing. *)
Theorem play_restarts_at_trimmed_end (s : Player.State) (vid : Player.Video)
    (e : Sequence.SequenceEntry) :
  Player.videoRef s = Some vid ->
  Sequence.activeClip (Player.sequenceOf s) (Player.activeClipId s) = Some e ->
  Types.start (Sequence.clip e) < Types.end_ (Sequence.clip e) ->
  Player.isPreviewingRef s = false ->
  let s' := Transport.play s in
  (exists vid',
     Player.videoRef s' = Some vid'
     /\ Player.paused vid' = false
     /\ Player.src vid' = Player.src vid
     /\ (Player.currentTime vid < Types.end_ (Sequence.clip e) ->
         Player.currentTime vid' = Player.currentTime vid)
     /\ (Types.end_ (Sequence.clip e) <= Player.currentTime vid ->
         Player.currentTime vid' = Types.start (Sequence.clip e))
     /\ Player.currentTime vid' < Types.end_ (Sequence.clip e))
  /\ Player.isPlaying s' = true
  /\ Player.activeClipId (Player.handleTimeUpdate s') = Player.activeClipId s
  /\ (Player.isPlaying s = false -> Transport.togglePlay s = s')
  /\ (Player.isPlaying s = true ->
      exists vid',
        Player.videoRef (Transport.togglePlay s) = Some vid'
        /\ Player.paused vid' = true
        /\ Player.currentTime vid' = Player.currentTime vid
        /\ Player.isPlaying (Transport.togglePlay s) = false)
  /\ (forall s0, Player.videoRef s0 = None -> Transport.play s0 = s0).
Proof.
  intros Hv Ha Hlt Hp s'.
  assert (Hs' : s' = Player.with_isPlaying true
                  (Player.with_videoRef
                     (Some (Player.video_play
                        (if Num.geb (Player.currentTime vid)
                                    (Types.end_ (Sequence.clip e))
                         then Player.set_currentTime
                                (Types.start (Sequence.clip e)) vid
                         else vid))) s)).
  { subst s'. unfold Transport.play. now rewrite Hv, Ha. }
  assert (Hvid : exists vid',
     Player.videoRef s' = Some vid'
     /\ Player.paused vid' = false
     /\ Player.src vid' = Player.src vid
     /\ (Player.currentTime vid < Types.end_ (Sequence.clip e) ->
         Player.currentTime vid' = Player.currentTime vid)
     /\ (Types.end_ (Sequence.clip e) <= Player.currentTime vid ->
         Player.currentTime vid' = Types.start (Sequence.clip e))
     /\ Player.currentTime vid' < Types.end_ (Sequence.clip e)).
  { rewrite Hs'. eexists. split; [reflexivity |].
    destruct (Num.geb (Player.currentTime vid) (Types.end_ (Sequence.clip e)))
      eqn:G; simpl.
    - apply geb_true in G.
      split; [reflexivity |]. split; [reflexivity |].
      split; [intro; lra |]. split; [reflexivity | exact Hlt].
    - apply geb_false in G.
      split; [reflexivity |]. split; [reflexivity |].
      split; [reflexivity |]. split; [intro; lra | exact G]. }
  split; [exact Hvid |].
  split; [rewrite Hs'; reflexivity |].
  split.
  { destruct Hvid as [vid' [Hv' [_ [_ [_ [_ Hin]]]]]].
    destruct (handleTimeUpdate_inside s' vid' e) as [H _]; try assumption.
    - rewrite Hs'. exact Hp.
    - rewrite Hs'. exact Ha.
    - rewrite H, Hs'. reflexivity. }
  split.
  { intro Hplay. rewrite Hs'. unfold Transport.togglePlay.
    now rewrite Hv, Ha, Hplay. }
  split.
  { intro Hplay. unfold Transport.togglePlay. rewrite Hv, Ha, Hplay.
    eexists. simpl. repeat split; reflexivity. }
  intros s0 H0. unfold Transport.play. now rewrite H0.
Qed.

Lemma play_restarts_at_trimmed_end_witness :
  Player.activeClipId
    (Player.handleTimeUpdate
       (Transport.play
          (Player.with_isPlaying false Player.scenarioAtEnd)))
  = Some "c1"%string.
Proof.
  assert (Hlt : Types.start Sequence.clip1 < Types.end_ Sequence.clip1)
    by reflexivity.
  destruct (play_restarts_at_trimmed_end
              (Player.with_isPlaying false Player.scenarioAtEnd)
              (Player.mkVideo (Some "blob:c1"%string) 10 1 false [])
              (Sequence.mkEntry Sequence.clip1 0 (10 - 0) (0 + (10 - 0)))
              eq_refl eq_refl Hlt eq_refl) as [_ [_ [H _]]].
  exact H.
Defined.

Section SamplerFacts.
Import Num Types Sequence Player Transport.

Lemma tick_sampler (now : Q) (s : State) (sm : Sampler) :
  snd (tick now (s, sm)) = sm
  \/ (lastEmit sm + 33 <= now
      /\ snd (tick now (s, sm)) = mkSampler now (emitted sm ++ [now])).
Proof.
  unfold tick.
  destruct (videoRef s) as [vid |]; [| now left].
  destruct (activeClip _ _) as [c |]; [| now left].
  destruct (negb (isPreviewingRef s)); [| now left].
  destruct (geb (now - lastEmit sm) 33) eqn:G; [| now left].
  right. apply geb_true in G. split; [lra | reflexivity].
Qed.

(** A frame changes neither the clips, nor the active clip, nor whether
    the player plays. *)
Lemma tick_deps (now : Q) (s : State) (sm : Sampler) :
  deps (fst (tick now (s, sm))) = deps s.
Proof.
  unfold tick.
  destruct (videoRef s) as [vid |]; [| reflexivity].
  destruct (activeClip _ _) as [c |] eqn:Ha; [| reflexivity].
  destruct (negb (isPreviewingRef s)); [| reflexivity].
  destruct (negb (isScrubbing s)); destruct (geb _ 33); reflexivity.
Qed.

Lemma same_deps_refl (d : bool * bool) : same_deps d d = true.
Proof.
  destruct d as [[|] [|]]; reflexivity.
Qed.

Lemma last_default (l : list Q) (a d d' : Q) :
  List.last (a :: l) d = List.last (a :: l) d'.
Proof.
  revert a. induction l as [| b rest IH]; intro a; [reflexivity |].
  change (List.last (b :: rest) d = List.last (b :: rest) d'). apply IH.
Qed.

Lemma spaced_app (last : Q) (l : list Q) (t : Q) :
  spaced last l -> List.last l last + 33 <= t -> spaced last (l ++ [t]).
Proof.
  revert last. induction l as [| x rest IH]; intros last Hs Ht.
  - simpl in *. split; [exact Ht | exact I].
  - destruct Hs as [H1 H2]. split; [exact H1 |].
    apply IH; [exact H2 |].
    destruct rest as [| q rest']; [exact Ht |].
    rewrite (last_default rest' q x last). exact Ht.
Qed.

(** Within one run of the effect: the calls made since the run began
    are [sofar], the loop's [lastEmit] is the last of them (or the
    [first] it started from), and events that keep the dependencies add
    calls that stay spaced. *)
Lemma run_spaced (events : list Event) :
  forall (s : State) (l : FrameLoop) (first : Q) (before sofar : list Q),
    Forall keeps_deps events ->
    ranWith l = deps s ->
    calls l = before ++ sofar ->
    (forall le, live l = Some le -> le = List.last sofar first) ->
    (live l = None -> sofar = []) ->
    spaced first sofar ->
    exists new,
      calls (snd (run events (s, l))) = before ++ sofar ++ new
      /\ spaced first (sofar ++ new)
      /\ (live l = None -> new = []).
Proof.
  induction events as [| e rest IH];
    intros s l first before sofar Hk Hd Hc Hl Hn Hs.
  - exists []. simpl. rewrite app_nil_r. auto.
  - inversion Hk as [| ? ? He Hrest]; subst.
    change (run (e :: rest) (s, l)) with (run rest (step (s, l) e)).
    destruct e as [now | f].
    + change (step (s, l) (Frame now)) with (frame now (s, l)).
      unfold frame. destruct (live l) as [le |] eqn:El.
      * pose proof (tick_sampler now s (mkSampler le (calls l))) as Hcase.
        pose proof (tick_deps now s (mkSampler le (calls l))) as Hdeps.
        destruct (tick now (s, mkSampler le (calls l))) as [s1 sm].
        simpl in Hcase, Hdeps.
        assert (Hd1 : ranWith l = deps s1) by (rewrite Hdeps; exact Hd).
        destruct Hcase as [Hsame | [Hgap Hnew]]; subst sm.
        -- assert (P1 : forall le0,
                     live (mkFrameLoop (ranWith l) (Some le) (calls l))
                     = Some le0 -> le0 = List.last sofar first).
           { intros le0 E. simpl in E. injection E as <-.
             now apply Hl. }
           assert (P2 : live (mkFrameLoop (ranWith l) (Some le) (calls l))
                        = None -> sofar = []) by discriminate.
           destruct (IH s1 (mkFrameLoop (ranWith l) (Some le) (calls l))
                        first before sofar Hrest Hd1 Hc P1 P2 Hs)
             as [new [E1 [E2 _]]].
           exists new. split; [exact E1 |]. split; [exact E2 |].
           discriminate.
        -- assert (P0 : calls (mkFrameLoop (ranWith l) (Some now)
                                 (calls l ++ [now]))
                        = before ++ (sofar ++ [now])).
           { simpl. rewrite Hc. now rewrite app_assoc. }
           assert (P1 : forall le0,
                     live (mkFrameLoop (ranWith l) (Some now)
                             (calls l ++ [now]))
                     = Some le0 -> le0 = List.last (sofar ++ [now]) first).
           { intros le0 E. simpl in E. injection E as <-.
             now rewrite last_last. }
           assert (P2 : live (mkFrameLoop (ranWith l) (Some now)
                                (calls l ++ [now]))
                        = None -> sofar ++ [now] = []) by discriminate.
           assert (P3 : spaced first (sofar ++ [now])).
           { apply spaced_app; [exact Hs |].
             rewrite <- (Hl le eq_refl). exact Hgap. }
           destruct (IH s1 (mkFrameLoop (ranWith l) (Some now)
                              (calls l ++ [now]))
                        first before (sofar ++ [now]) Hrest Hd1 P0 P1 P2 P3)
             as [new [E1 [E2 _]]].
           exists (now :: new). rewrite <- app_assoc in E1, E2.
           split; [exact E1 |]. split; [exact E2 |]. discriminate.
      * assert (P1 : forall le0, live l = Some le0 ->
                       le0 = List.last sofar first)
          by (intros le0 E; rewrite El in E; discriminate).
        assert (P2 : live l = None -> sofar = [])
          by (intros _; now apply Hn).
        destruct (IH s l first before sofar Hrest Hd Hc P1 P2 Hs)
          as [new [E1 [E2 E3]]].
        exists new. split; [exact E1 |]. split; [exact E2 |].
        intros _. now apply E3.
    + change (step (s, l) (Change f)) with (f s, render (f s) l).
      simpl in He.
      assert (Hr : render (f s) l = l).
      { unfold render. rewrite (He s), <- Hd. now rewrite same_deps_refl. }
      rewrite Hr.
      apply (IH (f s) l first before sofar Hrest); try assumption.
      rewrite (He s). exact Hd.
Qed.

End SamplerFacts.

(** X13.  Within one run of the frame-loop effect, that is as long as
    nothing changes whether the player has clips and whether it plays,
    the sampler rate-limits its notifications: two successive
    [onTimeUpdate] calls are at least 33 milliseconds apart and the first
    one comes at frame time 33 or later, whatever else happens to the
    player between the frames; a run without clips or on a paused player
    makes no call.  Every run of the effect starts its [lastEmit] at 0
    again, so the limit does not hold across runs: a pause and a play
    between two frames 10 milliseconds apart let both frames call
    [onTimeUpdate].  While a preview is on a frame changes nothing at
    all, and while the user scrubs it leaves the shown position alone. *)
Theorem sampler_rate_limited (events : list Transport.Event)
    (s : Player.State) (calls0 : list Q) :
  Forall Transport.keeps_deps events ->
  let st := Transport.run events (s, Transport.runEffect s calls0) in
  (exists new,
     Transport.calls (snd st) = calls0 ++ new
     /\ Transport.spaced 0 new
     /\ (Player.hasClips s && Player.isPlaying s = false -> new = []))
  /\ Transport.calls
       (snd (Transport.run
               [Transport.Frame 1000; Transport.Change Transport.pause;
                Transport.Change Transport.play; Transport.Frame 1010]
               (Transport.mount Player.scenarioAtEnd)))
     = [1000; 1010]
  /\ (forall now s0 sm, Player.isPreviewingRef s0 = true ->
        Transport.tick now (s0, sm) = (s0, sm))
  /\ (forall now s0 sm, Player.isScrubbing s0 = true ->
        Player.globalTimeDisplay (fst (Transport.tick now (s0, sm)))
        = Player.globalTimeDisplay s0).
Proof.
  intros Hk st.
  split.
  { destruct (run_spaced events s (Transport.runEffect s calls0) 0 calls0 []
                Hk eq_refl) as [new [E1 [E2 E3]]].
    - simpl. now rewrite app_nil_r.
    - simpl. intros le Hle.
      destruct (negb (Player.hasClips s)); [discriminate |].
      destruct (negb (Player.isPlaying s)); [discriminate |].
      now injection Hle as <-.
    - reflexivity.
    - exact I.
    - exists new. fold st in E1. simpl in E1, E2.
      split; [exact E1 |]. split; [exact E2 |].
      intro Hoff. apply E3. simpl.
      destruct (Player.hasClips s); [| reflexivity].
      destruct (Player.isPlaying s); [discriminate | reflexivity]. }
  split; [vm_compute; reflexivity |].
  split.
  - intros now s0 sm Hp. unfold Transport.tick. rewrite Hp.
    destruct (Player.videoRef s0); [| reflexivity].
    destruct (Sequence.activeClip _ _); reflexivity.
  - intros now s0 sm Hsc. unfold Transport.tick. rewrite Hsc.
    destruct (Player.videoRef s0); [| reflexivity].
    destruct (Sequence.activeClip _ _); [| reflexivity].
    destruct (negb _); [| reflexivity].
    simpl. destruct (Num.geb _ 33); reflexivity.
Qed.

Lemma sampler_rate_limited_witness :
  exists new,
    Transport.calls
      (snd (Transport.run
              [Transport.Frame 40;
               Transport.Change (Player.setGlobalTimeDisplay 3);
               Transport.Frame 50; Transport.Frame 80]
              (Player.scenarioAtEnd,
               Transport.runEffect Player.scenarioAtEnd [])))
    = [] ++ new
    /\ Transport.spaced 0 new.
Proof.
  assert (Hk : Forall Transport.keeps_deps
                 [Transport.Frame 40;
                  Transport.Change (Player.setGlobalTimeDisplay 3);
                  Transport.Frame 50; Transport.Frame 80]).
  { repeat constructor. }
  destruct (sampler_rate_limited
              [Transport.Frame 40;
               Transport.Change (Player.setGlobalTimeDisplay 3);
               Transport.Frame 50; Transport.Frame 80]
              Player.scenarioAtEnd [] Hk) as [[new [E1 [E2 _]]] _].
  exists new. split; [exact E1 | exact E2].
Defined.

(** ** Trim sessions of a clip item *)

Section TrimSessionFacts.
Import Num Types ClipItem TrimSession.

Lemma scheduleAll_applied (updates : list ClipUpdates) : forall s,
  applied (scheduleAll updates s) = applied s.
Proof.
  unfold scheduleAll.
  induction updates as [| u rest IH]; intro s; [reflexivity |].
  simpl. rewrite IH. unfold scheduleUpdate. simpl.
  destruct (rafRef s); reflexivity.
Qed.

Lemma scheduleUpdate_pending (u : ClipUpdates) (s : Scheduler) :
  scheduleUpdate u s = mkScheduler (Some u) true (applied s).
Proof.
  unfold scheduleUpdate. simpl. destruct (rafRef s); reflexivity.
Qed.

Lemma scheduleAll_snoc (updates : list ClipUpdates) (u : ClipUpdates)
    (s : Scheduler) :
  scheduleAll (updates ++ [u]) s = scheduleUpdate u (scheduleAll updates s).
Proof.
  unfold scheduleAll. now rewrite fold_left_app.
Qed.

Lemma reset_keeps (c : Clip) :
  trimmable c -> trimmable (spread c (handleReset c)).
Proof.
  intros [H0 [H1 H2]]. unfold trimmable. rewrite minDuration_spread.
  remember (minDuration c) as m eqn:Hm; clear Hm.
  cbn [handleReset spread start end_ originalDuration upd_start upd_end].
  split; [lra | split; lra].
Qed.

Lemma minDuration_fast (c : Clip) :
  10 <= fps_of c -> minDuration c == 1 # 10.
Proof.
  intro Hf. unfold minDuration.
  assert (Hinv : 1 / fps_of c <= 1 # 10).
  { apply Qle_shift_div_r; lra. }
  minmax.
Qed.

Lemma batch_keeps (c : Clip) :
  10 <= fps_of c -> trimmable c -> trimmable (App.batchTrimClip c).
Proof.
  intros Hf [H0 [H1 H2]].
  pose proof (minDuration_fast c Hf) as Hm.
  unfold trimmable, App.batchTrimClip. rewrite minDuration_spread.
  remember (minDuration c) as m eqn:Em; clear Em.
  cbn [spread start end_ originalDuration upd_start upd_end].
  assert (E : 18 / 60 == 3 # 10) by reflexivity.
  set (a := 18 / 60) in *.
  split; [| split]; minmax.
Qed.

Lemma applyOp_fps (c : Clip) (op : TrimOp) :
  fps_of (applyOp c op) = fps_of c
  /\ id (applyOp c op) = id c
  /\ originalDuration (applyOp c op) = originalDuration c.
Proof.
  destruct op as [edge trackRef clientX | trimFrames | |]; simpl.
  - unfold trimDrag. destruct (onMove edge trackRef c clientX);
      repeat split; reflexivity.
  - repeat split; reflexivity.
  - repeat split; reflexivity.
  - repeat split; reflexivity.
Qed.

End TrimSessionFacts.

(** X14.  Updates scheduled between two animation frames coalesce: after
    any number of [scheduleUpdate] calls, the frame callback hands exactly
    the last update to [onUpdateClip], none of the earlier ones, and leaves
    nothing scheduled; a further frame hands over nothing more. *)
Theorem trim_updates_coalesce (updates : list Types.ClipUpdates)
    (u : Types.ClipUpdates) (s : TrimSession.Scheduler) :
  let s1 := TrimSession.scheduleAll (updates ++ [u]) s in
  TrimSession.applied s1 = TrimSession.applied s
  /\ TrimSession.frame s1
     = TrimSession.mkScheduler None false (TrimSession.applied s ++ [u])
  /\ TrimSession.frame (TrimSession.frame s1) = TrimSession.frame s1.
Proof.
  intro s1.
  assert (E : s1 = TrimSession.mkScheduler (Some u) true (TrimSession.applied s)).
  { subst s1. rewrite scheduleAll_snoc, scheduleUpdate_pending.
    now rewrite (scheduleAll_applied updates s). }
  rewrite E. simpl. repeat split; reflexivity.
Qed.

(** X15.  A clip whose trim window is valid and at least [minDuration]
    long, with a frame rate of at least 10 per second, keeps such a window
    through every sequence of handle drags, Trim End clicks, resets and
    Trim All runs; its identifier and original duration never change. *)
Theorem trim_session_keeps_window (ops : list TrimSession.TrimOp)
    (c : Types.Clip) :
  ClipItem.trimmable c ->
  10 <= ClipItem.fps_of c ->
  let c' := TrimSession.applyOps ops c in
  ClipItem.trimmable c' /\ ClipItem.validWindow c'
  /\ ClipItem.oneFrame c' <= Types.end_ c' - Types.start c'
  /\ Types.id c' = Types.id c
  /\ Types.originalDuration c' = Types.originalDuration c.
Proof.
  intros Ht Hf c'. subst c'. unfold TrimSession.applyOps.
  revert c Ht Hf. induction ops as [| op rest IH]; intros c Ht Hf.
  - simpl. split; [exact Ht |].
    destruct (trimmable_valid c Ht) as [A B]. auto.
  - simpl.
    destruct (applyOp_fps c op) as [F [I D]].
    assert (Ht' : ClipItem.trimmable (TrimSession.applyOp c op)).
    { destruct op as [edge trackRef clientX | trimFrames | |]; simpl.
      - now apply trimDrag_keeps.
      - now apply trimEnd_keeps.
      - now apply reset_keeps.
      - now apply batch_keeps. }
    assert (Hf' : 10 <= ClipItem.fps_of (TrimSession.applyOp c op))
      by (rewrite F; exact Hf).
    destruct (IH _ Ht' Hf') as [A [B [C [E G]]]].
    split; [exact A |]. split; [exact B |]. split; [exact C |].
    split; [now rewrite E | now rewrite G].
Qed.

Lemma trim_session_keeps_window_witness :
  ClipItem.validWindow
    (TrimSession.applyOps
       [TrimSession.Drag ClipItem.EdgeStart (Some ClipItem.track100) 99;
        TrimSession.TrimAll; TrimSession.Reset;
        TrimSession.TrimEndButton 18]
       ClipItem.oneSecondClip).
Proof.
  assert (H : ClipItem.trimmable ClipItem.oneSecondClip)
    by (unfold ClipItem.trimmable; split; [| split]; vm_compute; discriminate).
  assert (F : 10 <= ClipItem.fps_of ClipItem.oneSecondClip)
    by (vm_compute; discriminate).
  destruct (trim_session_keeps_window
              [TrimSession.Drag ClipItem.EdgeStart (Some ClipItem.track100) 99;
               TrimSession.TrimAll; TrimSession.Reset;
               TrimSession.TrimEndButton 18]
              ClipItem.oneSecondClip H F) as [_ [V _]].
  exact V.
Defined.

(** ** Windows of the sequence and clicks on a clip's track *)

Section WindowFacts.
Import Num Types Sequence.

Lemma entries_ordered (clips : list Clip) : forall acc i j e e',
  Forall (fun c => start c <= end_ c) clips ->
  nth_error (map_from acc clips) i = Some e ->
  nth_error (map_from acc clips) j = Some e' ->
  (i < j)%nat ->
  sequenceEnd e <= sequenceStart e'.
Proof.
  induction clips as [| c rest IH]; intros acc i j e e' Hpos Hi Hj Hlt.
  - destruct i; discriminate.
  - inversion Hpos as [| ? ? Hc Hrest]; subst.
    destruct j as [| j]; [lia |].
    destruct i as [| i]; simpl in Hi, Hj.
    + inversion Hi; subst; simpl.
      apply nth_error_In in Hj.
      destruct (entry_bounds rest _ _ Hrest Hj) as [B _]. exact B.
    + apply (IH _ i j e e' Hrest Hi Hj). lia.
Qed.

Lemma find_in_window (clips : list Clip) (t : Q) : forall acc k e,
  Forall (fun c => start c <= end_ c) clips ->
  nth_error (map_from acc clips) k = Some e ->
  in_window t e ->
  find (fun c => geb t (sequenceStart c) && ltb t (sequenceEnd c))
       (map_from acc clips) = Some e.
Proof.
  induction clips as [| c rest IH]; intros acc k e Hpos Hk Hw.
  - destruct k; discriminate.
  - inversion Hpos as [| ? ? Hc Hrest]; subst.
    destruct k as [| k]; simpl in Hk.
    + inversion Hk; subst. simpl find.
      apply window_test in Hw. simpl in Hw. now rewrite Hw.
    + simpl find.
      assert (Hafter : acc + (end_ c - start c) <= t).
      { apply nth_error_In in Hk.
        destruct (entry_bounds rest _ _ Hrest Hk) as [B _].
        destruct Hw as [W _]. lra. }
      assert (E : ltb t (acc + (end_ c - start c)) = false)
        by now apply ltb_false.
      rewrite E, andb_false_r.
      now apply (IH _ k e Hrest Hk Hw).
Qed.

Lemma entry_before_total (clips : list Clip) : forall acc e,
  Forall (fun c => start c <= end_ c) clips ->
  In e (map_from acc clips) ->
  sequenceEnd e <= totalDuration (map_from acc clips).
Proof.
  induction clips as [| c rest IH]; intros acc e Hpos Hin.
  - destruct Hin.
  - inversion Hpos as [| ? ? Hc Hrest]; subst.
    unfold totalDuration. simpl map_from. rewrite lastEntry_cons.
    destruct rest as [| c' rest'].
    + destruct Hin as [<- | []]. simpl. lra.
    + remember (c' :: rest') as rest eqn:Er.
      assert (Hne : map_from (acc + (end_ c - start c)) rest <> [])
        by (subst rest; discriminate).
      destruct (map_from (acc + (end_ c - start c)) rest) as [| h tl] eqn:Em;
        [congruence |].
      rewrite <- Em in *.
      fold (totalDuration (map_from (acc + (end_ c - start c)) rest)).
      destruct Hin as [<- | Hin].
      * simpl.
        assert (Hh : In h (map_from (acc + (end_ c - start c)) rest))
          by (rewrite Em; now left).
        destruct (entry_bounds rest _ _ Hrest Hh) as [B1 B2].
        pose proof (IH _ _ Hrest Hh) as B3. lra.
      * now apply IH.
Qed.

End WindowFacts.

(** X16.  When no clip has its trimmed end before its trimmed start, the
    windows of the sequence are ordered and do not overlap: an earlier
    entry ends at or before the start of every later one, a time lies in
    the window of at most one position, and the seek resolver picks the
    entry whose window holds the time. *)
Theorem windows_do_not_overlap (clips : list Types.Clip) (i j : nat)
    (e e' : Sequence.SequenceEntry) (t : Q) :
  Forall (fun c => Types.start c <= Types.end_ c) clips ->
  nth_error (Sequence.sequence clips) i = Some e ->
  nth_error (Sequence.sequence clips) j = Some e' ->
  ((i < j)%nat -> Sequence.sequenceEnd e <= Sequence.sequenceStart e')
  /\ (Sequence.in_window t e -> Sequence.in_window t e' -> i = j)
  /\ (Sequence.in_window t e ->
      Sequence.targetClip (Sequence.sequence clips) t = Some e).
Proof.
  intros Hpos Hi Hj. unfold Sequence.sequence in *.
  split; [intro Hlt; now apply (entries_ordered clips 0 i j e e') |].
  split.
  - intros [W1 W2] [W1' W2'].
    destruct (Nat.lt_trichotomy i j) as [L | [E | L]]; [| exact E |].
    + pose proof (entries_ordered clips 0 i j e e' Hpos Hi Hj L). lra.
    + pose proof (entries_ordered clips 0 j i e' e Hpos Hj Hi L). lra.
  - intro Hw. unfold Sequence.targetClip.
    now rewrite (find_in_window clips t 0 i e Hpos Hi Hw).
Qed.

Lemma windows_do_not_overlap_witness :
  Sequence.targetClip (Sequence.sequence Sequence.threeClips) 12
  = Some (Sequence.mkEntry Sequence.clip2 (0 + (10 - 0)) (5 - 0)
            (0 + (10 - 0) + (5 - 0))).
Proof.
  assert (Hpos : Forall (fun c => Types.start c <= Types.end_ c)
                   Sequence.threeClips).
  { repeat constructor; vm_compute; discriminate. }
  destruct (windows_do_not_overlap Sequence.threeClips 1 2
              (Sequence.mkEntry Sequence.clip2 (0 + (10 - 0)) (5 - 0)
                 (0 + (10 - 0) + (5 - 0)))
              (Sequence.mkEntry Sequence.clip3 (0 + (10 - 0) + (5 - 0)) (8 - 0)
                 (0 + (10 - 0) + (5 - 0) + (8 - 0)))
              12 Hpos eq_refl eq_refl) as [_ [_ H]].
  apply H. split; vm_compute; [discriminate | reflexivity].
Defined.

(** X17.  A click or a hover on the track of the clip at position [k]
    asks for a global time inside that clip's part of the timeline, hence
    inside the timeline; and when the clip's trimmed length is positive
    and the pointer's local time is before the clip's trimmed end, the
    commit seek of that global time resolves to the same clip, at the
    pointer's local time clamped to the trim window. *)
Theorem track_click_seeks_own_clip (clips : list Types.Clip) (k : nat)
    (e : Sequence.SequenceEntry) (trackRef : option ClipItem.Rect)
    (clientX : Q) :
  Forall (fun c => Types.start c <= Types.end_ c) clips ->
  nth_error (Sequence.sequence clips) k = Some e ->
  let seq := Sequence.sequence clips in
  let local := ClipItem.getTimeFromClientX trackRef
                 (Types.originalDuration (Sequence.clip e)) clientX in
  let g := TrimSession.trackGlobalTime trackRef (Sequence.clip e)
             (Sequence.sequenceStart e) clientX in
  (Sequence.sequenceStart e <= g <= Sequence.sequenceEnd e)
  /\ (0 <= g <= Sequence.totalDuration seq)
  /\ Sequence.seekTime seq g = g
  /\ (Types.start (Sequence.clip e) < Types.end_ (Sequence.clip e) ->
      local < Types.end_ (Sequence.clip e) ->
      Sequence.targetClip seq (Sequence.seekTime seq g) = Some e
      /\ Sequence.localSeekTime e (Sequence.seekTime seq g)
         == Num.clamp local (Types.start (Sequence.clip e))
                      (Types.end_ (Sequence.clip e))).
Proof.
  intros Hpos Hk seq local g.
  assert (Hin : In e (Sequence.map_from 0 clips))
    by (eapply nth_error_In; exact Hk).
  destruct (entry_bounds clips 0 e Hpos Hin) as [B0 B1].
  pose proof (entry_shape clips 0 e Hin) as Hshape.
  pose proof (entry_before_total clips 0 e Hpos Hin) as Htot.
  fold (Sequence.sequence clips) in Htot. fold seq in Htot.
  assert (Hse : Types.start (Sequence.clip e) <= Types.end_ (Sequence.clip e))
    by lra.
  assert (Hg : g == Sequence.sequenceStart e
                    + (Num.clamp local (Types.start (Sequence.clip e))
                                 (Types.end_ (Sequence.clip e))
                       - Types.start (Sequence.clip e)))
    by reflexivity.
  assert (Hc : Types.start (Sequence.clip e)
               <= Num.clamp local (Types.start (Sequence.clip e))
                            (Types.end_ (Sequence.clip e))
               <= Types.end_ (Sequence.clip e))
    by (unfold Num.clamp; split; minmax).
  assert (R1 : Sequence.sequenceStart e <= g <= Sequence.sequenceEnd e)
    by (split; lra).
  assert (R2 : 0 <= g <= Sequence.totalDuration seq) by (split; lra).
  assert (R3 : Sequence.seekTime seq g = g).
  { assert (T0 : 0 <= Sequence.totalDuration seq) by lra.
    destruct (seekTime_bounds seq g T0) as [_ [S _]]. now apply S. }
  split; [exact R1 |]. split; [exact R2 |]. split; [exact R3 |].
  intros Hlen Hlt. rewrite R3.
  assert (Hcl : Num.clamp local (Types.start (Sequence.clip e))
                          (Types.end_ (Sequence.clip e))
                < Types.end_ (Sequence.clip e)).
  { unfold Num.clamp. minmax. }
  split.
  - unfold Sequence.targetClip, seq, Sequence.sequence.
    rewrite (find_in_window clips g 0 k e Hpos Hk); [reflexivity |].
    split; lra.
  - unfold Sequence.localSeekTime. rewrite Hg. ring.
Qed.

Lemma track_click_seeks_own_clip_witness :
  Sequence.targetClip (Sequence.sequence Sequence.threeClips)
    (Sequence.seekTime (Sequence.sequence Sequence.threeClips)
       (TrimSession.trackGlobalTime (Some ClipItem.track100) Sequence.clip2
          (0 + (10 - 0)) 40))
  = Some (Sequence.mkEntry Sequence.clip2 (0 + (10 - 0)) (5 - 0)
            (0 + (10 - 0) + (5 - 0))).
Proof.
  assert (Hpos : Forall (fun c => Types.start c <= Types.end_ c)
                   Sequence.threeClips).
  { repeat constructor; vm_compute; discriminate. }
  destruct (track_click_seeks_own_clip Sequence.threeClips 1
              (Sequence.mkEntry Sequence.clip2 (0 + (10 - 0)) (5 - 0)
                 (0 + (10 - 0) + (5 - 0)))
              (Some ClipItem.track100) 40 Hpos eq_refl) as [_ [_ [_ H]]].
  destruct H as [H _]; [reflexivity | vm_compute; reflexivity | exact H].
Defined.

(** ** Hiding the timeline thumbnail *)

Section HideFacts.
Import Num Types Sequence TimelinePreview.

Lemma hide_fields (s : State) :
  untouched (hideTimelinePreview s)
  = (sequenceRef s, hasClips s, areControlsVisible s, timelineRef s, mounted s,
     timelinePreviewWorkerRunningRef s, S (timelinePreviewTokenRef s),
     worker s, previewSrc s, drawn s)
  /\ timelinePreviewCaptureTimeRef (hideTimelinePreview s) = None
  /\ timelinePreviewPendingRef (hideTimelinePreview s) = None.
Proof.
  unfold hideTimelinePreview, untouched. simpl.
  rewrite Nat.add_1_r.
  destruct (timelinePreview s) as [[b l] t]. destruct b; simpl;
    repeat split; reflexivity.
Qed.

Lemma resume_stale (s : State) (w : Worker) (ready : bool) :
  worker s = Some w ->
  workerToken w <> timelinePreviewTokenRef s ->
  resume ready s = finish s.
Proof.
  intros Hw Hne. unfold resume. rewrite Hw.
  assert (E : Nat.eqb (workerToken w) (timelinePreviewTokenRef s) = false)
    by now apply Nat.eqb_neq.
  destruct (inFlight w); [now rewrite E |].
  unfold loopFrom. now rewrite E.
Qed.

Lemma wake_finished (n : nat) (s : State) :
  worker s = None -> wake n s = s.
Proof.
  intro Hw. induction n as [| k IH]; [reflexivity |].
  simpl. unfold resume. now rewrite Hw.
Qed.

Lemma loopFrom_alive (w : Worker) (s : State) (t : Q) :
  workerToken w = timelinePreviewTokenRef s ->
  timelinePreviewCaptureTimeRef s = Some t ->
  idleFrames w = O ->
  exists w', worker (loopFrom w s) = Some w'
             /\ workerToken w' = workerToken w
             /\ timelinePreviewWorkerRunningRef (loopFrom w s)
                = timelinePreviewWorkerRunningRef s
             /\ drawn (loopFrom w s) = drawn s.
Proof.
  intros Htok Hcap Hidle. unfold loopFrom.
  rewrite Htok, Nat.eqb_refl, Hcap. simpl negb. cbv iota.
  destruct (mounted s); simpl negb; cbv iota.
  - cbv zeta.
    destruct (workerTarget _ t) as [[src0 localTime] |].
    + eexists. split; [reflexivity |].
      destruct (negb _); repeat split; reflexivity.
    + unfold idleBranch. simpl. eexists. repeat split; reflexivity.
  - eexists. repeat split; reflexivity.
Qed.

End HideFacts.

(** X18.  Hiding the thumbnail cancels the loop that is alive: the token
    grows by one and the request cell is emptied, and when the loop wakes
    up, whether in its idle wait or inside an iteration, it stops without
    drawing.  A pointer position that arrives after the hide and before
    that wake-up does not start a new loop, because the running flag is
    still set; the cancelled loop stops all the same, and the position
    stays in the request cell, undrawn, however often a wake-up is
    attempted.  The position after it starts a new loop under the new
    token. *)
Theorem hide_cancels_worker (s : TimelinePreview.State)
    (w : TimelinePreview.Worker) (rect : ClipItem.Rect)
    (ready : bool) (clientX clientX' : Q) :
  TimelinePreview.worker s = Some w ->
  (TimelinePreview.workerToken w
   <= TimelinePreview.timelinePreviewTokenRef s)%nat ->
  TimelinePreview.timelinePreviewWorkerRunningRef s = true ->
  TimelinePreview.hasClips s = true ->
  TimelinePreview.areControlsVisible s = true ->
  TimelinePreview.timelineRef s = Some rect ->
  0 < ClipItem.width rect ->
  let h := TimelinePreview.hideTimelinePreview s in
  let stopped := TimelinePreview.resume ready h in
  let late := TimelinePreview.resume ready
                (TimelinePreview.updateTimelinePreviewFromClientX clientX h) in
  let next := TimelinePreview.updateTimelinePreviewFromClientX clientX' late in
  (TimelinePreview.timelinePreviewTokenRef h
   = S (TimelinePreview.timelinePreviewTokenRef s)
   /\ TimelinePreview.timelinePreviewCaptureTimeRef h = None)
  /\ (TimelinePreview.worker stopped = None
      /\ TimelinePreview.timelinePreviewWorkerRunningRef stopped = false
      /\ TimelinePreview.drawn stopped = TimelinePreview.drawn s)
  /\ (TimelinePreview.worker late = None
      /\ TimelinePreview.timelinePreviewWorkerRunningRef late = false
      /\ TimelinePreview.timelinePreviewCaptureTimeRef late
         = TimelinePreview.requestedTimeOf s clientX
      /\ forall n,
           TimelinePreview.drawn (TimelinePreview.wake n late)
           = TimelinePreview.drawn s)
  /\ (exists w',
        TimelinePreview.worker next = Some w'
        /\ TimelinePreview.workerToken w'
           = S (TimelinePreview.timelinePreviewTokenRef s)
        /\ TimelinePreview.timelinePreviewWorkerRunningRef next = true).
Proof.
  intros Hw Hle Hrun Hc Hv Hr Hwd h stopped late next.
  destruct (hide_fields s) as [Hu [Hcap Hpend]]. fold h in Hu, Hcap, Hpend.
  unfold TimelinePreview.untouched in Hu.
  injection Hu as E1 E2 E3 E4 E5 E6 E7 E8 E9 E10.
  assert (Hstale : TimelinePreview.workerToken w
                   <> TimelinePreview.timelinePreviewTokenRef h)
    by (rewrite E7; lia).
  split; [split; [exact E7 | exact Hcap] |].
  split.
  { subst stopped.
    rewrite (resume_stale h w ready); [| congruence | exact Hstale].
    simpl. rewrite E10. repeat split; reflexivity. }
  set (u := TimelinePreview.updateTimelinePreviewFromClientX clientX h) in *.
  destruct (update_running h rect clientX) as [Uu Ucap]; try congruence.
  fold u in Uu, Ucap. unfold TimelinePreview.untouched in Uu.
  injection Uu as U1 U2 U3 U4 U5 U6 U7 U8 U9 U10.
  assert (Hlate : late = TimelinePreview.finish u).
  { subst late. apply (resume_stale u w ready); congruence. }
  split.
  { rewrite Hlate. simpl.
    split; [reflexivity |]. split; [reflexivity |].
    split.
    - rewrite Ucap. unfold TimelinePreview.requestedTimeOf.
      now rewrite E4, E1.
    - intro n. rewrite wake_finished; [| reflexivity].
      simpl. congruence. }
  subst next. rewrite Hlate.
  unfold TimelinePreview.updateTimelinePreviewFromClientX.
  change (TimelinePreview.hasClips (TimelinePreview.finish u))
    with (TimelinePreview.hasClips u).
  change (TimelinePreview.areControlsVisible (TimelinePreview.finish u))
    with (TimelinePreview.areControlsVisible u).
  change (TimelinePreview.timelineRef (TimelinePreview.finish u))
    with (TimelinePreview.timelineRef u).
  rewrite U2, E2, Hc, U3, E3, Hv, U4, E4, Hr. simpl negb. cbv iota.
  assert (L : Num.leb (ClipItem.width rect) 0 = false) by now apply leb_false.
  rewrite L. cbv zeta.
  simpl TimelinePreview.timelinePreviewWorkerRunningRef. cbv iota.
  match goal with
  | |- exists w', TimelinePreview.worker (TimelinePreview.loopFrom ?w0 ?s0)
                  = Some w' /\ _ =>
      edestruct (loopFrom_alive w0 s0) as [w' [A [B [C _]]]];
        [reflexivity | reflexivity | reflexivity |];
        exists w'; split; [exact A |]; split;
        [rewrite B; simpl; congruence | exact (eq_trans C eq_refl)]
  end.
Qed.

Lemma hide_cancels_worker_witness :
  TimelinePreview.drawn
    (TimelinePreview.wake 3
       (TimelinePreview.resume true
          (TimelinePreview.updateTimelinePreviewFromClientX 120
             (TimelinePreview.hideTimelinePreview TimelinePreview.warmState))))
  = [].
Proof.
  assert (Hw : 0 < ClipItem.width (ClipItem.mkRect 0 230)) by reflexivity.
  assert (Hle : (0 <= 0)%nat) by lia.
  destruct (hide_cancels_worker TimelinePreview.warmState
              (TimelinePreview.mkWorker 0 1 None) (ClipItem.mkRect 0 230)
              true 120 60 eq_refl Hle eq_refl eq_refl eq_refl eq_refl Hw)
    as [_ [_ [[_ [_ [_ H]]] _]]].
  exact (H 3%nat).
Defined.

(** ** The commit seek, the source switch and the hover preview *)

Section CommitFacts.
Import Num Types Sequence Player.

Lemma last_listener (l : list Q) (t c : Q) :
  fold_left (fun _ x => x) (l ++ [t]) c = t.
Proof. now rewrite fold_left_app. Qed.

Lemma src_is_refl (u : string) : src_is (Some u) u = true.
Proof. simpl. apply String.eqb_refl. Qed.

Lemma awaiting_sync (old : list Q) (t : Q) (s : State) :
  awaiting old t s ->
  awaiting old t (syncActiveClip s)
  /\ timeouts (syncActiveClip s) = timeouts s
  /\ globalTimeDisplay (syncActiveClip s) = globalTimeDisplay s
  /\ reportedTime (syncActiveClip s) = reportedTime s.
Proof.
  intros [v [Hv [Hr Hl]]]. unfold syncActiveClip.
  destruct (isPreviewingRef s);
    [split; [exists v; auto | repeat split; reflexivity] |].
  destruct (activeClip _ _) as [a |];
    [| split; [exists v; auto | repeat split; reflexivity]].
  rewrite Hv.
  destruct (negb _);
    [| split; [exists v; auto | repeat split; reflexivity]].
  destruct (isPlaying s); (split; [| repeat split; reflexivity]);
    eexists; (split; [reflexivity |]); simpl; auto.
Qed.

Lemma awaiting_timeout (old : list Q) (t : Q) (s : State) :
  awaiting old t s ->
  awaiting old t (runTimeout s)
  /\ globalTimeDisplay (runTimeout s) = globalTimeDisplay s
  /\ (forall x rest, timeouts s = x :: rest ->
        reportedTime (runTimeout s) = x).
Proof.
  intros [v [Hv [Hr Hl]]]. unfold runTimeout.
  destruct (timeouts s) as [| x rest];
    [split; [exists v; auto | split; [reflexivity | intros; discriminate]] |].
  unfold seekVideo. simpl videoRef. rewrite Hv.
  split; [eexists; split; [reflexivity |]; simpl; auto |].
  split; [reflexivity |].
  intros x0 rest0 E. injection E as -> _. reflexivity.
Qed.

Lemma awaiting_metadata (old : list Q) (t : Q) (s : State) :
  awaiting old t s ->
  (exists v, videoRef (loadedMetadata s) = Some v /\ currentTime v = t
             /\ readyState v = 1%nat /\ loadedmetadata v = [])
  /\ globalTimeDisplay (loadedMetadata s) = globalTimeDisplay s
  /\ reportedTime (loadedMetadata s) = reportedTime s
  /\ timeouts (loadedMetadata s) = timeouts s.
Proof.
  intros [v [Hv [Hr Hl]]]. unfold loadedMetadata. rewrite Hv.
  split; [| repeat split; reflexivity].
  eexists. split; [reflexivity |].
  unfold fire_loadedmetadata. rewrite Hr, Hl. simpl.
  rewrite last_listener. repeat split; reflexivity.
Qed.

Lemma endPreview_foreign (s : State) (r : Restore) (vid : Video)
    (c : SequenceEntry) :
  isPreviewingRef s = true ->
  previewRestoreRef s = Some r ->
  videoRef s = Some vid ->
  activeClip (sequenceOf s) (activeClipId s) = Some c ->
  url (clip c) <> EmptyString ->
  src_is (src vid) (url (clip c)) = false ->
  endPreview s
  = mkState (clips s) (activeClipId s)
      (Some (mkVideo (Some (url (clip c))) 0 0 true
               (loadedmetadata vid ++ [restore_localTime r])))
      (isPlaying s) (isScrubbing s) (restore_globalTime r) false None false
      None (timeouts s) (reportedTime s).
Proof.
  intros Hp Hr Hv Ha Hu Hsrc.
  rewrite activeClip_find in Ha.
  unfold endPreview. rewrite Hp. simpl negb. cbv iota zeta.
  simpl previewRestoreRef. rewrite Hr.
  simpl videoRef. rewrite Hv.
  change (sequenceOf (with_previewRestoreRef None _)) with (sequenceOf s).
  simpl activeClipId. rewrite Ha.
  assert (E : String.eqb (url (clip c)) EmptyString = false)
    by now apply String.eqb_neq.
  rewrite E. unfold setVideoSrcAndTime. simpl videoRef. rewrite Hv, Hsrc.
  reflexivity.
Qed.

End CommitFacts.

(** X19.  A commit seek issued while the hover preview shows another
    source than the committed clip's ends the preview for good: the
    snapshot and the pending preview frame are dropped, the shown
    position is the clamped request and the selected clip becomes active.
    Leaving the preview has first put the committed source back, which,
    on a media element whose load starts afresh when its source is
    assigned, registers a metadata listener that seeks to the snapshot's
    local time.  That listener outlives the commit seek: once the source
    switch and the deferred seek have run and the element then reports
    its metadata, the surface stands at the snapshot's local time, while
    the shown position and the reported local time are those of the
    seek.  When the selected clip is not the committed one and the
    metadata arrive before the deferred seek, the surface ends at the
    seek's local time. *)
Theorem commit_seek_during_foreign_preview (s : Player.State)
    (r : Player.Restore) (vid : Player.Video) (c e : Sequence.SequenceEntry)
    (time : Q) :
  Player.isPreviewingRef s = true ->
  Player.previewRestoreRef s = Some r ->
  Player.videoRef s = Some vid ->
  Sequence.activeClip (Player.sequenceOf s) (Player.activeClipId s) = Some c ->
  Types.url (Sequence.clip c) <> EmptyString ->
  Player.src_is (Player.src vid) (Types.url (Sequence.clip c)) = false ->
  Sequence.targetClip (Player.sequenceOf s)
    (Sequence.seekTime (Player.sequenceOf s) time) = Some e ->
  Player.timeouts s = [] ->
  let t := Sequence.seekTime (Player.sequenceOf s) time in
  let s1 := Player.commitSeekToGlobalTime time s in
  let s2 := Player.loadedMetadata
              (Player.runTimeout (Player.syncActiveClip s1)) in
  let s3 := Player.runTimeout
              (Player.loadedMetadata (Player.syncActiveClip s1)) in
  (Player.isPreviewingRef s1 = false
   /\ Player.previewRestoreRef s1 = None
   /\ Player.previewRafRef s1 = false
   /\ Player.previewFrame s1 = s1
   /\ Player.globalTimeDisplay s1 = t
   /\ Player.activeClipId s1 = Some (Types.id (Sequence.clip e)))
  /\ (exists v,
        Player.videoRef s2 = Some v
        /\ Player.currentTime v = Player.restore_localTime r
        /\ Player.globalTimeDisplay s2 = t
        /\ Player.reportedTime s2 = Sequence.localSeekTime e t)
  /\ (Sequence.id_is (Player.activeClipId s) e = false ->
      exists v,
        Player.videoRef s3 = Some v
        /\ Player.currentTime v = Sequence.localSeekTime e t
        /\ Player.globalTimeDisplay s3 = t
        /\ Player.reportedTime s3 = Sequence.localSeekTime e t).
Proof.
  intros Hp Hr Hv Ha Hu Hsrc Ht Hto t s1 s2 s3.
  pose proof (endPreview_foreign s r vid c Hp Hr Hv Ha Hu Hsrc) as HE.
  set (E := Player.endPreview s) in *.
  assert (HseqE : Player.sequenceOf E = Player.sequenceOf s)
    by (rewrite HE; reflexivity).
  assert (HtE : Sequence.targetClip (Player.sequenceOf E)
                  (Sequence.seekTime (Player.sequenceOf E) time) = Some e)
    by (rewrite HseqE; exact Ht).
  destruct (seekToGlobalTime_effect E time e HtE) as [D1 [D2 _]].
  rewrite HseqE in D1. fold t in D1.
  assert (Hs1 : s1 = Player.seekToGlobalTime time E) by reflexivity.
  assert (Hshape :
    (Sequence.id_is (Player.activeClipId s) e = true
     /\ s1 = Player.seekVideo (Sequence.localSeekTime e t)
               (Player.setGlobalTimeDisplay t E))
    \/ (Sequence.id_is (Player.activeClipId s) e = false
        /\ s1 = Player.with_timeouts [Sequence.localSeekTime e t]
                  (Player.onActiveClipChange (Types.id (Sequence.clip e))
                     (Player.setGlobalTimeDisplay t E)))).
  { rewrite Hs1. unfold Player.seekToGlobalTime. cbv zeta.
    change (Player.sequenceOf (Player.setGlobalTimeDisplay _ E))
      with (Player.sequenceOf E).
    rewrite HseqE, Ht.
    assert (HaE : Player.activeClipId E = Player.activeClipId s)
      by (rewrite HE; reflexivity).
    assert (HtoE : Player.timeouts E = []) by (rewrite HE; exact Hto).
    rewrite HaE.
    destruct (Sequence.id_is (Player.activeClipId s) e); simpl negb; cbv iota.
    - left. split; reflexivity.
    - right. split; [reflexivity |].
      simpl Player.timeouts. rewrite HtoE. reflexivity. }
  assert (Hflags : Player.isPreviewingRef s1 = false
                   /\ Player.previewRestoreRef s1 = None
                   /\ Player.previewRafRef s1 = false).
  { destruct Hshape as [[_ ->] | [_ ->]]; rewrite HE; simpl;
      repeat split; reflexivity. }
  split.
  { destruct Hflags as [F1 [F2 F3]].
    split; [exact F1 |]. split; [exact F2 |]. split; [exact F3 |].
    split; [unfold Player.previewFrame; now rewrite F3 |].
    split; [exact D1 | exact D2]. }
  assert (Hwait : Player.awaiting (Player.loadedmetadata vid)
                    (Player.restore_localTime r) s1
                  /\ Player.globalTimeDisplay s1 = t
                  /\ Player.reportedTime (Player.runTimeout
                                            (Player.syncActiveClip s1))
                     = Sequence.localSeekTime e t).
  { destruct Hshape as [[Hid Hs] | [Hid Hs]].
    - assert (W : Player.awaiting (Player.loadedmetadata vid)
                    (Player.restore_localTime r) s1).
      { rewrite Hs, HE. eexists. split; [reflexivity |]. simpl. auto. }
      split; [exact W |]. split; [exact D1 |].
      assert (Hsync : Player.syncActiveClip s1 = s1).
      { assert (Hc : s1 = Player.mkState (Player.clips s) (Player.activeClipId s)
                  (Some (Player.mkVideo (Some (Types.url (Sequence.clip c)))
                           (Sequence.localSeekTime e t) 0 true
                           (Player.loadedmetadata vid
                            ++ [Player.restore_localTime r])))
                  (Player.isPlaying s) (Player.isScrubbing s) t false None
                  false None (Player.timeouts s)
                  (Sequence.localSeekTime e t))
          by (rewrite Hs, HE; reflexivity).
        rewrite Hc. unfold Player.syncActiveClip, Player.sequenceOf.
        simpl Player.isPreviewingRef. simpl Player.clips.
        simpl Player.activeClipId. simpl Player.videoRef. cbv iota.
        fold (Player.sequenceOf s). rewrite Ha.
        simpl Player.src. rewrite src_is_refl. reflexivity. }
      rewrite Hsync.
      assert (Hnone : Player.timeouts s1 = [])
        by (rewrite Hs, HE; exact Hto).
      unfold Player.runTimeout. rewrite Hnone.
      rewrite Hs, HE. reflexivity.
    - assert (W : Player.awaiting (Player.loadedmetadata vid)
                    (Player.restore_localTime r) s1).
      { rewrite Hs, HE. eexists. split; [reflexivity |]. simpl. auto. }
      split; [exact W |]. split; [exact D1 |].
      destruct (awaiting_sync _ _ _ W) as [W' [T' _]].
      destruct (awaiting_timeout _ _ _ W') as [_ [_ R]].
      apply (R _ []). rewrite T', Hs. reflexivity. }
  destruct Hwait as [W [Hd Hrep]].
  destruct (awaiting_sync _ _ _ W) as [W1 [T1 [G1 R1]]].
  split.
  { destruct (awaiting_timeout _ _ _ W1) as [W2 [G2 _]].
    destruct (awaiting_metadata _ _ _ W2) as [[v [V1 [V2 _]]] [G3 [R3 _]]].
    exists v. subst s2.
    split; [exact V1 |]. split; [exact V2 |].
    split; [rewrite G3, G2, G1; exact Hd | rewrite R3; exact Hrep]. }
  intro Hid.
  destruct Hshape as [[Hid' _] | [_ Hs]]; [congruence |].
  destruct (awaiting_metadata _ _ _ W1) as [[v [V1 _]] [G3 [_ T3]]].
  assert (Tm : Player.timeouts
                 (Player.loadedMetadata (Player.syncActiveClip s1))
               = [Sequence.localSeekTime e t])
    by (rewrite T3, T1, Hs; reflexivity).
  subst s3.
  set (m := Player.loadedMetadata (Player.syncActiveClip s1)) in *.
  unfold Player.runTimeout. rewrite Tm. unfold Player.seekVideo.
  change (Player.videoRef (Player.with_timeouts [] m))
    with (Player.videoRef m).
  rewrite V1. eexists. split; [reflexivity |]. simpl.
  split; [reflexivity |]. split; [| reflexivity].
  rewrite G3, G1. exact Hd.
Qed.

Lemma commit_seek_during_foreign_preview_witness :
  exists v,
    Player.videoRef
      (Player.loadedMetadata
         (Player.runTimeout
            (Player.syncActiveClip
               (Player.commitSeekToGlobalTime 12
                  (Player.mkState Sequence.threeClips (Some "c1"%string)
                     (Some (Player.mkVideo (Some "blob:c2"%string) 2 1 true []))
                     false false 12 true
                     (Some (Player.mkRestore (Some "blob:c1"%string) 4 4))
                     false None [] 4)))))
    = Some v
    /\ Player.currentTime v = 4.
Proof.
  assert (Hu : Types.url Sequence.clip1 <> EmptyString) by discriminate.
  destruct (commit_seek_during_foreign_preview
              (Player.mkState Sequence.threeClips (Some "c1"%string)
                 (Some (Player.mkVideo (Some "blob:c2"%string) 2 1 true []))
                 false false 12 true
                 (Some (Player.mkRestore (Some "blob:c1"%string) 4 4))
                 false None [] 4)
              (Player.mkRestore (Some "blob:c1"%string) 4 4)
              (Player.mkVideo (Some "blob:c2"%string) 2 1 true [])
              (Sequence.mkEntry Sequence.clip1 0 (10 - 0) (0 + (10 - 0)))
              (Sequence.mkEntry Sequence.clip2 (0 + (10 - 0)) (5 - 0)
                 (0 + (10 - 0) + (5 - 0)))
              12 eq_refl eq_refl eq_refl eq_refl Hu eq_refl eq_refl eq_refl)
    as [_ [[v [V1 [V2 _]]] _]].
  exists v. split; [exact V1 | exact V2].
Defined.


(** X20.  From a committed state, a commit seek into another clip than
    the active one, followed by the source-switch effect and then by the
    deferred seek, leaves the surface on the selected clip's source at the
    seek's local time, paused exactly when the player was paused, with the
    selected clip active and no deferred seek left; running the effect
    again changes nothing.  Had the deferred seek run before the effect,
    the effect would have put the surface at the selected clip's trimmed
    start. *)
Theorem deferred_seek_follows_source_switch (s : Player.State)
    (vid : Player.Video) (k : nat) (e : Sequence.SequenceEntry) (time : Q) :
  NoDup (map Types.id (Player.clips s)) ->
  nth_error (Player.sequenceOf s) k = Some e ->
  Sequence.targetClip (Player.sequenceOf s)
    (Sequence.seekTime (Player.sequenceOf s) time) = Some e ->
  Sequence.id_is (Player.activeClipId s) e = false ->
  Player.videoRef s = Some vid ->
  Player.src_is (Player.src vid) (Types.url (Sequence.clip e)) = false ->
  Player.timeouts s = [] ->
  Player.isPreviewingRef s = false ->
  let t := Sequence.seekTime (Player.sequenceOf s) time in
  let s1 := Player.seekToGlobalTime time s in
  let s2 := Player.runTimeout (Player.syncActiveClip s1) in
  (exists v,
     Player.videoRef s2 = Some v
     /\ Player.src v = Some (Types.url (Sequence.clip e))
     /\ Player.currentTime v = Sequence.localSeekTime e t
     /\ Player.paused v = negb (Player.isPlaying s))
  /\ Player.activeClipId s2 = Some (Types.id (Sequence.clip e))
  /\ Player.globalTimeDisplay s2 = t
  /\ Player.reportedTime s2 = Sequence.localSeekTime e t
  /\ Player.timeouts s2 = []
  /\ Player.syncActiveClip s2 = s2
  /\ (exists v,
        Player.videoRef (Player.syncActiveClip (Player.runTimeout s1)) = Some v
        /\ Player.src v = Some (Types.url (Sequence.clip e))
        /\ Player.currentTime v = Types.start (Sequence.clip e)).
Proof.
  intros Hnd Hk Ht Hid Hv Hsrc Hto Hp t s1 s2.
  destruct (activeClip_nth (Player.clips s) k e Hnd Hk) as [_ Hact].
  fold (Player.sequenceOf s) in Hact.
  assert (Hs1 : s1 = Player.mkState (Player.clips s)
                  (Some (Types.id (Sequence.clip e))) (Some vid)
                  (Player.isPlaying s) (Player.isScrubbing s) t false
                  (Player.previewRestoreRef s) (Player.previewRafRef s)
                  (Player.previewPendingTimeRef s)
                  [Sequence.localSeekTime e t] (Player.reportedTime s)).
  { subst s1. unfold Player.seekToGlobalTime. cbv zeta.
    change (Player.sequenceOf (Player.setGlobalTimeDisplay _ s))
      with (Player.sequenceOf s).
    rewrite Ht, Hid. simpl negb. cbv iota.
    unfold Player.onActiveClipChange, Player.with_timeouts,
      Player.with_activeClipId, Player.setGlobalTimeDisplay. simpl.
    rewrite Hto, Hv, Hp. reflexivity. }
  set (moved := Player.set_currentTime (Types.start (Sequence.clip e))
                  (Player.set_src (Types.url (Sequence.clip e)) vid)).
  assert (Hsync : forall v0 ts rep,
    Player.src_is (Player.src v0) (Types.url (Sequence.clip e)) = false ->
    Player.syncActiveClip
      (Player.mkState (Player.clips s) (Some (Types.id (Sequence.clip e)))
         (Some v0) (Player.isPlaying s) (Player.isScrubbing s) t false
         (Player.previewRestoreRef s) (Player.previewRafRef s)
         (Player.previewPendingTimeRef s) ts rep)
    = Player.mkState (Player.clips s) (Some (Types.id (Sequence.clip e)))
        (Some (Player.mkVideo (Some (Types.url (Sequence.clip e)))
                 (Types.start (Sequence.clip e)) 0
                 (negb (Player.isPlaying s)) (Player.loadedmetadata v0)))
        (Player.isPlaying s) (Player.isScrubbing s) t false
        (Player.previewRestoreRef s) (Player.previewRafRef s)
        (Player.previewPendingTimeRef s) ts rep).
  { intros v0 ts rep Hs0. unfold Player.syncActiveClip, Player.sequenceOf.
    simpl Player.isPreviewingRef. simpl Player.clips.
    simpl Player.activeClipId. simpl Player.videoRef. cbv iota.
    fold (Player.sequenceOf s). rewrite Hact, Hs0. simpl negb. cbv iota.
    simpl Player.isPlaying. destruct (Player.isPlaying s); reflexivity. }
  assert (Hs2 : s2 = Player.mkState (Player.clips s)
                  (Some (Types.id (Sequence.clip e)))
                  (Some (Player.mkVideo (Some (Types.url (Sequence.clip e)))
                           (Sequence.localSeekTime e t) 0
                           (negb (Player.isPlaying s))
                           (Player.loadedmetadata vid)))
                  (Player.isPlaying s) (Player.isScrubbing s) t false
                  (Player.previewRestoreRef s) (Player.previewRafRef s)
                  (Player.previewPendingTimeRef s) []
                  (Sequence.localSeekTime e t)).
  { subst s2. rewrite Hs1, (Hsync vid _ _ Hsrc). reflexivity. }
  split.
  { rewrite Hs2. eexists. split; [reflexivity |]. simpl.
    repeat split; reflexivity. }
  split; [rewrite Hs2; reflexivity |].
  split; [rewrite Hs2; reflexivity |].
  split; [rewrite Hs2; reflexivity |].
  split; [rewrite Hs2; reflexivity |].
  split.
  { rewrite Hs2. unfold Player.syncActiveClip, Player.sequenceOf.
    simpl Player.isPreviewingRef. simpl Player.clips.
    simpl Player.activeClipId. simpl Player.videoRef. cbv iota.
    fold (Player.sequenceOf s). rewrite Hact.
    simpl Player.src. rewrite src_is_refl. reflexivity. }
  rewrite Hs1. unfold Player.runTimeout. simpl Player.timeouts. cbv iota.
  unfold Player.seekVideo, Player.with_timeouts, Player.onTimeUpdate,
    Player.with_videoRef. simpl.
  rewrite (Hsync (Player.set_currentTime (Sequence.localSeekTime e t) vid)
             [] (Sequence.localSeekTime e t) Hsrc).
  eexists. split; [reflexivity |]. simpl. split; reflexivity.
Qed.

Lemma deferred_seek_follows_source_switch_witness :
  Player.reportedTime
    (Player.runTimeout
       (Player.syncActiveClip
          (Player.seekToGlobalTime 12 Player.scenarioState)))
  = Sequence.localSeekTime
      (Sequence.mkEntry Sequence.clip2 (0 + (10 - 0)) (5 - 0)
         (0 + (10 - 0) + (5 - 0)))
      (Sequence.seekTime (Player.sequenceOf Player.scenarioState) 12).
Proof.
  assert (Hnd : NoDup (map Types.id (Player.clips Player.scenarioState))).
  { simpl. repeat constructor; simpl; intuition discriminate. }
  destruct (deferred_seek_follows_source_switch Player.scenarioState
              (Player.mkVideo (Some "blob:c1"%string) 0 1 true []) 1
              (Sequence.mkEntry Sequence.clip2 (0 + (10 - 0)) (5 - 0)
                 (0 + (10 - 0) + (5 - 0)))
              12 Hnd eq_refl eq_refl eq_refl eq_refl eq_refl eq_refl eq_refl)
    as [_ [_ [_ [H _]]]].
  exact H.
Defined.

(** ** Markers on the tracks *)

Section MarkerFacts.
Import Num Types ClipItem Markers.

Lemma pct_back (v d w x l : Q) :
  0 < d -> 0 < w ->
  (x - l) / w * 100 == v / d * 100 ->
  (x - l) / w == v / d.
Proof.
  intros Hd Hw H.
  remember ((x - l) / w) as a eqn:Ea. remember (v / d) as b eqn:Eb.
  clear Ea Eb. lra.
Qed.

Lemma getTime_at (rect : Rect) (d v x : Q) :
  0 < d -> 0 < width rect -> 0 <= v <= d ->
  (x - left rect) / width rect == v / d ->
  getTimeFromClientX (Some rect) d x == v.
Proof.
  intros Hd Hw [V0 V1] H. unfold getTimeFromClientX.
  assert (G : gtb (width rect) 0 = true) by now apply gtb_true.
  rewrite G.
  assert (Hv : v / d * d == v) by (field; lra).
  assert (R0 : 0 <= v / d) by (apply Qle_shift_div_l; lra).
  assert (R1 : v / d <= 1) by (apply Qle_shift_div_r; lra).
  remember ((x - left rect) / width rect) as a eqn:Ea.
  remember (v / d) as b eqn:Eb. clear Ea Eb.
  assert (C : clamp a 0 1 == a) by (unfold clamp; minmax).
  rewrite C, H. exact Hv.
Qed.

End MarkerFacts.

(** X21.  For a clip with a valid trim window, the two trim handles are
    drawn inside the track with the start handle left of the end handle,
    and the playhead of a local time inside the window is drawn between
    them.  The drawing and the pointer mapping are inverse to each other:
    a pointer standing where a handle is drawn is mapped back to that
    handle's time.  A drag step that ends on the handle's own place
    therefore sets the start to the smaller of the start and
    [end - minDuration], and the end to the larger of the end and
    [start + minDuration], capped by the original duration: on a clip
    whose window is at least [minDuration] long it leaves the window as
    it is, and on a shorter window it moves the start handle back to
    [end - minDuration]. *)
Theorem handles_drawn_where_pointer_maps (c : Types.Clip)
    (rect : ClipItem.Rect) (clientX : Q) :
  ClipItem.validWindow c ->
  0 < ClipItem.width rect ->
  let dur := Types.originalDuration c in
  (0 <= Markers.startPct c /\ Markers.startPct c < Markers.endPct c
   /\ Markers.endPct c <= 100)
  /\ (forall t, Types.start c <= t <= Types.end_ c ->
        Markers.startPct c <= Markers.playheadPosition (Some t) c
        /\ Markers.playheadPosition (Some t) c <= Markers.endPct c)
  /\ (Markers.pointer_at rect clientX (Markers.startPct c) ->
      ClipItem.getTimeFromClientX (Some rect) dur clientX == Types.start c)
  /\ (Markers.pointer_at rect clientX (Markers.endPct c) ->
      ClipItem.getTimeFromClientX (Some rect) dur clientX == Types.end_ c)
  /\ (Markers.pointer_at rect clientX (Markers.startPct c) ->
      Types.start (ClipItem.trimDrag ClipItem.EdgeStart (Some rect) clientX c)
      == Num.Math_min (Types.end_ c - ClipItem.minDuration c) (Types.start c))
  /\ (Markers.pointer_at rect clientX (Markers.endPct c) ->
      Types.end_ (ClipItem.trimDrag ClipItem.EdgeEnd (Some rect) clientX c)
      == Num.Math_min dur
           (Num.Math_max (Types.start c + ClipItem.minDuration c)
                         (Types.end_ c)))
  /\ (ClipItem.trimmable c ->
      (Markers.pointer_at rect clientX (Markers.startPct c) ->
       Types.start (ClipItem.trimDrag ClipItem.EdgeStart (Some rect) clientX c)
       == Types.start c)
      /\ (Markers.pointer_at rect clientX (Markers.endPct c) ->
          Types.end_ (ClipItem.trimDrag ClipItem.EdgeEnd (Some rect) clientX c)
          == Types.end_ c))
  /\ (Types.end_ c - Types.start c < ClipItem.minDuration c ->
      Markers.pointer_at rect clientX (Markers.startPct c) ->
      Types.start (ClipItem.trimDrag ClipItem.EdgeStart (Some rect) clientX c)
      == Types.end_ c - ClipItem.minDuration c
      /\ Types.start (ClipItem.trimDrag ClipItem.EdgeStart (Some rect)
                        clientX c)
         < Types.start c).
Proof.
  intros [V0 [V1 V2]] Hw dur.
  assert (Hd : 0 < dur) by (unfold dur; lra).
  assert (G : Num.gtb (Types.originalDuration c) 0 = true)
    by now apply gtb_true.
  assert (Hdiv : forall a b, a <= b -> a / dur * 100 <= b / dur * 100).
  { intros a b Hab.
    assert (a / dur <= b / dur).
    { apply Qle_shift_div_l; [exact Hd |].
      setoid_replace (a / dur * dur) with a by (field; lra). exact Hab. }
    lra. }
  assert (Hdivlt : forall a b, a < b -> a / dur * 100 < b / dur * 100).
  { intros a b Hab.
    assert (a / dur < b / dur).
    { apply Qlt_shift_div_l; [exact Hd |].
      setoid_replace (a / dur * dur) with a by (field; lra). exact Hab. }
    lra. }
  assert (H0 : 0 / dur * 100 == 0) by (field; lra).
  assert (H1 : dur / dur * 100 == 100) by (field; lra).
  unfold Markers.startPct, Markers.endPct, Markers.playheadPosition,
    Markers.pointer_at.
  rewrite G. fold dur.
  assert (Bs : (clientX - ClipItem.left rect) / ClipItem.width rect * 100
               == Types.start c / dur * 100 ->
               ClipItem.getTimeFromClientX (Some rect) dur clientX
               == Types.start c).
  { intro P. apply getTime_at;
      [exact Hd | exact Hw | unfold dur; split; lra |].
    now apply pct_back. }
  assert (Be : (clientX - ClipItem.left rect) / ClipItem.width rect * 100
               == Types.end_ c / dur * 100 ->
               ClipItem.getTimeFromClientX (Some rect) dur clientX
               == Types.end_ c).
  { intro P. apply getTime_at;
      [exact Hd | exact Hw | unfold dur; split; lra |].
    now apply pct_back. }
  assert (L : Num.leb (Types.originalDuration c) 0 = false)
    by now apply leb_false.
  destruct (minDuration_bounds c) as [M1 _].
  assert (Ds : (clientX - ClipItem.left rect) / ClipItem.width rect * 100
               == Types.start c / dur * 100 ->
               Types.start (ClipItem.trimDrag ClipItem.EdgeStart (Some rect)
                              clientX c)
               == Num.Math_min (Types.end_ c - ClipItem.minDuration c)
                    (Types.start c)).
  { intro P. specialize (Bs P). unfold ClipItem.trimDrag, ClipItem.onMove.
    rewrite L. fold dur.
    remember (ClipItem.getTimeFromClientX (Some rect) dur clientX) as g eqn:Eg.
    remember (ClipItem.minDuration c) as m eqn:Em. clear Eg Em.
    cbn [Types.spread Types.start Types.upd_start]. unfold Num.clamp. minmax. }
  assert (De : (clientX - ClipItem.left rect) / ClipItem.width rect * 100
               == Types.end_ c / dur * 100 ->
               Types.end_ (ClipItem.trimDrag ClipItem.EdgeEnd (Some rect)
                             clientX c)
               == Num.Math_min dur
                    (Num.Math_max (Types.start c + ClipItem.minDuration c)
                                  (Types.end_ c))).
  { intro P. specialize (Be P). unfold ClipItem.trimDrag, ClipItem.onMove.
    rewrite L. fold dur.
    remember (ClipItem.getTimeFromClientX (Some rect) dur clientX) as g eqn:Eg.
    remember (ClipItem.minDuration c) as m eqn:Em. clear Em Eg.
    cbn [Types.spread Types.end_ Types.upd_end]. unfold Num.clamp.
    unfold dur in *. minmax. }
  split.
  { split.
    - apply Qle_trans with (0 / dur * 100);
        [rewrite H0; apply Qle_refl | apply Hdiv; exact V0].
    - split; [apply Hdivlt; exact V1 |].
      apply Qle_trans with (dur / dur * 100);
        [apply Hdiv; exact V2 | rewrite H1; apply Qle_refl]. }
  split.
  { intros t [T0 T1]. split; apply Hdiv; assumption. }
  split; [exact Bs |]. split; [exact Be |].
  split; [exact Ds |]. split; [exact De |].
  split.
  - intros [_ [_ Hmin]]. split; intro P.
    + rewrite (Ds P).
      remember (ClipItem.minDuration c) as m eqn:Em. clear Em. minmax.
    + rewrite (De P).
      remember (ClipItem.minDuration c) as m eqn:Em. clear Em.
      unfold dur in *. minmax.
  - intros Hshort P.
    assert (E : Num.Math_min (Types.end_ c - ClipItem.minDuration c)
                  (Types.start c)
                == Types.end_ c - ClipItem.minDuration c).
    { remember (ClipItem.minDuration c) as m eqn:Em. clear Em. minmax. }
    split; [rewrite (Ds P); exact E |].
    rewrite (Ds P), E. lra.
Qed.

Lemma handles_drawn_where_pointer_maps_witness :
  ClipItem.getTimeFromClientX (Some ClipItem.track100)
    (Types.originalDuration ClipItem.oneSecondClip) 100
  == Types.end_ ClipItem.oneSecondClip.
Proof.
  assert (V : ClipItem.validWindow ClipItem.oneSecondClip).
  { unfold ClipItem.validWindow. split; [| split]; vm_compute;
      solve [discriminate | reflexivity]. }
  assert (Hw : 0 < ClipItem.width ClipItem.track100) by reflexivity.
  destruct (handles_drawn_where_pointer_maps ClipItem.oneSecondClip
              ClipItem.track100 100 V Hw) as [_ [_ [_ [H _]]]].
  apply H. vm_compute. reflexivity.
Defined.

(** X22.  For a shown position within a timeline of at least a
    thousandth of a second, the progress bar is between 0 and 100 percent
    wide, and pressing the pointer where the bar ends seeks to the shown
    position.  For every pointer position on a timeline of positive width,
    the time the scrub seeks to and the time the thumbnail is asked for
    are the same. *)
Theorem progress_bar_and_scrub_agree (rect : ClipItem.Rect)
    (s : TimelinePreview.State) (g clientX : Q) :
  0 < ClipItem.width rect ->
  TimelinePreview.timelineRef s = Some rect ->
  let total := Sequence.totalDuration (TimelinePreview.sequenceRef s) in
  ((1 # 1000) <= total -> 0 <= g <= total ->
   0 <= Markers.progressPct g total <= 100
   /\ (Markers.pointer_at rect clientX (Markers.progressPct g total) ->
       Layout.calcTime (Some rect) total clientX == g))
  /\ (exists r, TimelinePreview.requestedTimeOf s clientX = Some r
                /\ r == Layout.calcTime (Some rect) total clientX).
Proof.
  intros Hw Hr total. split.
  - intros Ht [G0 G1].
    assert (Hm : Num.Math_max total (1 # 1000) == total) by minmax.
    unfold Markers.progressPct, Markers.pointer_at. rewrite Hm.
    assert (Hpos : 0 < total) by lra.
    assert (R0 : 0 <= g / total) by (apply Qle_shift_div_l; lra).
    assert (R1 : g / total <= 1) by (apply Qle_shift_div_r; lra).
    assert (Hg : g / total * total == g) by (field; lra).
    split; [split; lra |].
    intro P. unfold Layout.calcTime. cbv zeta.
    remember ((clientX - ClipItem.left rect) / ClipItem.width rect) as a eqn:Ea.
    remember (g / total) as b eqn:Eb. clear Ea Eb.
    assert (Hab : a == b) by lra.
    assert (C : Num.Math_max 0 (Num.Math_min 1 a) == a) by minmax.
    rewrite C, Hab. exact Hg.
  - unfold TimelinePreview.requestedTimeOf. rewrite Hr.
    eexists. split; [reflexivity |].
    unfold Layout.calcTime. cbv zeta. fold total.
    set (x := clientX - ClipItem.left rect).
    set (w := ClipItem.width rect) in *.
    assert (Hq : x / w * w == x) by (field; lra).
    assert (H1 : w / w == 1) by (field; lra).
    assert (H0 : 0 / w == 0) by (field; lra).
    assert (E : Num.clamp x 0 w / w == Num.Math_max 0 (Num.Math_min 1 (x / w))).
    { unfold Num.clamp.
      destruct (Qlt_le_dec x 0) as [A | A].
      - assert (x / w < 0).
        { apply Qlt_shift_div_r; lra. }
        assert (E1 : Num.Math_min w (Num.Math_max 0 x) == 0) by minmax.
        assert (E2 : Num.Math_max 0 (Num.Math_min 1 (x / w)) == 0) by minmax.
        rewrite E1, E2. exact H0.
      - destruct (Qlt_le_dec w x) as [B | B].
        + assert (1 < x / w).
          { apply Qlt_shift_div_l; lra. }
          assert (E1 : Num.Math_min w (Num.Math_max 0 x) == w) by minmax.
          assert (E2 : Num.Math_max 0 (Num.Math_min 1 (x / w)) == 1) by minmax.
          rewrite E1, E2. exact H1.
        + assert (0 <= x / w) by (apply Qle_shift_div_l; lra).
          assert (x / w <= 1) by (apply Qle_shift_div_r; lra).
          assert (E1 : Num.Math_min w (Num.Math_max 0 x) == x) by minmax.
          assert (E2 : Num.Math_max 0 (Num.Math_min 1 (x / w)) == x / w)
            by minmax.
          rewrite E1, E2. reflexivity. }
    rewrite E. reflexivity.
Qed.

Lemma progress_bar_and_scrub_agree_witness :
  exists r,
    TimelinePreview.requestedTimeOf TimelinePreview.warmState 115 = Some r
    /\ r == Layout.calcTime (Some (ClipItem.mkRect 0 230))
              (Sequence.totalDuration
                 (TimelinePreview.sequenceRef TimelinePreview.warmState))
              115.
Proof.
  assert (Hw : 0 < ClipItem.width (ClipItem.mkRect 0 230)) by reflexivity.
  exact (proj2 (progress_bar_and_scrub_agree (ClipItem.mkRect 0 230)
                  TimelinePreview.warmState 0 115 Hw eq_refl)).
Defined.

(** ** The exporter's log buffer *)

Section LogFacts.
Import ExportLog.

Lemma lastN_short {A : Type} (n : nat) (l : list A) :
  (List.length l <= n)%nat -> lastN n l = l.
Proof.
  intro H. unfold lastN.
  replace (List.length l - n)%nat with O by lia. reflexivity.
Qed.

Lemma lastN_length {A : Type} (n : nat) (l : list A) :
  List.length (lastN n l) = Nat.min n (List.length l).
Proof.
  unfold lastN. rewrite length_skipn. lia.
Qed.

Lemma lastN_lastN {A : Type} (n m : nat) (l : list A) :
  (m <= n)%nat -> lastN m (lastN n l) = lastN m l.
Proof.
  intro H. unfold lastN at 1. rewrite lastN_length.
  unfold lastN. rewrite skipn_skipn. f_equal. lia.
Qed.

Lemma onLog_lastN (all : list string) (m : string) :
  onLog m (lastN 200 all) = lastN 200 (all ++ [m]).
Proof.
  unfold onLog. cbv zeta.
  rewrite length_app, lastN_length. simpl List.length.
  destruct (Nat.le_gt_cases (List.length all) 199) as [Hs | Hl].
  - rewrite (lastN_short 200 all) by lia.
    replace (Nat.min 200 (List.length all)) with (List.length all) by lia.
    assert (E : (200 <? List.length all + 1)%nat = false)
      by (apply Nat.ltb_ge; lia).
    rewrite E. symmetry. apply lastN_short. rewrite length_app. simpl. lia.
  - replace (Nat.min 200 (List.length all)) with 200%nat by lia.
    assert (E : (200 <? 200 + 1)%nat = true) by reflexivity.
    rewrite E. unfold lastN. rewrite length_app. simpl List.length.
    replace (200 + 1 - 200)%nat with 1%nat by lia.
    rewrite !skipn_app.
    rewrite length_skipn.
    replace (1 - (List.length all - (List.length all - 200)))%nat with O by lia.
    replace (List.length all + 1 - 200 - List.length all)%nat with O by lia.
    rewrite skipn_skipn. simpl skipn at 2 4.
    f_equal. f_equal. lia.
Qed.

Lemma logAll_lastN (messages : list string) : forall all,
  logAll messages (lastN 200 all) = lastN 200 (all ++ messages).
Proof.
  unfold logAll.
  induction messages as [| m rest IH]; intro all; simpl.
  - now rewrite app_nil_r.
  - rewrite onLog_lastN, IH, <- app_assoc. reflexivity.
Qed.

End LogFacts.

(** X23.  The exporter's log buffer is a window on the newest messages:
    started empty, after any number of log messages it holds the last 200
    of them in order (all of them while there are at most 200), never
    more than 200; and the tail shown when an export fails is the last 30
    messages logged. *)
Theorem log_buffer_keeps_newest (messages : list string) :
  let buf := ExportLog.logAll messages [] in
  buf = ExportLog.lastN 200 messages
  /\ (List.length buf <= 200)%nat
  /\ ((List.length messages <= 200)%nat -> buf = messages)
  /\ ExportLog.tail30 buf = ExportLog.lastN 30 messages.
Proof.
  intro buf.
  assert (E : buf = ExportLog.lastN 200 messages).
  { subst buf. apply (logAll_lastN messages []). }
  split; [exact E |].
  split; [rewrite E, lastN_length; lia |].
  split; [intro H; rewrite E; now apply lastN_short |].
  rewrite E. apply (lastN_lastN 200 30 messages). lia.
Qed.

(** ** The split view *)

Section PanelFacts.
Import Num Panels.

Lemma maxSidebar_min (w : Q) : minSidebar <= maxSidebar w.
Proof. unfold maxSidebar. minmax. Qed.

Lemma drag_last (w start startX : Q) (moves : list Q) (x : Q) :
  fold_left (fun _ clientX => onMove w start startX clientX)
            (moves ++ [x]) start
  = onMove w start startX x.
Proof. now rewrite fold_left_app. Qed.

Lemma drag_range (w start startX : Q) (moves : list Q) :
  minSidebar <= start ->
  minSidebar
  <= fold_left (fun _ clientX => onMove w start startX clientX) moves start.
Proof.
  intro H.
  induction moves as [| x l _] using rev_ind; [exact H |].
  rewrite drag_last. pose proof (maxSidebar_min w) as M.
  unfold onMove. cbv zeta.
  remember (maxSidebar w) as m eqn:Em. clear Em. minmax.
Qed.

Lemma panel_op_floor (sidebarWidth : Q) (op : PanelOp) :
  minSidebar <= sidebarWidth -> minSidebar <= applyPanelOp sidebarWidth op.
Proof.
  intro H. pose proof H as H'. unfold minSidebar in H'.
  destruct op as [w | w | w startX moves]; simpl.
  - pose proof (maxSidebar_min w) as M. unfold clampOnResize.
    remember (maxSidebar w) as m eqn:Em. clear Em. minmax.
  - pose proof (maxSidebar_min w) as M. unfold initPortrait. cbv zeta.
    remember (maxSidebar w) as m eqn:Em. clear Em.
    remember (inject_Z (Math_round (w / 2))) as p eqn:Ep. clear Ep. minmax.
  - now apply drag_range.
Qed.

End PanelFacts.

(** X24.  Starting from its initial 420 pixels, the sidebar never gets
    narrower than 320 pixels, whatever sequence of container resizes,
    portrait initialisations and drags of the divider occurs.  After a
    resize, a portrait initialisation or a drag with at least one pointer
    move in a container of width [w], the sidebar is at most
    [max 320 (w - 420)] wide, so that the right panel keeps at least 420
    pixels whenever the container is at least 740 wide.  A resize never
    widens the sidebar, and a drag whose pointer comes back to where it
    went down restores a width that was within the limits. *)
Theorem sidebar_width_within_limits (ops : list Panels.PanelOp)
    (w startX x : Q) (moves : list Q) :
  let width := Panels.applyPanelOps ops Panels.initialSidebarWidth in
  let resized := Panels.applyPanelOp width (Panels.Resized w) in
  let portrait := Panels.applyPanelOp width (Panels.Portrait w) in
  let dragged :=
    Panels.applyPanelOp width (Panels.Dragged w startX (moves ++ [x])) in
  320 <= width
  /\ (resized <= Panels.maxSidebar w /\ resized <= width
      /\ portrait <= Panels.maxSidebar w /\ dragged <= Panels.maxSidebar w)
  /\ (740 <= w ->
      420 <= w - resized /\ 420 <= w - portrait /\ 420 <= w - dragged)
  /\ (x == startX -> width <= Panels.maxSidebar w -> dragged == width).
Proof.
  intros width resized portrait dragged.
  assert (Hfloor : Panels.minSidebar <= width).
  { subst width. unfold Panels.applyPanelOps.
    assert (G : forall l v, Panels.minSidebar <= v ->
                  Panels.minSidebar <= fold_left Panels.applyPanelOp l v).
    { induction l as [| op rest IH]; intros v Hv; [exact Hv |].
      simpl. apply IH. now apply panel_op_floor. }
    apply G. unfold Panels.minSidebar, Panels.initialSidebarWidth. lra. }
  assert (Hdrag : dragged = Panels.onMove w width startX x).
  { subst dragged. simpl. apply drag_last. }
  pose proof (maxSidebar_min w) as M.
  assert (Hm : 740 <= w -> Panels.maxSidebar w == w - 420).
  { intro Hw. unfold Panels.maxSidebar, Panels.minSidebar, Panels.minRight.
    minmax. }
  unfold Panels.minSidebar in Hfloor, M.
  assert (R1 : resized <= Panels.maxSidebar w /\ resized <= width).
  { subst resized. simpl. unfold Panels.clampOnResize.
    remember (Panels.maxSidebar w) as m eqn:Em. clear Em Hm.
    clearbody width. split; minmax. }
  assert (R2 : portrait <= Panels.maxSidebar w).
  { subst portrait. simpl. unfold Panels.initPortrait. cbv zeta.
    remember (Panels.maxSidebar w) as m eqn:Em. clear Em Hm.
    remember (inject_Z (Num.Math_round (w / 2))) as p eqn:Ep. clear Ep.
    unfold Panels.minSidebar. minmax. }
  assert (R3 : dragged <= Panels.maxSidebar w).
  { rewrite Hdrag. unfold Panels.onMove. cbv zeta.
    remember (Panels.maxSidebar w) as m eqn:Em. clear Em Hm.
    unfold Panels.minSidebar. clearbody width. minmax. }
  split; [exact Hfloor |].
  split; [destruct R1; auto |].
  split.
  { intro Hw. specialize (Hm Hw). destruct R1 as [R1 _].
    remember (Panels.maxSidebar w) as m eqn:Em. clear Em.
    clearbody resized portrait dragged. split; [| split]; lra. }
  intros Hx Hle. rewrite Hdrag. unfold Panels.onMove. cbv zeta.
  remember (Panels.maxSidebar w) as m eqn:Em. clear Em Hm.
  unfold Panels.minSidebar. clearbody width. minmax.
Qed.
